(** * magnit-vms-cli: credential store and authenticator

    A shallow embedding of [internal/keyring/store.go] (package [keyring])
    together with the parts of the Go standard library it calls, and the
    properties of the natural-language specification stated over it.

    Go strings are byte strings: they are modelled by [string], one [ascii]
    per byte.  Runes are [Z] (Go's [rune] is a signed 32-bit integer). *)

From Stdlib Require Import ZArith Lia Ascii String List Bool.
From stdpp Require Import base option strings gmap.

Local Open Scope string_scope.
Local Open Scope Z_scope.

(** ** Bytes *)

Definition byte_val (c : ascii) : Z := Z.of_N (N_of_ascii c).
Definition byte_chr (b : Z) : ascii := ascii_of_N (Z.to_N (b mod 256)).

(** ** Package [unicode/utf8] *)

Module utf8.

Definition RuneError : Z := 0xFFFD.
Definition RuneSelf : Z := 0x80.
Definition MaxRune : Z := 0x10FFFF.
Definition surrogateMin : Z := 0xD800.
Definition surrogateMax : Z := 0xDFFF.

Definition locb : Z := 0x80.
Definition hicb : Z := 0xBF.
Definition maskx : Z := 0x3F.
Definition mask2 : Z := 0x1F.
Definition mask3 : Z := 0x0F.
Definition mask4 : Z := 0x07.

(** The table [first] of the Go source, with the accept range of the
    second byte inlined: [AS] is an ASCII byte, [XX] an invalid leading
    byte, [Lead sz lo hi] the first byte of a [sz]-byte sequence whose
    second byte must lie in [lo..hi]. *)
Inductive firstInfo : Type :=
| AS
| XX
| Lead (sz : nat) (lo hi : Z).

Definition first (b : Z) : firstInfo :=
  if b <? 0x80 then AS
  else if b <? 0xC2 then XX
  else if b <? 0xE0 then Lead 2 locb hicb
  else if b =? 0xE0 then Lead 3 0xA0 hicb
  else if b <? 0xED then Lead 3 locb hicb
  else if b =? 0xED then Lead 3 locb 0x9F
  else if b <? 0xF0 then Lead 3 locb hicb
  else if b =? 0xF0 then Lead 4 0x90 hicb
  else if b <? 0xF4 then Lead 4 locb hicb
  else if b =? 0xF4 then Lead 4 locb 0x8F
  else XX.

Definition continuation (b : Z) : bool := (locb <=? b) && (b <=? hicb).

(** [DecodeRuneInString s] is the first rune of [s] and its width in
    bytes; [(RuneError, 0)] on the empty string and [(RuneError, 1)] on
    an invalid encoding. *)
Definition DecodeRuneInString (s : string) : Z * nat :=
  match s with
  | EmptyString => (RuneError, 0%nat)
  | String c0 t0 =>
      let s0 := byte_val c0 in
      match first s0 with
      | AS => (s0, 1%nat)
      | XX => (RuneError, 1%nat)
      | Lead sz lo hi =>
          if (String.length s <? sz)%nat then (RuneError, 1%nat) else
          match t0 with
          | EmptyString => (RuneError, 1%nat)
          | String c1 t1 =>
              let s1 := byte_val c1 in
              if (s1 <? lo) || (hi <? s1) then (RuneError, 1%nat) else
              if (sz <=? 2)%nat then
                (Z.lor (Z.shiftl (Z.land s0 mask2) 6) (Z.land s1 maskx), 2%nat)
              else
              match t1 with
              | EmptyString => (RuneError, 1%nat)
              | String c2 t2 =>
                  let s2 := byte_val c2 in
                  if negb (continuation s2) then (RuneError, 1%nat) else
                  if (sz <=? 3)%nat then
                    (Z.lor (Z.lor (Z.shiftl (Z.land s0 mask3) 12)
                                  (Z.shiftl (Z.land s1 maskx) 6))
                           (Z.land s2 maskx), 3%nat)
                  else
                  match t2 with
                  | EmptyString => (RuneError, 1%nat)
                  | String c3 _ =>
                      let s3 := byte_val c3 in
                      if negb (continuation s3) then (RuneError, 1%nat) else
                      (Z.lor (Z.lor (Z.lor (Z.shiftl (Z.land s0 mask4) 18)
                                           (Z.shiftl (Z.land s1 maskx) 12))
                                    (Z.shiftl (Z.land s2 maskx) 6))
                             (Z.land s3 maskx), 4%nat)
                  end
              end
          end
      end
  end.

Definition RuneStart (b : Z) : bool := negb (Z.land b 0xC0 =? 0x80).

(** [DecodeLastRune rs] is [DecodeLastRuneInString] on the string whose
    bytes, last one first, are [rs].  The scan for the start of the last
    rune looks at most [UTFMax] bytes back; when no start byte is found
    there the candidate begins one byte earlier still (or at the start of
    the string) and is decoded forwards. *)
Definition lastCandidate (rs : list ascii) : list ascii :=
  match rs with
  | [] => []
  | b :: [] => [b]
  | b :: b1 :: tl1 =>
      if RuneStart (byte_val b1) then [b1; b] else
      match tl1 with
      | [] => [b1; b]
      | b2 :: tl2 =>
          if RuneStart (byte_val b2) then [b2; b1; b] else
          match tl2 with
          | [] => [b2; b1; b]
          | b3 :: tl3 =>
              if RuneStart (byte_val b3) then [b3; b2; b1; b] else
              match tl3 with
              | [] => [b3; b2; b1; b]
              | b4 :: _ => [b4; b3; b2; b1; b]
              end
          end
      end
  end.

Definition DecodeLastRune (rs : list ascii) : Z * nat :=
  match rs with
  | [] => (RuneError, 0%nat)
  | b :: _ =>
      if byte_val b <? RuneSelf then (byte_val b, 1%nat) else
      let cand := lastCandidate rs in
      let '(r, size) := DecodeRuneInString (string_of_list_ascii cand) in
      if negb (size =? List.length cand)%nat then (RuneError, 1%nat)
      else (r, size)
  end.

(** [EncodeRune r] is the UTF-8 encoding [utf8.AppendRune(nil, r)]. *)
Definition EncodeRune (r : Z) : string :=
  let i := r mod 2 ^ 32 in
  let enc3 (r : Z) :=
    String (byte_chr (Z.lor 0xE0 (Z.shiftr r 12 mod 256)))
   (String (byte_chr (Z.lor 0x80 (Z.land (Z.shiftr r 6 mod 256) maskx)))
   (String (byte_chr (Z.lor 0x80 (Z.land (r mod 256) maskx))) "")) in
  if i <=? 0x7F then String (byte_chr r) ""
  else if i <=? 0x7FF then
    String (byte_chr (Z.lor 0xC0 (Z.shiftr r 6 mod 256)))
   (String (byte_chr (Z.lor 0x80 (Z.land (r mod 256) maskx))) "")
  else if (MaxRune <? i) || ((surrogateMin <=? i) && (i <=? surrogateMax))
    then enc3 RuneError
  else if i <=? 0xFFFF then enc3 r
  else
    String (byte_chr (Z.lor 0xF0 (Z.shiftr r 18 mod 256)))
   (String (byte_chr (Z.lor 0x80 (Z.land (Z.shiftr r 12 mod 256) maskx)))
   (String (byte_chr (Z.lor 0x80 (Z.land (Z.shiftr r 6 mod 256) maskx)))
   (String (byte_chr (Z.lor 0x80 (Z.land (r mod 256) maskx))) ""))).

(** The runes a [for _, r := range s] loop visits.  [skip] counts the
    bytes of the current rune that are still to be stepped over. *)
Fixpoint rangeFrom (skip : nat) (s : string) : list Z :=
  match s with
  | EmptyString => []
  | String _ t =>
      match skip with
      | S k => rangeFrom k t
      | O => let '(r, size) := DecodeRuneInString s in
             r :: rangeFrom (Nat.pred size) t
      end
  end.

Definition runes (s : string) : list Z := rangeFrom 0 s.

End utf8.

(** ** Package [unicode] *)

Module unicode.

Definition MaxLatin1 : Z := 0xFF.

(** [unicode.IsSpace]: the Latin-1 spaces, then the [White_Space] range
    table above Latin-1. *)
Definition IsSpace (r : Z) : bool :=
  if (0 <=? r) && (r <=? MaxLatin1) then
    (r =? 0x09) || (r =? 0x0A) || (r =? 0x0B) || (r =? 0x0C) || (r =? 0x0D)
    || (r =? 0x20) || (r =? 0x85) || (r =? 0xA0)
  else
    (r =? 0x1680) || ((0x2000 <=? r) && (r <=? 0x200A))
    || (r =? 0x2028) || (r =? 0x2029) || (r =? 0x202F) || (r =? 0x205F)
    || (r =? 0x3000).

End unicode.

(** ** Package [strings] *)

Module strings.

(** The table [asciiSpace]. *)
Definition asciiSpace (b : Z) : bool :=
  (b =? 0x09) || (b =? 0x0A) || (b =? 0x0B) || (b =? 0x0C) || (b =? 0x0D)
  || (b =? 0x20).

(** [TrimLeftFunc s f]: [s[i:]] for the index [i] of the first rune on
    which [f] is false, the empty string when there is none. *)
Fixpoint trimLeftFrom (f : Z -> bool) (skip : nat) (s : string) : string :=
  match s with
  | EmptyString => ""
  | String _ t =>
      match skip with
      | S k => trimLeftFrom f k t
      | O => let '(r, size) := utf8.DecodeRuneInString s in
             if f r then trimLeftFrom f (Nat.pred size) t else s
      end
  end.

Definition TrimLeftFunc (s : string) (f : Z -> bool) : string :=
  trimLeftFrom f 0 s.

(** [lastIndexFunc] walks backwards over [pre], the bytes before index
    [i] with the last one first, and carries [suf = s[i:]].  The result
    is [Some (pre', suf')] with [suf' = s[i:]] at the index it returns,
    [None] for [-1]. *)
Fixpoint lastIndexFrom (f : Z -> bool) (skip : nat)
    (pre : list ascii) (suf : string) : option (list ascii * string) :=
  match pre with
  | [] => None
  | b :: tl =>
      match skip with
      | S k => lastIndexFrom f k tl (String b suf)
      | O =>
          let '(r, size) := utf8.DecodeLastRune pre in
          let pre' := skipn size pre in
          let suf' :=
            string_of_list_ascii (rev (firstn size pre)) +:+ suf in
          if f r then lastIndexFrom f (Nat.pred size) tl (String b suf)
          else Some (pre', suf')
      end
  end.

Definition TrimRightFunc (s : string) (f : Z -> bool) : string :=
  match lastIndexFrom f 0 (rev (list_ascii_of_string s)) "" with
  | None => ""
  | Some (pre, suf) =>
      let wid :=
        match suf with
        | EmptyString => 1%nat
        | String c _ =>
            if utf8.RuneSelf <=? byte_val c
            then snd (utf8.DecodeRuneInString suf) else 1%nat
        end in
      string_of_list_ascii (rev pre)
        +:+ string_of_list_ascii (firstn wid (list_ascii_of_string suf))
  end.

Definition TrimFunc (s : string) (f : Z -> bool) : string :=
  TrimRightFunc (TrimLeftFunc s f) f.

(** Second loop of [TrimSpace], on the bytes of [s[start:]] last one
    first: drop trailing ASCII spaces, and hand over to [TrimRightFunc]
    at a non-ASCII byte. *)
Fixpoint trimSpaceRight (rs : list ascii) : string :=
  match rs with
  | [] => ""
  | c :: tl =>
      if utf8.RuneSelf <=? byte_val c
      then TrimRightFunc (string_of_list_ascii (rev rs)) unicode.IsSpace
      else if asciiSpace (byte_val c) then trimSpaceRight tl
      else string_of_list_ascii (rev rs)
  end.

(** [strings.TrimSpace]: the ASCII fast path from the left, then from
    the right, with the Unicode-aware fallbacks of the Go source. *)
Fixpoint TrimSpace (s : string) : string :=
  match s with
  | EmptyString => ""
  | String c t =>
      if utf8.RuneSelf <=? byte_val c then TrimFunc s unicode.IsSpace
      else if asciiSpace (byte_val c) then TrimSpace t
      else trimSpaceRight (rev (list_ascii_of_string s))
  end.

(** [strings.Map]: every rune [c] of [s] is replaced by [mapping c],
    dropped when that is negative; an invalid byte is visited as
    [RuneError]. *)
Definition Map (mapping : Z -> Z) (s : string) : string :=
  fold_right
    (fun c acc =>
       let r := mapping c in
       if 0 <=? r then utf8.EncodeRune r +:+ acc else acc)
    "" (utf8.runes s).

Fixpoint isASCII (s : string) : bool :=
  match s with
  | EmptyString => true
  | String c t => (byte_val c <? utf8.RuneSelf) && isASCII t
  end.

Definition lowerByte (c : ascii) : ascii :=
  let b := byte_val c in
  if (0x41 <=? b) && (b <=? 0x5A) then byte_chr (b + 0x20) else c.

Fixpoint mapBytes (f : ascii -> ascii) (s : string) : string :=
  match s with
  | EmptyString => ""
  | String c t => String (f c) (mapBytes f t)
  end.

(** [strings.ToLower]: ASCII-only strings are lowered bytewise; any
    other string goes through [Map(unicode.ToLower, s)].  The case table
    [unicode_ToLower] is a parameter. *)
Definition ToLower (unicode_ToLower : Z -> Z) (s : string) : string :=
  if isASCII s then mapBytes lowerByte s else Map unicode_ToLower s.

(** [strings.HasPrefix] and [strings.Contains]. *)
Fixpoint HasPrefix (s prefix : string) : bool :=
  match prefix, s with
  | EmptyString, _ => true
  | String p pt, String c t => if ascii_dec p c then HasPrefix t pt else false
  | String _ _, EmptyString => false
  end.

Fixpoint Contains (s substr : string) : bool :=
  HasPrefix s substr ||
  match s with
  | EmptyString => false
  | String _ t => Contains t substr
  end.

End strings.

(** ** Errors

    A Go [error] is compared by identity.  The three package-level error
    values the store tests with [errors.Is] are the [sentinel]s; every
    other error is a fresh value, either plain ([Fresh], from [errors.New]
    or a [fmt.Errorf] without [%w]) or wrapping the operand of its [%w]
    ([Wrapping]).  Both carry the text [Error()] returns. *)

Inductive sentinel : Type :=
| ErrCredentialsNotFound   (* keyring.ErrCredentialsNotFound *)
| zk_ErrNotFound           (* go-keyring's ErrNotFound *)
| os_ErrNotExist.          (* os.ErrNotExist *)

Global Instance sentinel_eq_dec : EqDecision sentinel.
Proof. solve_decision. Defined.

Inductive error : Type :=
| Sentinel (which : sentinel)
| Fresh (text : string)
| Wrapping (text : string) (cause : error).

Coercion Sentinel : sentinel >-> error.

Definition Error (e : error) : string :=
  match e with
  | Sentinel ErrCredentialsNotFound => "credentials not found"
  | Sentinel zk_ErrNotFound => "secret not found in keyring"
  | Sentinel os_ErrNotExist => "file does not exist"
  | Fresh text => text
  | Wrapping text _ => text
  end.

Module errors.

Definition New (text : string) : error := Fresh text.

(** [errors.Is err target] for a sentinel [target]: walk the chain of
    wrapped causes. *)
Fixpoint Is (err : error) (target : sentinel) : bool :=
  match err with
  | Sentinel which => bool_decide (which = target)
  | Fresh _ => false
  | Wrapping _ cause => Is cause target
  end.

End errors.

(** [fmt.Errorf (prefix ++ ": %w") err]. *)
Definition Errorf_w (prefix : string) (err : error) : error :=
  Wrapping (prefix +:+ ": " +:+ Error err) err.

(** ** The data model *)

Record Credentials : Type := mkCredentials {
  Username : string;
  Password : string;
}.

Global Instance Credentials_eq_dec : EqDecision Credentials.
Proof. solve_decision. Defined.

(** The zero value [Credentials{}]. *)
Definition noCredentials : Credentials := mkCredentials "" "".

(** ** What the store takes from outside

    The Unicode case table, [%q] quoting, the YAML codec of
    [gopkg.in/yaml.v3] at type [Credentials], the path functions of
    [path/filepath] and the configuration-path provider
    [config.ConfigPath] (which reads the process environment) are
    parameters of the development. *)

Class Platform : Type := {
  unicode_ToLower : Z -> Z;
  strconv_Quote : string -> string;
  yaml_Marshal : Credentials -> string * option error;
  yaml_Unmarshal : string -> Credentials * option error;
  filepath_Dir : string -> string;
  filepath_Join : string -> string -> string;
  config_ConfigPath : gmap string string -> string * option error;
}.

(** ** The world the store acts on *)

Record File : Type := mkFile {
  contents : string;
  mode : Z;
}.

(** The calls that leave the process.  [fault] says which of them fail in
    a given world, and with what error, for reasons of the backend's own
    (a locked or missing secret service, a read-only disk, ...). *)
Inductive syscall : Type :=
| KeyringSet (service key value : string)
| KeyringGet (service key : string)
| KeyringDelete (service key : string)
| OsMkdirAll (path : string)
| OsWriteFile (path : string)
| OsReadFile (path : string)
| OsRemove (path : string).

Record World : Type := mkWorld {
  environ : gmap string string;
  secrets : gmap (string * string) string;
  files : gmap string File;
  dirs : gmap string Z;
  fault : syscall -> option error;
}.

Definition with_secrets (w : World) (m : gmap (string * string) string) : World :=
  mkWorld (environ w) m (files w) (dirs w) (fault w).
Definition with_files (w : World) (m : gmap string File) : World :=
  mkWorld (environ w) (secrets w) m (dirs w) (fault w).
Definition with_dirs (w : World) (m : gmap string Z) : World :=
  mkWorld (environ w) (secrets w) (files w) m (fault w).

(** Stateful code threads the world. *)
Definition M (A : Type) : Type := World -> A * World.

Definition ret {A} (a : A) : M A := fun w => (a, w).
Definition bind {A B} (m : M A) (k : A -> M B) : M B :=
  fun w => let '(a, w') := m w in k a w'.

Notation "'let*' x ':=' m 'in' k" := (bind m (fun x => k))
  (at level 10, x pattern, m at level 100, k at level 200).

(** ** Package [go-keyring] (imported as [zk]) *)

Module zk.

Definition ErrNotFound : sentinel := zk_ErrNotFound.

Definition Set_ (service key value : string) : M (option error) :=
  fun w =>
    match fault w (KeyringSet service key value) with
    | Some e => (Some e, w)
    | None => (None, with_secrets w (<[(service, key) := value]> (secrets w)))
    end.

Definition Get (service key : string) : M (string * option error) :=
  fun w =>
    match fault w (KeyringGet service key) with
    | Some e => (("", Some e), w)
    | None =>
        match secrets w !! (service, key) with
        | Some v => ((v, None), w)
        | None => (("", Some (Sentinel ErrNotFound)), w)
        end
    end.

Definition Delete (service key : string) : M (option error) :=
  fun w =>
    match fault w (KeyringDelete service key) with
    | Some e => (Some e, w)
    | None =>
        match secrets w !! (service, key) with
        | Some _ => (None, with_secrets w (delete (service, key) (secrets w)))
        | None => (Some (Sentinel ErrNotFound), w)
        end
    end.

End zk.

(** ** Package [os] *)

Module os.

Definition ErrNotExist : sentinel := os_ErrNotExist.

(** A [*PathError] whose cause is [ENOENT]. *)
Definition pathNotExist (op path : string) : error :=
  Wrapping (op +:+ " " +:+ path +:+ ": no such file or directory")
           (Sentinel ErrNotExist).

Definition Getenv (key : string) : M string :=
  fun w => (default "" (environ w !! key), w).

Definition MkdirAll (path : string) (perm : Z) : M (option error) :=
  fun w =>
    match fault w (OsMkdirAll path) with
    | Some e => (Some e, w)
    | None =>
        match dirs w !! path with
        | Some _ => (None, w)
        | None => (None, with_dirs w (<[path := perm]> (dirs w)))
        end
    end.

(** [os.WriteFile] creates the file with [perm] or truncates it, keeping
    the mode it had. *)
Definition WriteFile (path data : string) (perm : Z) : M (option error) :=
  fun w =>
    match fault w (OsWriteFile path) with
    | Some e => (Some e, w)
    | None =>
        let m := match files w !! path with
                 | Some f => mode f
                 | None => perm
                 end in
        (None, with_files w (<[path := mkFile data m]> (files w)))
    end.

Definition ReadFile (path : string) : M (string * option error) :=
  fun w =>
    match fault w (OsReadFile path) with
    | Some e => (("", Some e), w)
    | None =>
        match files w !! path with
        | Some f => ((contents f, None), w)
        | None => (("", Some (pathNotExist "open" path)), w)
        end
    end.

Definition Remove (path : string) : M (option error) :=
  fun w =>
    match fault w (OsRemove path) with
    | Some e => (Some e, w)
    | None =>
        match files w !! path with
        | Some _ => (None, with_files w (delete path (files w)))
        | None => (Some (pathNotExist "remove" path), w)
        end
    end.

End os.

(** ** Package [keyring]: [internal/keyring/store.go] *)

Module keyring.
Section store.
Context {P : Platform}.

Definition serviceName : string := "magnit-vms-cli".
Definition userKey : string := "username".
Definition passKey : string := "password".
Definition credentialsFileName : string := "credentials.yaml".
Definition StoreAuto : string := "auto".
Definition StoreKeyring : string := "keyring".
Definition StoreFile : string := "file".
Definition CredentialStoreEnvVar : string := "MAGNIT_CREDENTIAL_STORE".
Definition defaultCredentialBackend : string := StoreAuto.

(** The modes [0o700] and [0o600] of the source. *)
Definition dirPerm : Z := 7 * 64.
Definition filePerm : Z := 6 * 64.

Definition normalizeStore (store : string) : string :=
  let value := strings.ToLower unicode_ToLower (strings.TrimSpace store) in
  if String.eqb value "" then defaultCredentialBackend else value.

Definition invalidStoreError (store : string) : error :=
  Fresh ("invalid credential store " +:+ strconv_Quote store
         +:+ " (allowed: " +:+ StoreAuto +:+ ", " +:+ StoreKeyring
         +:+ ", " +:+ StoreFile +:+ ")").

Definition ValidateCredentialStore (store : string) : option error :=
  let s := normalizeStore store in
  if String.eqb s StoreAuto || String.eqb s StoreKeyring
     || String.eqb s StoreFile
  then None
  else Some (invalidStoreError store).

Definition NormalizeCredentialStore (store : string) : string :=
  normalizeStore store.

Definition resolveStore (preferredStore : string) : M (string * option error) :=
  let* env := os.Getenv CredentialStoreEnvVar in
  let store := strings.TrimSpace env in
  let store := if String.eqb store "" then preferredStore else store in
  let store := normalizeStore store in
  match ValidateCredentialStore store with
  | Some err => ret ("", Some err)
  | None => ret (store, None)
  end.

Definition saveToKeyring (creds : Credentials) : M (option error) :=
  let* err := zk.Set_ serviceName userKey (Username creds) in
  match err with
  | Some err => ret (Some (Errorf_w "save username to keyring" err))
  | None =>
      let* err := zk.Set_ serviceName passKey (Password creds) in
      match err with
      | Some err => ret (Some (Errorf_w "save password to keyring" err))
      | None => ret None
      end
  end.

Definition loadFromKeyring : M (Credentials * option error) :=
  let* (username, err) := zk.Get serviceName userKey in
  match err with
  | Some err =>
      if errors.Is err zk.ErrNotFound
      then ret (noCredentials, Some (Sentinel ErrCredentialsNotFound))
      else ret (noCredentials, Some (Errorf_w "read username from keyring" err))
  | None =>
      let* (password, err) := zk.Get serviceName passKey in
      match err with
      | Some err =>
          if errors.Is err zk.ErrNotFound
          then ret (noCredentials, Some (Sentinel ErrCredentialsNotFound))
          else ret (noCredentials,
                    Some (Errorf_w "read password from keyring" err))
      | None => ret (mkCredentials username password, None)
      end
  end.

(** [err != nil && !errors.Is(err, target)], with the error when so. *)
Definition failedOtherThan (target : sentinel) (err : option error)
    : option error :=
  match err with
  | Some e => if errors.Is e target then None else Some e
  | None => None
  end.

Definition deleteFromKeyring : M (option error) :=
  let* userErr := zk.Delete serviceName userKey in
  let* passErr := zk.Delete serviceName passKey in
  match failedOtherThan zk.ErrNotFound userErr with
  | Some userErr => ret (Some (Errorf_w "delete username from keyring" userErr))
  | None =>
      match failedOtherThan zk.ErrNotFound passErr with
      | Some passErr =>
          ret (Some (Errorf_w "delete password from keyring" passErr))
      | None => ret None
      end
  end.

Definition credentialsFilePath : M (string * option error) :=
  fun w =>
    match config_ConfigPath (environ w) with
    | (_, Some err) => (("", Some err), w)
    | (cfgPath, None) =>
        ((filepath_Join (filepath_Dir cfgPath) credentialsFileName, None), w)
    end.

Definition saveToFile (creds : Credentials) : M (option error) :=
  let* (path, err) := credentialsFilePath in
  match err with
  | Some err => ret (Some (Errorf_w "resolve credentials path" err))
  | None =>
      let* err := os.MkdirAll (filepath_Dir path) dirPerm in
      match err with
      | Some err => ret (Some (Errorf_w "create credentials dir" err))
      | None =>
          match yaml_Marshal creds with
          | (_, Some err) => ret (Some (Errorf_w "marshal credentials" err))
          | (data, None) =>
              let* err := os.WriteFile path data filePerm in
              match err with
              | Some err => ret (Some (Errorf_w "write credentials file" err))
              | None => ret None
              end
          end
      end
  end.

Definition loadFromFile : M (Credentials * option error) :=
  let* (path, err) := credentialsFilePath in
  match err with
  | Some err => ret (noCredentials, Some (Errorf_w "resolve credentials path" err))
  | None =>
      let* (data, err) := os.ReadFile path in
      match err with
      | Some err =>
          if errors.Is err os.ErrNotExist
          then ret (noCredentials, Some (Sentinel ErrCredentialsNotFound))
          else ret (noCredentials, Some (Errorf_w "read credentials file" err))
      | None =>
          match yaml_Unmarshal data with
          | (_, Some err) =>
              ret (noCredentials, Some (Errorf_w "parse credentials file" err))
          | (creds, None) =>
              if String.eqb (strings.TrimSpace (Username creds)) ""
                 || String.eqb (Password creds) ""
              then ret (noCredentials,
                        Some (Fresh "credentials file is missing required fields"))
              else ret (creds, None)
          end
      end
  end.

Definition deleteFromFile : M (option error) :=
  let* (path, err) := credentialsFilePath in
  match err with
  | Some err => ret (Some (Errorf_w "resolve credentials path" err))
  | None =>
      let* err := os.Remove path in
      match err with
      | Some err =>
          if errors.Is err os.ErrNotExist then ret None
          else ret (Some (Errorf_w "delete credentials file" err))
      | None => ret None
      end
  end.

(** [fmt.Errorf (op ++ " credentials failed (keyring: %v, file: %w)")]:
    both texts are in the message, only the file error is wrapped. *)
Definition bothFailed (op : string) (keyringErr fileErr : error) : error :=
  Wrapping (op +:+ " credentials failed (keyring: " +:+ Error keyringErr
            +:+ ", file: " +:+ Error fileErr +:+ ")") fileErr.

Definition unsupportedStore (store : string) : error :=
  Fresh ("unsupported credential store " +:+ strconv_Quote store).

Definition SaveCredentialsWithStore (creds : Credentials)
    (preferredStore : string) : M (option error) :=
  if String.eqb (Username creds) "" then
    ret (Some (errors.New "username is required"))
  else if String.eqb (Password creds) "" then
    ret (Some (errors.New "password is required"))
  else
    let* (store, err) := resolveStore preferredStore in
    match err with
    | Some err => ret (Some err)
    | None =>
        if String.eqb store StoreKeyring then saveToKeyring creds
        else if String.eqb store StoreFile then saveToFile creds
        else if String.eqb store StoreAuto then
          let* keyringErr := saveToKeyring creds in
          match keyringErr with
          | None => ret None
          | Some keyringErr =>
              let* fileErr := saveToFile creds in
              match fileErr with
              | Some fileErr => ret (Some (bothFailed "save" keyringErr fileErr))
              | None => ret None
              end
          end
        else ret (Some (unsupportedStore store))
    end.

Definition SaveCredentials (creds : Credentials) : M (option error) :=
  SaveCredentialsWithStore creds "".

Definition LoadCredentialsWithStore (preferredStore : string)
    : M (Credentials * option error) :=
  let* (store, err) := resolveStore preferredStore in
  match err with
  | Some err => ret (noCredentials, Some err)
  | None =>
      if String.eqb store StoreKeyring then loadFromKeyring
      else if String.eqb store StoreFile then loadFromFile
      else if String.eqb store StoreAuto then
        let* (creds, err) := loadFromKeyring in
        match err with
        | None => ret (creds, None)
        | Some err =>
            let* (fileCreds, fileErr) := loadFromFile in
            match fileErr with
            | None => ret (fileCreds, None)
            | Some fileErr =>
                if errors.Is err ErrCredentialsNotFound
                   && errors.Is fileErr ErrCredentialsNotFound
                then ret (noCredentials, Some (Sentinel ErrCredentialsNotFound))
                else if errors.Is err ErrCredentialsNotFound
                then ret (noCredentials, Some fileErr)
                else if errors.Is fileErr ErrCredentialsNotFound
                then ret (noCredentials, Some err)
                else ret (noCredentials, Some (bothFailed "load" err fileErr))
            end
        end
      else ret (noCredentials, Some (unsupportedStore store))
  end.

Definition LoadCredentials : M (Credentials * option error) :=
  LoadCredentialsWithStore "".

Definition DeleteCredentialsWithStore (preferredStore : string)
    : M (option error) :=
  let* (store, err) := resolveStore preferredStore in
  match err with
  | Some err => ret (Some err)
  | None =>
      if String.eqb store StoreKeyring then deleteFromKeyring
      else if String.eqb store StoreFile then deleteFromFile
      else if String.eqb store StoreAuto then
        let* keyringErr := deleteFromKeyring in
        let* fileErr := deleteFromFile in
        match keyringErr, fileErr with
        | Some keyringErr, Some fileErr =>
            ret (Some (bothFailed "delete" keyringErr fileErr))
        | _, _ => ret None
        end
      else ret (Some (unsupportedStore store))
  end.

Definition DeleteCredentials : M (option error) :=
  DeleteCredentialsWithStore "".

End store.
End keyring.

(** ** Package [auth]

    The authenticator's source is not part of the files at hand; only its
    tests are.  Its model follows the specification. *)

Module auth.

Record Cookie : Type := mkCookie {
  Name : string;
  Value : string;
  Path : string;
}.

(** Modelled from the spec: the path-scoping rule shared by both token
    extractors, whose source is missing.  Among the cookies of the given
    name whose [Path] is a prefix of (or equal to) the mount path, the
    one with the longest [Path]; the earliest of them when several are
    equally long. *)
Definition inScope (name mount : string) (c : Cookie) : bool :=
  String.eqb (Name c) name && strings.HasPrefix mount (Path c).

(** Modelled from the spec: "select the one whose Path attribute is the
    most specific (longest) prefix match"; the source is missing.  [best]
    is the longest match so far; a later cookie replaces it only when its
    [Path] is strictly longer. *)
Fixpoint mostSpecific (best : option Cookie) (cs : list Cookie)
    : option Cookie :=
  match cs with
  | [] => best
  | c :: tl =>
      match best with
      | None => mostSpecific (Some c) tl
      | Some b =>
          if (String.length (Path b) <? String.length (Path c))%nat
          then mostSpecific (Some c) tl
          else mostSpecific best tl
      end
  end.

(** Modelled from the spec: the selection among the cookies in scope; the
    source is missing. *)
Definition selectCookie (name mount : string) (jar : list Cookie)
    : option Cookie :=
  mostSpecific None (List.filter (inScope name mount) jar).

Definition unhex (c : ascii) : option Z :=
  let b := byte_val c in
  if (0x30 <=? b) && (b <=? 0x39) then Some (b - 0x30)
  else if (0x61 <=? b) && (b <=? 0x66) then Some (b - 0x61 + 10)
  else if (0x41 <=? b) && (b <=? 0x46) then Some (b - 0x41 + 10)
  else None.

(** Modelled from the spec: URL-decoding of a cookie value, whose source
    is missing.  Every [%XY] with hexadecimal digits [X] and [Y] stands
    for the byte [0xXY]; a [%] not followed by two such digits makes the
    value undecodable. *)
Fixpoint urlDecode (s : string) : option string :=
  match s with
  | EmptyString => Some ""
  | String c t =>
      if Ascii.eqb c "%"%char then
        match t with
        | String x (String y t') =>
            match unhex x, unhex y, urlDecode t' with
            | Some hi, Some lo, Some rest =>
                Some (String (byte_chr (16 * hi + lo)) rest)
            | _, _, _ => None
            end
        | _ => None
        end
      else
        match urlDecode t with
        | Some rest => Some (String c rest)
        | None => None
        end
  end.

Definition dquote : ascii := byte_chr 0x22.

(** The string without its last byte, and that byte. *)
Fixpoint unsnoc (s : string) : option (string * ascii) :=
  match s with
  | EmptyString => None
  | String c t =>
      match unsnoc t with
      | None => Some ("", c)
      | Some (init, last) => Some (String c init, last)
      end
  end.

(** Modelled from the spec: stripping one layer of surrounding quote
    characters, if present; the source is missing. *)
Definition stripQuotes (s : string) : string :=
  match s with
  | String c t =>
      if Ascii.eqb c dquote then
        match unsnoc t with
        | Some (inner, last) => if Ascii.eqb last dquote then inner else s
        | None => s
        end
      else s
  | EmptyString => s
  end.

Definition xsrfCookieName : string := "X-XSRF-TOKEN".

(** Modelled from the spec: [ExtractXSRFToken], whose source is missing.
    [jar] is the client's cookie jar and [mount] the path the base
    application is mounted under.  The cookie literally named
    [X-XSRF-TOKEN] is selected by the path-scoping rule, its value is
    URL-decoded and one layer of surrounding quotes is stripped; the
    extraction fails when no such cookie exists. *)
Definition ExtractXSRFToken (jar : list Cookie) (mount : string)
    : string * option error :=
  match selectCookie xsrfCookieName mount jar with
  | None => ("", Some (Fresh "xsrf token cookie not found"))
  | Some c =>
      match urlDecode (Value c) with
      | None => ("", Some (Fresh "decode xsrf token"))
      | Some v => (stripQuotes v, None)
      end
  end.

(** The way tokens are stored: percent-encoded and quoted.  Letters,
    digits and [-], [_], [.], [~] stand for themselves. *)
Definition unreserved (c : ascii) : bool :=
  let b := byte_val c in
  ((0x30 <=? b) && (b <=? 0x39)) || ((0x41 <=? b) && (b <=? 0x5A))
  || ((0x61 <=? b) && (b <=? 0x7A))
  || (b =? 0x2D) || (b =? 0x5F) || (b =? 0x2E) || (b =? 0x7E).

Definition hexDigit (d : Z) : ascii :=
  if d <? 10 then byte_chr (0x30 + d) else byte_chr (0x41 + d - 10).

Fixpoint urlEncode (s : string) : string :=
  match s with
  | EmptyString => ""
  | String c t =>
      if unreserved c then String c (urlEncode t)
      else String "%"%char
             (String (hexDigit (byte_val c / 16))
                (String (hexDigit (byte_val c mod 16)) (urlEncode t)))
  end.

Definition storedToken (token : string) : string :=
  String dquote (urlEncode token +:+ String dquote "").

(** The cookie value of the test, quotes included. *)
Definition quotedExample : string :=
  String dquote ("tok%2Ben%2F1" +:+ String dquote "").

(** *** Login *)

Inductive LoginOutcome : Type :=
| Success
| InvalidCredentials
| InteractiveAuthRequired
| TransportOrServerError.

Inductive Endpoint : Type :=
| LoginEndpoint      (* the login submission endpoint *)
| CurrentUser.       (* the lightweight "current user" endpoint *)

Global Instance Endpoint_eq_dec : EqDecision Endpoint.
Proof. solve_decision. Defined.

Record Request : Type := mkRequest {
  endpoint : Endpoint;
  form : list (string * string);
  sent : list Cookie;
}.

Record Response : Type := mkResponse {
  status : Z;
  body : string;
  setCookies : list Cookie;
}.

(** Modelled from the spec: the HTTP surface the authenticator consumes,
    whose source is missing.  The portal answers a request or the
    transport fails ([None]).  The literal markers the authenticator looks
    for in a page are behind two named predicates. *)
Record Portal : Type := mkPortal {
  serve : Request -> option Response;
  invalidCredentialsMarker : string -> bool;
  loginFormMarker : string -> bool;
}.

(** Modelled from the spec: the caller's HTTP client, whose source is
    missing: its cookie jar, shared by the steps of a login, and the
    requests it has sent, latest first. *)
Record Client : Type := mkClient {
  jar : list Cookie;
  requests : list Endpoint;
}.

(** Modelled from the spec: one request through the client; cookies the
    response sets are added to the jar. *)
Definition roundTrip (p : Portal) (e : Endpoint) (f : list (string * string))
    (c : Client) : option Response * Client :=
  let resp := serve p (mkRequest e f (jar c)) in
  let jar' := match resp with
              | Some r => app (setCookies r) (jar c)
              | None => jar c
              end in
  (resp, mkClient jar' (e :: requests c)).

(** Modelled from the spec: [Login], whose source is missing.  Step 1
    submits the form; step 2 looks for the invalid-credentials marker,
    then for the login-form marker, and fails at once on either; step 3
    verifies the session at the "current user" endpoint. *)
Definition Login (p : Portal) (username password : string) (c : Client)
    : LoginOutcome * Client :=
  let '(resp, c1) :=
    roundTrip p LoginEndpoint
      [("username", username); ("password", password)] c in
  match resp with
  | None => (TransportOrServerError, c1)
  | Some page =>
      if invalidCredentialsMarker p (body page) then (InvalidCredentials, c1)
      else if loginFormMarker p (body page) then (InteractiveAuthRequired, c1)
      else
        let '(resp, c2) := roundTrip p CurrentUser [] c1 in
        match resp with
        | Some r =>
            if (200 <=? status r) && (status r <? 300) then (Success, c2)
            else (TransportOrServerError, c2)
        | None => (TransportOrServerError, c2)
        end
  end.

(** How often the "current user" endpoint was called between two states
    of the client. *)
Definition currentUserCalls (before after : Client) : nat :=
  (count_occ Endpoint_eq_dec (requests after) CurrentUser
   - count_occ Endpoint_eq_dec (requests before) CurrentUser)%nat.

End auth.

(** ** A concrete platform

    Stand-ins for the parameters, in the manner of a test harness: an
    in-memory secret service and file system are already part of [World];
    here are the pure functions.  The YAML stand-in writes and reads the
    two-scalar document of the credentials file with double-quoted
    scalars, and, like YAML, reads an absent key as the empty string. *)

Module fake.

Definition ToLower (r : Z) : Z :=
  if (0x41 <=? r) && (r <=? 0x5A) then r + 0x20 else r.

Definition dquote : ascii := byte_chr 0x22.
Definition backslash : ascii := byte_chr 0x5C.
Definition newline : ascii := byte_chr 0x0A.

Definition Quote (s : string) : string :=
  String dquote (s +:+ String dquote "").

Fixpoint escape (s : string) : string :=
  match s with
  | EmptyString => ""
  | String c t =>
      if Ascii.eqb c dquote then String backslash (String dquote (escape t))
      else if Ascii.eqb c backslash
      then String backslash (String backslash (escape t))
      else if Ascii.eqb c newline then String backslash (String "n" (escape t))
      else String c (escape t)
  end.

(** One line [key: "value"], followed by [rest]. *)
Definition field (key value rest : string) : string :=
  (key +:+ ": " +:+ String dquote "")
  +:+ (escape value +:+ String dquote (String newline rest)).

Definition Marshal (c : Credentials) : string * option error :=
  (field "username" (Username c) (field "password" (Password c) ""), None).

(** The scalar up to the closing quote and what follows it. *)
Fixpoint readQuoted (s : string) : option (string * string) :=
  match s with
  | EmptyString => None
  | String c t =>
      if Ascii.eqb c dquote then Some ("", t)
      else if Ascii.eqb c backslash then
        match t with
        | String d t' =>
            let d' := if Ascii.eqb d "n" then newline else d in
            match readQuoted t' with
            | Some (v, rest) => Some (String d' v, rest)
            | None => None
            end
        | EmptyString => None
        end
      else
        match readQuoted t with
        | Some (v, rest) => Some (String c v, rest)
        | None => None
        end
  end.

Fixpoint stripPrefix (prefix s : string) : option string :=
  match prefix, s with
  | EmptyString, _ => Some s
  | String p pt, String c t =>
      if Ascii.eqb p c then stripPrefix pt t else None
  | String _ _, EmptyString => None
  end.

(** One line [key: "value"] at the head of [s]. *)
Definition parseField (key s : string) : option (string * string) :=
  match stripPrefix (key +:+ ": " +:+ String dquote "") s with
  | None => None
  | Some s1 =>
      match readQuoted s1 with
      | None => None
      | Some (v, s2) =>
          match stripPrefix (String newline "") s2 with
          | None => None
          | Some s3 => Some (v, s3)
          end
      end
  end.

Definition Unmarshal (data : string) : Credentials * option error :=
  let '(u, rest) := match parseField "username" data with
                    | Some (v, rest) => (v, rest)
                    | None => ("", data)
                    end in
  let '(p, rest) := match parseField "password" rest with
                    | Some (v, rest') => (v, rest')
                    | None => ("", rest)
                    end in
  if String.eqb rest "" then (mkCredentials u p, None)
  else (noCredentials, Some (Fresh "yaml: unmarshal errors"))
.

Definition slash : ascii := "/"%char.

(** The path up to its last slash. *)
Fixpoint Dir (path : string) : string :=
  match path with
  | EmptyString => ""
  | String c t =>
      if strings.Contains t (String slash "") then String c (Dir t)
      else ""
  end.

Definition Join (dir name : string) : string :=
  dir +:+ String slash "" +:+ name.

Definition ConfigPath (env : gmap string string) : string * option error :=
  match env !! "XDG_CONFIG_HOME" with
  | Some d => (d +:+ "/magnit-vms-cli/config.yaml", None)
  | None =>
      match env !! "HOME" with
      | Some h => (h +:+ "/.config/magnit-vms-cli/config.yaml", None)
      | None => ("", Some (Fresh "neither $XDG_CONFIG_HOME nor $HOME are defined"))
      end
  end.

Definition platform : Platform :=
  {| unicode_ToLower := ToLower;
     strconv_Quote := Quote;
     yaml_Marshal := Marshal;
     yaml_Unmarshal := Unmarshal;
     filepath_Dir := Dir;
     filepath_Join := Join;
     config_ConfigPath := ConfigPath |}.

Definition noFault : syscall -> option error := fun _ => None.

(** A fresh home directory, nothing stored, every backend working. *)
Definition freshWorld : World :=
  mkWorld {[ "HOME" := "/home/u" ]} ∅ ∅ ∅ noFault.

Definition credentialsPath : string :=
  "/home/u/.config/magnit-vms-cli/credentials.yaml".

(** The same with the override variable set. *)
Definition withOverride (value : string) (w : World) : World :=
  mkWorld (<[keyring.CredentialStoreEnvVar := value]> (environ w))
          (secrets w) (files w) (dirs w) (fault w).

(** A world whose secret service is out of order. *)
Definition keyringDown (w : World) : World :=
  mkWorld (environ w) (secrets w) (files w) (dirs w)
    (fun c => match c with
              | KeyringSet _ _ _ | KeyringGet _ _ | KeyringDelete _ _ =>
                  Some (Fresh "dbus: no secret service")
              | _ => fault w c
              end).

(** A world whose disk refuses every access. *)
Definition diskDown (w : World) : World :=
  mkWorld (environ w) (secrets w) (files w) (dirs w)
    (fun c => match c with
              | OsMkdirAll _ | OsWriteFile _ | OsReadFile _ | OsRemove _ =>
                  Some (Fresh "permission denied")
              | _ => fault w c
              end).

(** Worlds with credentials already stored. *)
Definition storedInKeyring (c : Credentials) (w : World) : World :=
  with_secrets w
    (<[(keyring.serviceName, keyring.passKey) := Password c]>
       (<[(keyring.serviceName, keyring.userKey) := Username c]> (secrets w))).

Definition storedInFile (c : Credentials) (w : World) : World :=
  with_files w
    (<[credentialsPath := mkFile (fst (Marshal c)) keyring.filePerm]> (files w)).

(** Only the username entry is in the secret service. *)
Definition halfStored (username : string) (w : World) : World :=
  with_secrets w
    (<[(keyring.serviceName, keyring.userKey) := username]> (secrets w)).

Definition alice : Credentials := mkCredentials "user@example.com" "secret".
Definition bob : Credentials := mkCredentials "env@example.com" "from-env-store".

(** A username of one space and a password of two. *)
Definition blankUser : Credentials := mkCredentials " " "secret".
Definition blankPassword : string := "  ".

(** A portal that answers every login with [page] and every "current
    user" call with success. *)
Definition portal (page : string) : auth.Portal :=
  auth.mkPortal
    (fun r => match auth.endpoint r with
              | auth.LoginEndpoint => Some (auth.mkResponse 200 page [])
              | auth.CurrentUser => Some (auth.mkResponse 200 "{}" [])
              end)
    (fun b => strings.Contains b "Invalid username / password")
    (fun b => strings.Contains b "password_login"
              || strings.Contains b "Please log in").

Definition invalidPage : string :=
  "<span class=red11>Invalid username / password</span>".
Definition loginFormPage : string :=
  "<html><body><span>Please log in to your account below</span><form><input name=password_login /></form></body></html>".

Definition freshClient : auth.Client := auth.mkClient [] [].

Definition xsrfJar : list auth.Cookie :=
  [auth.mkCookie "X-XSRF-TOKEN" auth.quotedExample "/wand"].

(** A world in which the calls picked out by [refuse] are refused. *)
Definition refusing (refuse : syscall -> bool) (w : World) : World :=
  mkWorld (environ w) (secrets w) (files w) (dirs w)
    (fun c => if refuse c then Some (Fresh "access denied") else fault w c).

Definition setsKey (key : string) (c : syscall) : bool :=
  match c with
  | KeyringSet _ k _ => String.eqb k key
  | _ => false
  end.

Definition deletesKey (key : string) (c : syscall) : bool :=
  match c with
  | KeyringDelete _ k => String.eqb k key
  | _ => false
  end.

Definition deletesAnyKey (c : syscall) : bool :=
  match c with
  | KeyringDelete _ _ => true
  | _ => false
  end.

(** A world that also holds a secret of another application and a file of
    the user's. *)
Definition foreignKey : string * string := ("other-app", "token").
Definition foreignFile : string := "/home/u/notes.txt".

(** A codec that does not read back every string: a value that begins
    with a line feed comes back without it, which is what gopkg.in/yaml.v3
    returns for such a value.  It writes what [Marshal] writes. *)
Definition lineFeed : string := String (byte_chr 10) "".

Definition dropLineFeed (s : string) : string :=
  match s with
  | String c rest => if Ascii.eqb c (byte_chr 10) then rest else s
  | EmptyString => s
  end.

Definition lossyUnmarshal (data : string) : Credentials * option error :=
  let '(c, err) := Unmarshal data in
  (mkCredentials (dropLineFeed (Username c)) (dropLineFeed (Password c)), err).

Definition lossy : Platform :=
  {| unicode_ToLower := ToLower;
     strconv_Quote := Quote;
     yaml_Marshal := Marshal;
     yaml_Unmarshal := lossyUnmarshal;
     filepath_Dir := Dir;
     filepath_Join := Join;
     config_ConfigPath := ConfigPath |}.

(** A username that begins with a line feed, and a password that is one. *)
Definition lineFeedUser : Credentials :=
  mkCredentials (lineFeed +:+ "a") "secret".
Definition lineFeedPassword : Credentials :=
  mkCredentials "user@example.com" lineFeed.

Definition crowded (w : World) : World :=
  mkWorld (environ w)
    (<[foreignKey := "t0k3n"]> (secrets w))
    (<[foreignFile := mkFile "remember the milk" (6 * 64 + 4 * 8 + 4)]> (files w))
    (dirs w) (fault w).

End fake.

(** ** Vocabulary of the statements *)

(** The text [msg] names [part]: it contains it. *)
Definition mentions (msg part : string) : Prop :=
  exists before after, msg = before +:+ part +:+ after.

(** The raw value of the override variable in a world. *)
Definition override (w : World) : string :=
  default "" (environ w !! keyring.CredentialStoreEnvVar).

(** The value [resolveStore] goes by: the trimmed override if that is not
    empty, the caller's preference otherwise. *)
Definition effective (w : World) (preferredStore : string) : string :=
  if String.eqb (strings.TrimSpace (override w)) "" then preferredStore
  else strings.TrimSpace (override w).

(** [resolveStore] settles on [kind] in [w] for the preference [pref]. *)
Definition resolves `{Platform} (w : World) (pref kind : string) : Prop :=
  fst (keyring.resolveStore pref w) = (kind, None).

(** The path of the credentials file in [w] is [path]. *)
Definition credentialsAt `{Platform} (w : World) (path : string) : Prop :=
  fst (keyring.credentialsFilePath w) = (path, None).

(** No call of the given backend fails for a reason of the backend's own. *)
Definition keyringWorks (w : World) : Prop :=
  forall c, match c with
            | KeyringSet _ _ _ | KeyringGet _ _ | KeyringDelete _ _ =>
                fault w c = None
            | _ => True
            end.

Definition diskWorks (w : World) : Prop :=
  forall c, match c with
            | OsMkdirAll _ | OsWriteFile _ | OsReadFile _ | OsRemove _ =>
                fault w c = None
            | _ => True
            end.

(** The YAML document written for [c] decodes back to [c].  This is a
    condition on the codec at one value: no codec is taken to read back
    every string it writes. *)
Definition decodesBack `{Platform} (c : Credentials) : Prop :=
  exists data, yaml_Marshal c = (data, None)
               /\ yaml_Unmarshal data = (c, None).

(** The two entries of the secret service. *)
Definition userEntry (w : World) : option string :=
  secrets w !! (keyring.serviceName, keyring.userKey).
Definition passEntry (w : World) : option string :=
  secrets w !! (keyring.serviceName, keyring.passKey).

(** No read of a backend is refused. *)
Definition readsWork (w : World) : Prop :=
  forall c, match c with
            | KeyringGet _ _ | OsReadFile _ => fault w c = None
            | _ => True
            end.

(** Every rune of [s], as a [range] loop sees them, is white space. *)
Definition whitespaceOnly (s : string) : bool :=
  forallb unicode.IsSpace (utf8.runes s).

(** The string is empty or begins with a complete encoding of a
    white-space rune. *)
Definition HeadSpace (x : string) : Prop :=
  x = "" \/ exists e rest r,
              x = e +:+ rest
              /\ utf8.DecodeRuneInString e = (r, String.length e)
              /\ unicode.IsSpace r = true.

Definition missingFields : error :=
  Fresh "credentials file is missing required fields".

(** Leading ASCII white space dropped from a list of bytes, and dropped at
    both ends. *)
Fixpoint dropSpaces (l : list ascii) : list ascii :=
  match l with
  | [] => []
  | c :: tl => if strings.asciiSpace (byte_val c) then dropSpaces tl else l
  end.

Definition asciiTrim (l : list ascii) : list ascii :=
  rev (dropSpaces (rev (dropSpaces l))).

(** Every call of the secret service is refused. *)
Definition keyringUnavailable (w : World) : Prop :=
  forall c, match c with
            | KeyringSet _ _ _ | KeyringGet _ _ | KeyringDelete _ _ =>
                fault w c <> None
            | _ => True
            end.

(** The two keys the store owns in the secret service. *)
Definition ownKey (k : string * string) : Prop :=
  k = (keyring.serviceName, keyring.userKey)
  \/ k = (keyring.serviceName, keyring.passKey).

(** The string is made of ASCII white space only. *)
Definition asciiBlank (s : string) : bool :=
  forallb (fun c => strings.asciiSpace (byte_val c)) (list_ascii_of_string s).

(** Every byte of the list is ASCII. *)
Definition asciiBytes (l : list ascii) : bool :=
  forallb (fun c => byte_val c <? utf8.RuneSelf) l.

(** * Properties *)

(** ** Strings *)

Example TrimSpace_ascii :
  strings.TrimSpace (String (byte_chr 9) "  File  ") = "File".
Proof. vm_compute. reflexivity. Qed.

(** A no-break space (C2 A0) before, an ideographic space (E3 80 80)
    after. *)
Example TrimSpace_unicode :
  strings.TrimSpace
    (String (byte_chr 0xC2) (String (byte_chr 0xA0) "a b"
       +:+ String (byte_chr 0xE3) (String (byte_chr 0x80) (String (byte_chr 0x80) " "))))
  = "a b".
Proof. vm_compute. reflexivity. Qed.

Lemma eqb_true (s t : string) : String.eqb s t = true <-> s = t.
Proof. apply String.eqb_eq. Qed.

Lemma eqb_false (s t : string) : String.eqb s t = false <-> s <> t.
Proof. apply String.eqb_neq. Qed.

Lemma append_cons (c : ascii) (s t : string) :
  String c s +:+ t = String c (s +:+ t).
Proof. reflexivity. Qed.

Lemma append_assoc (a b c : string) : (a +:+ b) +:+ c = a +:+ (b +:+ c).
Proof.
  induction a as [|x a IH]; [reflexivity |].
  rewrite !append_cons. now rewrite IH.
Qed.

(** *** [TrimSpace] on white space *)

Lemma IsSpace_ascii (b : Z) :
  0 <= b < utf8.RuneSelf -> unicode.IsSpace b = strings.asciiSpace b.
Proof.
  intros [H0 H1]. unfold unicode.IsSpace, strings.asciiSpace, unicode.MaxLatin1,
    utf8.RuneSelf in *.
  assert (Hin : ((0 <=? b) && (b <=? 255)) = true)
    by (apply andb_true_iff; lia).
  assert (H85 : (b =? 133) = false) by (apply Z.eqb_neq; lia).
  assert (HA0 : (b =? 160) = false) by (apply Z.eqb_neq; lia).
  rewrite Hin, H85, HA0. now rewrite !orb_false_r.
Qed.

Lemma byte_val_range (c : ascii) : 0 <= byte_val c < 256.
Proof.
  unfold byte_val. pose proof (N_ascii_bounded c). lia.
Qed.

Lemma Decode_ascii (c : ascii) (t : string) :
  (byte_val c <? utf8.RuneSelf) = true ->
  utf8.DecodeRuneInString (String c t) = (byte_val c, 1%nat).
Proof.
  intros H. unfold utf8.DecodeRuneInString, utf8.first.
  unfold utf8.RuneSelf in H. now rewrite H.
Qed.

Local Arguments utf8.DecodeRuneInString : simpl never.

Lemma trimLeftFrom_blank (skip : nat) (s : string) :
  forallb unicode.IsSpace (utf8.rangeFrom skip s) = true ->
  strings.trimLeftFrom unicode.IsSpace skip s = "".
Proof.
  revert skip. induction s as [|c t IH]; intros skip H; [reflexivity |].
  destruct skip as [|k]; simpl in *.
  - destruct (utf8.DecodeRuneInString (String c t)) as [r size].
    simpl in H. apply andb_true_iff in H as [Hr Ht].
    rewrite Hr. now apply IH.
  - now apply IH.
Qed.

Lemma TrimSpace_blank (s : string) :
  whitespaceOnly s = true -> strings.TrimSpace s = "".
Proof.
  unfold whitespaceOnly, utf8.runes.
  induction s as [|c t IH]; intros H; [reflexivity |].
  simpl strings.TrimSpace.
  destruct (utf8.RuneSelf <=? byte_val c) eqn:E.
  - unfold strings.TrimFunc, strings.TrimLeftFunc.
    now rewrite (trimLeftFrom_blank 0 _ H).
  - assert (Hlt : (byte_val c <? utf8.RuneSelf) = true)
      by (apply Z.ltb_lt; apply Z.leb_gt in E; exact E).
    change (utf8.rangeFrom 0 (String c t))
      with (let '(r, size) := utf8.DecodeRuneInString (String c t) in
            r :: utf8.rangeFrom (Nat.pred size) t) in H.
    rewrite (Decode_ascii c t Hlt) in H. simpl in H.
    apply andb_true_iff in H as [Hc Ht].
    rewrite IsSpace_ascii in Hc
      by (pose proof (byte_val_range c); apply Z.ltb_lt in Hlt; lia).
    rewrite Hc. now apply IH.
Qed.

Lemma trimLeftFrom_inv (skip : nat) (s : string) :
  strings.trimLeftFrom unicode.IsSpace skip s = "" ->
  forallb unicode.IsSpace (utf8.rangeFrom skip s) = true.
Proof.
  revert skip. induction s as [|c t IH]; intros skip H; [reflexivity |].
  destruct skip as [|k]; simpl in *.
  - destruct (utf8.DecodeRuneInString (String c t)) as [r size].
    destruct (unicode.IsSpace r) eqn:E; [| discriminate].
    simpl. rewrite E. now apply IH.
  - now apply IH.
Qed.

Lemma trimLeftFrom_head (skip : nat) (s : string) (c : ascii) (t : string) :
  strings.trimLeftFrom unicode.IsSpace skip s = String c t ->
  unicode.IsSpace (fst (utf8.DecodeRuneInString (String c t))) = false.
Proof.
  revert skip. induction s as [|c0 t0 IH]; intros skip H; [discriminate |].
  destruct skip as [|k]; simpl in H.
  - destruct (utf8.DecodeRuneInString (String c0 t0)) as [r size] eqn:D.
    destruct (unicode.IsSpace r) eqn:E.
    + now apply IH in H.
    + injection H as <- <-. now rewrite D.
  - now apply IH in H.
Qed.

Lemma length_append (a b : string) :
  String.length (a +:+ b) = (String.length a + String.length b)%nat.
Proof.
  induction a as [|x a IH]; [reflexivity |].
  rewrite append_cons. simpl. now rewrite IH.
Qed.

(** A decoding that ended in [RuneError] cannot be white space. *)
Ltac decode_fail D S :=
  apply (f_equal fst) in D; simpl in D; rewrite <- D in S; discriminate S.

(** A complete encoding of a white-space rune decodes the same whatever
    follows it. *)
Lemma Decode_app (e rest : string) (r : Z) :
  utf8.DecodeRuneInString e = (r, String.length e) ->
  unicode.IsSpace r = true ->
  utf8.DecodeRuneInString (e +:+ rest) = (r, String.length e).
Proof.
  intros D S.
  destruct e as [|c0 e]; [decode_fail D S |].
  rewrite append_cons. unfold utf8.DecodeRuneInString in *.
  destruct (utf8.first (byte_val c0)) as [| | sz lo hi].
  - injection D as <- D. destruct e; [reflexivity | discriminate].
  - decode_fail D S.
  - destruct (String.length (String c0 e) <? sz)%nat eqn:L; [decode_fail D S |].
    assert (L' : (String.length (String c0 (e +:+ rest)) <? sz)%nat = false).
    { apply Nat.ltb_ge. apply Nat.ltb_ge in L. simpl in *.
      rewrite length_append. lia. }
    rewrite L'.
    destruct e as [|c1 e]; [decode_fail D S |]. rewrite append_cons.
    destruct ((byte_val c1 <? lo) || (hi <? byte_val c1)); [decode_fail D S |].
    destruct (sz <=? 2)%nat eqn:S2.
    { injection D as <- D. destruct e as [|? e]; [reflexivity | discriminate]. }
    destruct e as [|c2 e]; [decode_fail D S |]. rewrite append_cons.
    destruct (negb (utf8.continuation (byte_val c2))); [decode_fail D S |].
    destruct (sz <=? 3)%nat eqn:S3.
    { injection D as <- D. destruct e as [|? e]; [reflexivity | discriminate]. }
    destruct e as [|c3 e]; [decode_fail D S |]. rewrite append_cons.
    destruct (negb (utf8.continuation (byte_val c3))); [decode_fail D S |].
    injection D as <- D. destruct e as [|? e]; [reflexivity | discriminate].
Qed.

Lemma append_nil_r (a : string) : a +:+ "" = a.
Proof.
  induction a as [|x a IH]; [reflexivity |].
  rewrite append_cons. now rewrite IH.
Qed.

Lemma string_of_list_app (l1 l2 : list ascii) :
  string_of_list_ascii (l1 ++ l2)%list
  = string_of_list_ascii l1 +:+ string_of_list_ascii l2.
Proof.
  induction l1 as [|x l1 IH]; [reflexivity |].
  simpl. rewrite append_cons. now rewrite IH.
Qed.

Lemma string_of_list_length (l : list ascii) :
  String.length (string_of_list_ascii l) = List.length l.
Proof. induction l as [|x l IH]; simpl; [reflexivity | now rewrite IH]. Qed.

Lemma Decode_size (c : ascii) (t : string) :
  (1 <= snd (utf8.DecodeRuneInString (String c t)))%nat.
Proof.
  unfold utf8.DecodeRuneInString.
  repeat match goal with
         | |- context [match ?x with _ => _ end] => destruct x; simpl; try lia
         end.
Qed.

Lemma lastCandidate_spec (rs : list ascii) :
  utf8.lastCandidate rs
  = rev (firstn (List.length (utf8.lastCandidate rs)) rs).
Proof.
  destruct rs as [|b [|b1 [|b2 [|b3 [|b4 tl]]]]]; simpl;
    repeat match goal with
           | |- context [if ?x then _ else _] => destruct x; simpl
           end; reflexivity.
Qed.

Lemma lastCandidate_nonempty (b : ascii) (tl : list ascii) :
  utf8.lastCandidate (b :: tl) <> [].
Proof.
  destruct tl as [|b1 [|b2 [|b3 [|b4 tl]]]]; simpl;
    repeat match goal with
           | |- context [if ?x then _ else _] => destruct x; simpl
           end; discriminate.
Qed.

Lemma DecodeLast_size (b : ascii) (tl : list ascii) :
  (1 <= snd (utf8.DecodeLastRune (b :: tl)))%nat.
Proof.
  unfold utf8.DecodeLastRune.
  destruct (byte_val b <? utf8.RuneSelf); [simpl; lia |].
  pose proof (lastCandidate_nonempty b tl) as Hne.
  destruct (utf8.DecodeRuneInString _) as [r size].
  destruct (size =? List.length (utf8.lastCandidate (b :: tl)))%nat eqn:E;
    simpl; [| lia].
  apply Nat.eqb_eq in E. rewrite E.
  destruct (utf8.lastCandidate (b :: tl)); [contradiction | simpl; lia].
Qed.

(** The last rune, when it is white space, is a complete encoding at the
    end of the string. *)
Lemma DecodeLast_space (pre : list ascii) (r : Z) (size : nat) :
  utf8.DecodeLastRune pre = (r, size) -> unicode.IsSpace r = true ->
  let e := string_of_list_ascii (rev (firstn size pre)) in
  utf8.DecodeRuneInString e = (r, String.length e)
  /\ String.length e = size.
Proof.
  intros D S. destruct pre as [|b tl]; [decode_fail D S |].
  unfold utf8.DecodeLastRune in D.
  destruct (byte_val b <? utf8.RuneSelf) eqn:A.
  - injection D as <- <-. simpl. split; [| reflexivity].
    now apply Decode_ascii.
  - destruct (utf8.DecodeRuneInString _) as [r' size'] eqn:D'.
    destruct (size' =? List.length (utf8.lastCandidate (b :: tl)))%nat eqn:E;
      simpl in D; [| decode_fail D S].
    injection D as <- <-. apply Nat.eqb_eq in E.
    cbv zeta. rewrite E, <- lastCandidate_spec.
    rewrite string_of_list_length, <- E. now split.
Qed.

Lemma lastIndexFrom_None (pre : list ascii) :
  forall skip suf,
    strings.lastIndexFrom unicode.IsSpace skip pre suf = None ->
    HeadSpace (string_of_list_ascii (rev (skipn skip pre))).
Proof.
  induction pre as [|b tl IH]; intros skip suf H.
  - destruct skip; now left.
  - destruct skip as [|k]; [| now apply IH in H].
    cbn [strings.lastIndexFrom] in H.
    destruct (utf8.DecodeLastRune (b :: tl)) as [r size] eqn:D.
    destruct (unicode.IsSpace r) eqn:S; [| discriminate].
    apply IH in H.
    pose proof (DecodeLast_size b tl) as Hsz. rewrite D in Hsz. simpl in Hsz.
    destruct (DecodeLast_space _ _ _ D S) as [De Hlen].
    assert (Hsplit : string_of_list_ascii (rev (skipn 0 (b :: tl)))
                     = string_of_list_ascii (rev (skipn (Nat.pred size) tl))
                       +:+ string_of_list_ascii (rev (firstn size (b :: tl)))).
    { rewrite <- string_of_list_app, <- rev_app_distr.
      replace (skipn (Nat.pred size) tl) with (skipn size (b :: tl))
        by (destruct size; [lia | reflexivity]).
      now rewrite firstn_skipn. }
    rewrite Hsplit. right.
    destruct H as [-> | (e1 & rest1 & r1 & -> & D1 & S1)].
    + eexists _, "", r. split; [| split; [exact De | exact S]].
      cbn. now rewrite append_nil_r.
    + exists e1, (rest1 +:+ string_of_list_ascii (rev (firstn size (b :: tl)))), r1.
      split; [apply append_assoc | now split].
Qed.

Lemma HeadSpace_forward (c : ascii) (t : string) :
  HeadSpace (String c t) ->
  unicode.IsSpace (fst (utf8.DecodeRuneInString (String c t))) = true.
Proof.
  intros [H | (e & rest & r & -> & D & S)]; [discriminate |].
  now rewrite (Decode_app e rest r D S).
Qed.

Lemma append_nonempty_l (a b : string) : a <> "" -> a +:+ b <> "".
Proof. destruct a; [contradiction | discriminate]. Qed.

Lemma append_nonempty_r (a b : string) : b <> "" -> a +:+ b <> "".
Proof. destruct a; [now intros | discriminate]. Qed.

Lemma lastIndexFrom_Some (pre : list ascii) :
  forall skip suf pre' suf',
    strings.lastIndexFrom unicode.IsSpace skip pre suf = Some (pre', suf') ->
    suf' <> "".
Proof.
  induction pre as [|b tl IH]; intros skip suf pre' suf' H; [discriminate |].
  destruct skip as [|k]; [| now apply IH in H].
  cbn [strings.lastIndexFrom] in H.
  pose proof (DecodeLast_size b tl) as Hsz.
  destruct (utf8.DecodeLastRune (b :: tl)) as [r size] eqn:D.
  simpl in Hsz.
  destruct (unicode.IsSpace r); [now apply IH in H |].
  injection H as <- <-. apply append_nonempty_l.
  destruct size as [|n]; [lia |]. simpl.
  rewrite string_of_list_app. apply append_nonempty_r. discriminate.
Qed.

(** [TrimRightFunc] keeps a string that begins with a rune that is not
    white space. *)
Lemma TrimRightFunc_nonempty (c : ascii) (t : string) :
  unicode.IsSpace (fst (utf8.DecodeRuneInString (String c t))) = false ->
  strings.TrimRightFunc (String c t) unicode.IsSpace <> "".
Proof.
  intros Hhead. unfold strings.TrimRightFunc.
  remember (String c t) as x eqn:Hx.
  destruct (strings.lastIndexFrom _ _ _ _) as [[pre suf] |] eqn:L.
  - apply lastIndexFrom_Some in L. apply append_nonempty_r.
    destruct suf as [|c' t']; [contradiction |].
    assert (Hw : forall wid, (1 <= wid)%nat ->
              string_of_list_ascii
                (firstn wid (list_ascii_of_string (String c' t'))) <> "").
    { intros [|n] Hn; [lia | discriminate]. }
    apply Hw. destruct (utf8.RuneSelf <=? byte_val c'); [| lia].
    apply Decode_size.
  - apply lastIndexFrom_None in L.
    change (skipn 0 (rev (list_ascii_of_string x)))
      with (rev (list_ascii_of_string x)) in L.
    rewrite rev_involutive, string_of_list_ascii_of_string in L.
    subst x. apply HeadSpace_forward in L. congruence.
Qed.

Lemma trimSpaceRight_nonempty (rs : list ascii) (c : ascii) :
  (byte_val c <? utf8.RuneSelf) = true ->
  strings.asciiSpace (byte_val c) = false ->
  strings.trimSpaceRight (rs ++ [c]) <> "".
Proof.
  intros A S.
  assert (Hhead : forall l,
            unicode.IsSpace
              (fst (utf8.DecodeRuneInString
                      (String c (string_of_list_ascii l)))) = false).
  { intros l. rewrite (Decode_ascii c _ A). simpl.
    rewrite IsSpace_ascii; [exact S |].
    pose proof (byte_val_range c). apply Z.ltb_lt in A. lia. }
  assert (Hle : (utf8.RuneSelf <=? byte_val c) = false)
    by (apply Z.leb_gt; now apply Z.ltb_lt).
  induction rs as [|b rs IH]; simpl.
  - rewrite Hle, S. discriminate.
  - destruct (utf8.RuneSelf <=? byte_val b).
    + rewrite rev_app_distr. simpl.
      apply TrimRightFunc_nonempty, Hhead.
    + destruct (strings.asciiSpace (byte_val b)); [exact IH |].
      rewrite rev_app_distr. simpl. discriminate.
Qed.

(** Conversely, what [TrimSpace] trims to nothing is white space only. *)
Lemma TrimSpace_inv (s : string) :
  strings.TrimSpace s = "" -> whitespaceOnly s = true.
Proof.
  unfold whitespaceOnly, utf8.runes.
  induction s as [|c t IH]; intros H; [reflexivity |].
  simpl strings.TrimSpace in H.
  destruct (utf8.RuneSelf <=? byte_val c) eqn:E.
  - unfold strings.TrimFunc, strings.TrimLeftFunc in H.
    destruct (strings.trimLeftFrom unicode.IsSpace 0 (String c t))
      as [|c' t'] eqn:L.
    + now apply trimLeftFrom_inv.
    + apply trimLeftFrom_head in L.
      now apply TrimRightFunc_nonempty in L.
  - assert (Hlt : (byte_val c <? utf8.RuneSelf) = true)
      by (apply Z.ltb_lt; apply Z.leb_gt in E; exact E).
    destruct (strings.asciiSpace (byte_val c)) eqn:S.
    + change (utf8.rangeFrom 0 (String c t))
        with (let '(r, size) := utf8.DecodeRuneInString (String c t) in
              r :: utf8.rangeFrom (Nat.pred size) t).
      rewrite (Decode_ascii c t Hlt). simpl.
      rewrite IsSpace_ascii
        by (pose proof (byte_val_range c); apply Z.ltb_lt in Hlt; lia).
      rewrite S. now apply IH.
    + simpl in H. now apply trimSpaceRight_nonempty in H.
Qed.

Lemma TrimSpace_blank_iff (s : string) :
  strings.TrimSpace s = "" <-> whitespaceOnly s = true.
Proof. split; [apply TrimSpace_inv | apply TrimSpace_blank]. Qed.

(** Case analysis on the innermost scrutinee of the goal. *)
Ltac innermost x :=
  lazymatch x with
  | context [match ?y with _ => _ end] => innermost y
  | _ => destruct x eqn:?
  end.

Ltac step :=
  match goal with
  | |- context [match ?x with _ => _ end] => innermost x
  end.

Ltac run := repeat (step; simpl).

Section store_properties.
Context {P : Platform}.

(** *** Validation and resolution *)

Lemma normalizeStore_cases (raw : string) :
  let v := strings.ToLower unicode_ToLower (strings.TrimSpace raw) in
  (v = "" /\ keyring.normalizeStore raw = keyring.StoreAuto)
  \/ (v <> "" /\ keyring.normalizeStore raw = v).
Proof.
  cbv zeta. unfold keyring.normalizeStore.
  destruct (String.eqb _ "") eqn:E.
  - left. now apply eqb_true in E.
  - right. now apply eqb_false in E.
Qed.

Lemma Validate_None_iff (raw : string) :
  keyring.ValidateCredentialStore raw = None <->
  (keyring.normalizeStore raw = keyring.StoreAuto
   \/ keyring.normalizeStore raw = keyring.StoreKeyring
   \/ keyring.normalizeStore raw = keyring.StoreFile).
Proof.
  unfold keyring.ValidateCredentialStore.
  destruct (String.eqb (keyring.normalizeStore raw) keyring.StoreAuto) eqn:Ea;
  destruct (String.eqb (keyring.normalizeStore raw) keyring.StoreKeyring) eqn:Ek;
  destruct (String.eqb (keyring.normalizeStore raw) keyring.StoreFile) eqn:Ef;
  simpl; rewrite ?eqb_true, ?eqb_false in *; split; intros H;
  try reflexivity; try discriminate; tauto.
Qed.

(** C8.  [ValidateCredentialStore] accepts exactly the raw inputs that,
    trimmed and lowercased, are empty, ["auto"], ["keyring"] or ["file"];
    so [""], ["AUTO"], ["auto"], ["keyring"] and ["file"] validate.
    Every other input, ["invalid-store"] among them, is rejected with an
    error whose text names the three allowed values. *)
Theorem ValidateCredentialStore_accepts_exactly :
  (forall raw : string,
     let v := strings.ToLower unicode_ToLower (strings.TrimSpace raw) in
     (keyring.ValidateCredentialStore raw = None <->
      v = "" \/ v = "auto" \/ v = "keyring" \/ v = "file")
     /\ (keyring.ValidateCredentialStore raw = None
         \/ keyring.ValidateCredentialStore raw
            = Some (keyring.invalidStoreError raw))
     /\ mentions (Error (keyring.invalidStoreError raw))
                 "allowed: auto, keyring, file")
  /\ Forall (fun raw => keyring.ValidateCredentialStore raw = None)
            [""; "AUTO"; "auto"; "keyring"; "file"]
  /\ keyring.ValidateCredentialStore "invalid-store"
     = Some (keyring.invalidStoreError "invalid-store").
Proof.
  split; [| split].
  - intros raw v. split; [| split].
    + rewrite Validate_None_iff.
      destruct (normalizeStore_cases raw) as [[Hv Hn] | [Hv Hn]];
        fold v in Hv, Hn; rewrite Hn.
      * split; [intros _; now left | intros _; now left].
      * unfold keyring.StoreAuto, keyring.StoreKeyring, keyring.StoreFile.
        split; [intros H; right; exact H | intros [H | H]; [contradiction | exact H]].
    + unfold keyring.ValidateCredentialStore.
      destruct (_ || _ || _); [now left | now right].
    + exists ("invalid credential store " +:+ strconv_Quote raw +:+ " ("), ")".
      rewrite !append_assoc. reflexivity.
  - repeat constructor.
  - reflexivity.
Qed.

(** [resolveStore] reads the world and leaves it as it is; its result is
    the normalised effective value, validated. *)
Lemma resolveStore_eq (preferredStore : string) (w : World) :
  keyring.resolveStore preferredStore w =
  (match keyring.ValidateCredentialStore
           (keyring.normalizeStore (effective w preferredStore)) with
   | Some err => ("", Some err)
   | None => (keyring.normalizeStore (effective w preferredStore), None)
   end, w).
Proof.
  unfold keyring.resolveStore, bind, os.Getenv, effective, override, ret.
  destruct (keyring.ValidateCredentialStore _); reflexivity.
Qed.

Lemma resolveStore_world (preferredStore : string) (w : World) :
  snd (keyring.resolveStore preferredStore w) = w.
Proof. now rewrite resolveStore_eq. Qed.

Lemma resolveStore_inv (preferredStore : string) (w w' : World) r :
  keyring.resolveStore preferredStore w = (r, w') ->
  w' = w /\
  ((exists store, r = (store, None)
      /\ store = keyring.normalizeStore (effective w preferredStore)
      /\ keyring.ValidateCredentialStore store = None)
   \/ (r = ("", Some (keyring.invalidStoreError
                        (keyring.normalizeStore (effective w preferredStore))))
       /\ keyring.ValidateCredentialStore
            (keyring.normalizeStore (effective w preferredStore)) <> None)).
Proof.
  rewrite resolveStore_eq. intros H. injection H as Hr Hw. split; [easy |].
  destruct (keyring.ValidateCredentialStore _) as [err |] eqn:E.
  - right. unfold keyring.ValidateCredentialStore in E.
    destruct (_ || _ || _); [discriminate |]. injection E as <-.
    now split.
  - left. eexists. split; [symmetry; exact Hr |]. now split.
Qed.

(** C5.  In every world, for every caller-supplied preference: when the
    override variable is not blank its value alone decides what
    [resolveStore] returns, and so what Save, Load and Delete do; when it
    is blank and the preference is empty the resolved kind is Auto; the
    resolved value is validated before any backend is used, and when it
    is invalid Load and Delete return the validation error and Save
    returns a validation error too (its own check of the credentials
    comes first), all three leaving the world untouched. *)
Theorem resolveStore_precedence (w : World) (creds : Credentials)
    (preferredStore : string) :
  let env := strings.TrimSpace (override w) in
  (env <> "" ->
     (keyring.ValidateCredentialStore (keyring.normalizeStore env) = None ->
      keyring.resolveStore preferredStore w
      = ((keyring.normalizeStore env, None), w))
     /\ forall other : string,
          keyring.resolveStore preferredStore w = keyring.resolveStore other w
          /\ keyring.SaveCredentialsWithStore creds preferredStore w
             = keyring.SaveCredentialsWithStore creds other w
          /\ keyring.LoadCredentialsWithStore preferredStore w
             = keyring.LoadCredentialsWithStore other w
          /\ keyring.DeleteCredentialsWithStore preferredStore w
             = keyring.DeleteCredentialsWithStore other w)
  /\ (env = "" -> preferredStore = "" ->
      keyring.resolveStore preferredStore w = ((keyring.StoreAuto, None), w))
  /\ (forall store, fst (keyring.resolveStore preferredStore w) = (store, None) ->
      keyring.ValidateCredentialStore store = None)
  /\ (forall store err,
        fst (keyring.resolveStore preferredStore w) = (store, Some err) ->
        err = keyring.invalidStoreError
                (keyring.normalizeStore (effective w preferredStore))
        /\ keyring.LoadCredentialsWithStore preferredStore w
           = ((noCredentials, Some err), w)
        /\ keyring.DeleteCredentialsWithStore preferredStore w = (Some err, w)
        /\ (exists err', keyring.SaveCredentialsWithStore creds preferredStore w
                         = (Some err', w))
        /\ (Username creds <> "" -> Password creds <> "" ->
            keyring.SaveCredentialsWithStore creds preferredStore w
            = (Some err, w))).
Proof.
  intros env. split; [| split; [| split]].
  - intros Henv.
    assert (Heff : forall p, effective w p = env).
    { intros p. unfold effective. fold env.
      apply eqb_false in Henv. now rewrite Henv. }
    split.
    + intros Hv. rewrite resolveStore_eq, Heff, Hv. reflexivity.
    + intros other.
      assert (Hres : keyring.resolveStore preferredStore w
                     = keyring.resolveStore other w)
        by now rewrite !resolveStore_eq, !Heff.
      split; [exact Hres |].
      unfold keyring.SaveCredentialsWithStore, keyring.LoadCredentialsWithStore,
        keyring.DeleteCredentialsWithStore, bind.
      rewrite Hres. split; [| split; reflexivity].
      destruct (String.eqb (Username creds) ""); [reflexivity |].
      destruct (String.eqb (Password creds) ""); [reflexivity |].
      now rewrite Hres.
  - intros Henv ->. rewrite resolveStore_eq. unfold effective. fold env.
    rewrite Henv. reflexivity.
  - intros store H. destruct (keyring.resolveStore preferredStore w) as [r w'] eqn:E.
    apply resolveStore_inv in E as [-> [(s & -> & _ & Hv) | [-> _]]];
      simpl in H; [now injection H as <- | discriminate].
  - intros store err H.
    destruct (keyring.resolveStore preferredStore w) as [r w'] eqn:E.
    pose proof E as E'.
    apply resolveStore_inv in E' as [-> [(s & -> & _ & Hv) | [-> _]]];
      simpl in H; [discriminate |]. injection H as <- <-.
    split; [reflexivity |].
    unfold keyring.SaveCredentialsWithStore, keyring.LoadCredentialsWithStore,
      keyring.DeleteCredentialsWithStore, bind. rewrite E. unfold ret.
    split; [reflexivity |]. split; [reflexivity |]. split.
    + destruct (String.eqb (Username creds) ""); [eexists; reflexivity |].
      destruct (String.eqb (Password creds) ""); [eexists; reflexivity |].
      rewrite E. eexists; reflexivity.
    + intros Hu Hp. apply eqb_false in Hu, Hp. now rewrite Hu, Hp, E.
Qed.

Lemma resolves_run (w : World) (pref kind : string) :
  resolves w pref kind -> keyring.resolveStore pref w = ((kind, None), w).
Proof.
  unfold resolves. intros H.
  destruct (keyring.resolveStore pref w) as [r w'] eqn:E.
  pose proof (resolveStore_world pref w) as Hw. rewrite E in Hw.
  simpl in *. now subst.
Qed.

(** Without an override the three kinds, as the caller writes them,
    resolve to themselves, and the empty preference to Auto. *)
Lemma resolves_literal (w : World) :
  strings.TrimSpace (override w) = "" ->
  resolves w keyring.StoreKeyring keyring.StoreKeyring
  /\ resolves w keyring.StoreFile keyring.StoreFile
  /\ resolves w keyring.StoreAuto keyring.StoreAuto
  /\ resolves w "" keyring.StoreAuto.
Proof.
  intros H. unfold resolves. rewrite !resolveStore_eq. unfold effective.
  rewrite H. repeat split; reflexivity.
Qed.

(** Dispatch on a resolved kind. *)
Lemma Save_dispatch (w : World) (creds : Credentials) (pref kind : string) :
  Username creds <> "" -> Password creds <> "" -> resolves w pref kind ->
  keyring.SaveCredentialsWithStore creds pref w =
  (if String.eqb kind keyring.StoreKeyring then keyring.saveToKeyring creds
   else if String.eqb kind keyring.StoreFile then keyring.saveToFile creds
   else if String.eqb kind keyring.StoreAuto then
     let* keyringErr := keyring.saveToKeyring creds in
     match keyringErr with
     | None => ret None
     | Some keyringErr =>
         let* fileErr := keyring.saveToFile creds in
         match fileErr with
         | Some fileErr =>
             ret (Some (keyring.bothFailed "save" keyringErr fileErr))
         | None => ret None
         end
     end
   else ret (Some (keyring.unsupportedStore kind))) w.
Proof.
  intros Hu Hp Hr. apply eqb_false in Hu, Hp. apply resolves_run in Hr.
  unfold keyring.SaveCredentialsWithStore. rewrite Hu, Hp.
  unfold bind at 1. now rewrite Hr.
Qed.

Lemma Load_dispatch (w : World) (pref kind : string) :
  resolves w pref kind ->
  keyring.LoadCredentialsWithStore pref w =
  (if String.eqb kind keyring.StoreKeyring then keyring.loadFromKeyring
   else if String.eqb kind keyring.StoreFile then keyring.loadFromFile
   else if String.eqb kind keyring.StoreAuto then
     let* (creds, err) := keyring.loadFromKeyring in
     match err with
     | None => ret (creds, None)
     | Some err =>
         let* (fileCreds, fileErr) := keyring.loadFromFile in
         match fileErr with
         | None => ret (fileCreds, None)
         | Some fileErr =>
             if errors.Is err ErrCredentialsNotFound
                && errors.Is fileErr ErrCredentialsNotFound
             then ret (noCredentials, Some (Sentinel ErrCredentialsNotFound))
             else if errors.Is err ErrCredentialsNotFound
             then ret (noCredentials, Some fileErr)
             else if errors.Is fileErr ErrCredentialsNotFound
             then ret (noCredentials, Some err)
             else ret (noCredentials,
                       Some (keyring.bothFailed "load" err fileErr))
         end
     end
   else ret (noCredentials, Some (keyring.unsupportedStore kind))) w.
Proof.
  intros Hr. apply resolves_run in Hr.
  unfold keyring.LoadCredentialsWithStore. unfold bind at 1. now rewrite Hr.
Qed.

Lemma Delete_dispatch (w : World) (pref kind : string) :
  resolves w pref kind ->
  keyring.DeleteCredentialsWithStore pref w =
  (if String.eqb kind keyring.StoreKeyring then keyring.deleteFromKeyring
   else if String.eqb kind keyring.StoreFile then keyring.deleteFromFile
   else if String.eqb kind keyring.StoreAuto then
     let* keyringErr := keyring.deleteFromKeyring in
     let* fileErr := keyring.deleteFromFile in
     match keyringErr, fileErr with
     | Some keyringErr, Some fileErr =>
         ret (Some (keyring.bothFailed "delete" keyringErr fileErr))
     | _, _ => ret None
     end
   else ret (Some (keyring.unsupportedStore kind))) w.
Proof.
  intros Hr. apply resolves_run in Hr.
  unfold keyring.DeleteCredentialsWithStore. unfold bind at 1. now rewrite Hr.
Qed.

Lemma Save_keyring (w : World) (creds : Credentials) (pref : string) :
  Username creds <> "" -> Password creds <> "" ->
  resolves w pref keyring.StoreKeyring ->
  keyring.SaveCredentialsWithStore creds pref w = keyring.saveToKeyring creds w.
Proof. intros Hu Hp Hr. now rewrite (Save_dispatch _ _ _ _ Hu Hp Hr). Qed.

Lemma Save_file (w : World) (creds : Credentials) (pref : string) :
  Username creds <> "" -> Password creds <> "" ->
  resolves w pref keyring.StoreFile ->
  keyring.SaveCredentialsWithStore creds pref w = keyring.saveToFile creds w.
Proof. intros Hu Hp Hr. now rewrite (Save_dispatch _ _ _ _ Hu Hp Hr). Qed.

Lemma Save_auto (w : World) (creds : Credentials) (pref : string) :
  Username creds <> "" -> Password creds <> "" ->
  resolves w pref keyring.StoreAuto ->
  keyring.SaveCredentialsWithStore creds pref w =
  (let '(keyringErr, w1) := keyring.saveToKeyring creds w in
   match keyringErr with
   | None => (None, w1)
   | Some keyringErr =>
       let '(fileErr, w2) := keyring.saveToFile creds w1 in
       match fileErr with
       | Some fileErr =>
           (Some (keyring.bothFailed "save" keyringErr fileErr), w2)
       | None => (None, w2)
       end
   end).
Proof.
  intros Hu Hp Hr. rewrite (Save_dispatch _ _ _ _ Hu Hp Hr).
  change (String.eqb keyring.StoreAuto keyring.StoreKeyring) with false.
  change (String.eqb keyring.StoreAuto keyring.StoreFile) with false.
  change (String.eqb keyring.StoreAuto keyring.StoreAuto) with true.
  cbv iota. unfold bind, ret.
  destruct (keyring.saveToKeyring creds w) as [[e1|] w1]; [| reflexivity].
  destruct (keyring.saveToFile creds w1) as [[e2|] w2]; reflexivity.
Qed.

Lemma Load_keyring (w : World) (pref : string) :
  resolves w pref keyring.StoreKeyring ->
  keyring.LoadCredentialsWithStore pref w = keyring.loadFromKeyring w.
Proof. intros Hr. now rewrite (Load_dispatch _ _ _ Hr). Qed.

Lemma Load_file (w : World) (pref : string) :
  resolves w pref keyring.StoreFile ->
  keyring.LoadCredentialsWithStore pref w = keyring.loadFromFile w.
Proof. intros Hr. now rewrite (Load_dispatch _ _ _ Hr). Qed.

Lemma Load_auto (w : World) (pref : string) :
  resolves w pref keyring.StoreAuto ->
  keyring.LoadCredentialsWithStore pref w =
  (let '((creds, err), w1) := keyring.loadFromKeyring w in
   match err with
   | None => ((creds, None), w1)
   | Some err =>
       let '((fileCreds, fileErr), w2) := keyring.loadFromFile w1 in
       match fileErr with
       | None => ((fileCreds, None), w2)
       | Some fileErr =>
           (if errors.Is err ErrCredentialsNotFound
               && errors.Is fileErr ErrCredentialsNotFound
            then (noCredentials, Some (Sentinel ErrCredentialsNotFound))
            else if errors.Is err ErrCredentialsNotFound
            then (noCredentials, Some fileErr)
            else if errors.Is fileErr ErrCredentialsNotFound
            then (noCredentials, Some err)
            else (noCredentials, Some (keyring.bothFailed "load" err fileErr)),
            w2)
       end
   end).
Proof.
  intros Hr. rewrite (Load_dispatch _ _ _ Hr).
  change (String.eqb keyring.StoreAuto keyring.StoreKeyring) with false.
  change (String.eqb keyring.StoreAuto keyring.StoreFile) with false.
  change (String.eqb keyring.StoreAuto keyring.StoreAuto) with true.
  cbv iota. unfold bind, ret.
  destruct (keyring.loadFromKeyring w) as [[c1 [e1|]] w1]; [| reflexivity].
  destruct (keyring.loadFromFile w1) as [[c2 [e2|]] w2]; [| reflexivity].
  destruct (errors.Is e1 ErrCredentialsNotFound),
           (errors.Is e2 ErrCredentialsNotFound); reflexivity.
Qed.

Lemma Delete_keyring (w : World) (pref : string) :
  resolves w pref keyring.StoreKeyring ->
  keyring.DeleteCredentialsWithStore pref w = keyring.deleteFromKeyring w.
Proof. intros Hr. now rewrite (Delete_dispatch _ _ _ Hr). Qed.

Lemma Delete_file (w : World) (pref : string) :
  resolves w pref keyring.StoreFile ->
  keyring.DeleteCredentialsWithStore pref w = keyring.deleteFromFile w.
Proof. intros Hr. now rewrite (Delete_dispatch _ _ _ Hr). Qed.

Lemma Delete_auto (w : World) (pref : string) :
  resolves w pref keyring.StoreAuto ->
  keyring.DeleteCredentialsWithStore pref w =
  (let '(keyringErr, w1) := keyring.deleteFromKeyring w in
   let '(fileErr, w2) := keyring.deleteFromFile w1 in
   match keyringErr, fileErr with
   | Some keyringErr, Some fileErr =>
       (Some (keyring.bothFailed "delete" keyringErr fileErr), w2)
   | _, _ => (None, w2)
   end).
Proof.
  intros Hr. rewrite (Delete_dispatch _ _ _ Hr).
  change (String.eqb keyring.StoreAuto keyring.StoreKeyring) with false.
  change (String.eqb keyring.StoreAuto keyring.StoreFile) with false.
  change (String.eqb keyring.StoreAuto keyring.StoreAuto) with true.
  cbv iota. unfold bind, ret.
  destruct (keyring.deleteFromKeyring w) as [[e1|] w1];
    destruct (keyring.deleteFromFile w1) as [[e2|] w2]; reflexivity.
Qed.

Lemma bothFailed_mentions (op : string) (e1 e2 : error) :
  mentions (Error (keyring.bothFailed op e1 e2)) (Error e1)
  /\ mentions (Error (keyring.bothFailed op e1 e2)) (Error e2)
  /\ forall target, errors.Is (keyring.bothFailed op e1 e2) target
                    = errors.Is e2 target.
Proof.
  split; [| split].
  - exists (op +:+ " credentials failed (keyring: "),
           (", file: " +:+ Error e2 +:+ ")").
    unfold keyring.bothFailed, Error at 1. now rewrite !append_assoc.
  - exists (op +:+ " credentials failed (keyring: " +:+ Error e1 +:+ ", file: "),
           ")".
    unfold keyring.bothFailed, Error at 1. now rewrite !append_assoc.
  - reflexivity.
Qed.

(** *** The two loads read and do not write *)

Lemma loadFromKeyring_world (w : World) :
  snd (keyring.loadFromKeyring w) = w.
Proof.
  unfold keyring.loadFromKeyring, bind, zk.Get, ret.
  run; reflexivity.
Qed.

Lemma loadFromFile_world (w : World) :
  snd (keyring.loadFromFile w) = w.
Proof.
  unfold keyring.loadFromFile, keyring.credentialsFilePath, bind,
    os.ReadFile, ret.
  run; reflexivity.
Qed.

(** *** The keyring backend *)

Lemma keys_differ :
  (keyring.serviceName, keyring.userKey)
  <> (keyring.serviceName, keyring.passKey).
Proof. discriminate. Qed.

Lemma saveToKeyring_frame (creds : Credentials) (w w' : World) r :
  keyring.saveToKeyring creds w = (r, w') ->
  environ w' = environ w /\ files w' = files w /\ dirs w' = dirs w
  /\ fault w' = fault w.
Proof.
  unfold keyring.saveToKeyring, bind, zk.Set_, ret. intros H.
  destruct (fault w (KeyringSet _ keyring.userKey _)); simpl in H;
    [injection H as <- <-; easy |].
  destruct (fault w (KeyringSet _ keyring.passKey _)); simpl in H;
    injection H as <- <-; easy.
Qed.

Lemma saveToKeyring_ok (creds : Credentials) (w w' : World) :
  keyring.saveToKeyring creds w = (None, w') ->
  userEntry w' = Some (Username creds) /\ passEntry w' = Some (Password creds).
Proof.
  unfold keyring.saveToKeyring, bind, zk.Set_, ret, userEntry, passEntry.
  intros H.
  destruct (fault w (KeyringSet _ keyring.userKey _)); simpl in H;
    [discriminate |].
  destruct (fault w (KeyringSet _ keyring.passKey _)); simpl in H;
    [discriminate |].
  injection H as <-. simpl. split.
  - rewrite lookup_insert_ne by (symmetry; apply keys_differ).
    apply lookup_insert_eq.
  - apply lookup_insert_eq.
Qed.

(** What [loadFromKeyring] returns when the secret service answers. *)
Lemma loadFromKeyring_answer (w : World) :
  fault w (KeyringGet keyring.serviceName keyring.userKey) = None ->
  fault w (KeyringGet keyring.serviceName keyring.passKey) = None ->
  keyring.loadFromKeyring w =
  (match userEntry w, passEntry w with
   | Some u, Some p => (mkCredentials u p, None)
   | _, _ => (noCredentials, Some (Sentinel ErrCredentialsNotFound))
   end, w).
Proof.
  intros Hu Hp.
  unfold keyring.loadFromKeyring, bind, zk.Get, ret, userEntry, passEntry.
  rewrite Hu. destruct (secrets w !! (_, keyring.userKey)); simpl;
    [| reflexivity].
  rewrite Hp. destruct (secrets w !! (_, keyring.passKey)); reflexivity.
Qed.

Lemma deleteFromKeyring_frame (w w' : World) r :
  keyring.deleteFromKeyring w = (r, w') ->
  environ w' = environ w /\ files w' = files w /\ dirs w' = dirs w
  /\ fault w' = fault w.
Proof.
  unfold keyring.deleteFromKeyring, bind, zk.Delete, ret. intros H.
  destruct (fault w (KeyringDelete _ keyring.userKey)) as [e1|];
    [| destruct (secrets w !! (_, keyring.userKey))]; simpl in H;
    (destruct (fault w (KeyringDelete _ keyring.passKey)) as [e2|];
     [| destruct (_ !! (_, keyring.passKey))]); simpl in H;
    repeat match type of H with
           | context [if ?b then _ else _] => destruct b
           end; injection H as <- <-; easy.
Qed.

(** [deleteFromKeyring] fails only when one of its two calls failed for a
    reason other than absence. *)
Lemma deleteFromKeyring_error (w w' : World) (e : error) :
  keyring.deleteFromKeyring w = (Some e, w') ->
  exists key e0,
    fault w (KeyringDelete keyring.serviceName key) = Some e0
    /\ errors.Is e0 zk.ErrNotFound = false.
Proof.
  unfold keyring.deleteFromKeyring, bind, zk.Delete, ret. intros H.
  destruct (fault w (KeyringDelete _ keyring.userKey)) as [e1|] eqn:F1;
    [| destruct (secrets w !! (_, keyring.userKey))]; simpl in H;
    (destruct (fault w (KeyringDelete _ keyring.passKey)) as [e2|] eqn:F2;
     [| destruct (_ !! (_, keyring.passKey))]); simpl in H;
    try discriminate;
    try (destruct (errors.Is e1 zk.ErrNotFound) eqn:I1; simpl in H);
    try (destruct (errors.Is e2 zk.ErrNotFound) eqn:I2; simpl in H);
    try discriminate;
    try (exists keyring.userKey, e1; split; [exact F1 | exact I1]);
    try (exists keyring.passKey, e2; split; [exact F2 | exact I2]).
Qed.

(** With a working secret service it succeeds, whatever is stored, and
    leaves neither entry behind. *)
Lemma deleteFromKeyring_works (w : World) :
  fault w (KeyringDelete keyring.serviceName keyring.userKey) = None ->
  fault w (KeyringDelete keyring.serviceName keyring.passKey) = None ->
  exists w', keyring.deleteFromKeyring w = (None, w')
             /\ userEntry w' = None /\ passEntry w' = None
             /\ (userEntry w = None -> passEntry w = None -> w' = w).
Proof.
  intros F1 F2.
  unfold keyring.deleteFromKeyring, bind, zk.Delete, ret, userEntry, passEntry.
  rewrite F1.
  destruct (secrets w !! (_, keyring.userKey)) as [u|] eqn:Eu; simpl;
    rewrite F2.
  - rewrite lookup_delete_ne by apply keys_differ.
    destruct (secrets w !! (_, keyring.passKey)) as [p|] eqn:Ep; simpl;
      eexists; (split; [reflexivity |]); simpl.
    + rewrite lookup_delete_ne by (symmetry; apply keys_differ).
      rewrite !lookup_delete_eq. now repeat split.
    + rewrite lookup_delete_eq, lookup_delete_ne by apply keys_differ.
      now repeat split.
  - destruct (secrets w !! (_, keyring.passKey)) as [p|] eqn:Ep; simpl;
      eexists; (split; [reflexivity |]); simpl.
    + rewrite lookup_delete_ne by (symmetry; apply keys_differ).
      rewrite lookup_delete_eq. now repeat split.
    + now repeat split.
Qed.

(** *** The file backend *)

Lemma credentialsFilePath_world (w : World) :
  snd (keyring.credentialsFilePath w) = w.
Proof.
  unfold keyring.credentialsFilePath.
  destruct (config_ConfigPath (environ w)) as [cfg [e|]]; reflexivity.
Qed.

Lemma credentialsAt_run (w : World) (path : string) :
  credentialsAt w path -> keyring.credentialsFilePath w = ((path, None), w).
Proof.
  unfold credentialsAt. intros H.
  pose proof (credentialsFilePath_world w) as Hw.
  destruct (keyring.credentialsFilePath w) as [r w']. simpl in *. now subst.
Qed.

Lemma credentialsFilePath_environ (w w' : World) :
  environ w' = environ w ->
  fst (keyring.credentialsFilePath w') = fst (keyring.credentialsFilePath w).
Proof.
  unfold keyring.credentialsFilePath. intros ->.
  destruct (config_ConfigPath (environ w)) as [cfg [e|]]; reflexivity.
Qed.

Lemma credentialsAt_environ (w w' : World) (path : string) :
  environ w' = environ w -> credentialsAt w path -> credentialsAt w' path.
Proof.
  unfold credentialsAt. intros H. now rewrite (credentialsFilePath_environ _ _ H).
Qed.

Lemma deleteFromFile_frame (w w' : World) r :
  keyring.deleteFromFile w = (r, w') ->
  environ w' = environ w /\ secrets w' = secrets w /\ dirs w' = dirs w
  /\ fault w' = fault w.
Proof.
  unfold keyring.deleteFromFile, bind, os.Remove, ret. intros H.
  pose proof (credentialsFilePath_world w) as Hw.
  destruct (keyring.credentialsFilePath w) as [[path [e|]] w0];
    simpl in Hw; subst w0; [injection H as <- <-; easy |].
  destruct (fault w (OsRemove path)) as [e|].
  - destruct (errors.Is e os.ErrNotExist); injection H as <- <-; easy.
  - destruct (files w !! path); simpl in H; injection H as <- <-; easy.
Qed.

(** [deleteFromFile] fails only when the path cannot be resolved or the
    removal failed for a reason other than absence. *)
Lemma deleteFromFile_error (w w' : World) (e : error) :
  keyring.deleteFromFile w = (Some e, w') ->
  (exists e0, fst (keyring.credentialsFilePath w) = ("", Some e0))
  \/ (exists path e0, credentialsAt w path
                      /\ fault w (OsRemove path) = Some e0
                      /\ errors.Is e0 os.ErrNotExist = false).
Proof.
  unfold keyring.deleteFromFile, bind, os.Remove, ret, credentialsAt.
  intros H.
  pose proof (credentialsFilePath_world w) as Hw.
  destruct (keyring.credentialsFilePath w) as [[path [e1|]] w0] eqn:Ep;
    simpl in Hw; subst w0.
  - left. exists e1. unfold keyring.credentialsFilePath in Ep.
    destruct (config_ConfigPath (environ w)) as [cfg [e2|]];
      [now injection Ep as <- <- | discriminate].
  - right. destruct (fault w (OsRemove path)) as [e1|] eqn:F.
    + destruct (errors.Is e1 os.ErrNotExist) eqn:I; [discriminate |].
      now exists path, e1.
    + destruct (files w !! path); discriminate.
Qed.

Lemma deleteFromFile_works (w : World) (path : string) :
  credentialsAt w path -> fault w (OsRemove path) = None ->
  exists w', keyring.deleteFromFile w = (None, w')
             /\ files w' !! path = None
             /\ (files w !! path = None -> w' = w).
Proof.
  intros Hp F. apply credentialsAt_run in Hp.
  unfold keyring.deleteFromFile, bind, os.Remove, ret. rewrite Hp, F.
  destruct (files w !! path) as [f|] eqn:E; simpl;
    eexists; (split; [reflexivity |]); simpl.
  - rewrite lookup_delete_eq. now split.
  - now split.
Qed.

Lemma saveToFile_frame (creds : Credentials) (w w' : World) r :
  keyring.saveToFile creds w = (r, w') ->
  environ w' = environ w /\ secrets w' = secrets w /\ fault w' = fault w.
Proof.
  unfold keyring.saveToFile, bind, os.MkdirAll, os.WriteFile, ret. intros H.
  pose proof (credentialsFilePath_world w) as Hw.
  destruct (keyring.credentialsFilePath w) as [[path [e|]] w0];
    simpl in Hw; subst w0; [injection H as <- <-; easy |].
  destruct (fault w (OsMkdirAll _)) as [e|];
    [injection H as <- <-; easy |].
  destruct (dirs w !! _); destruct (yaml_Marshal creds) as [data [e|]];
    simpl in H; try (injection H as <- <-; easy);
    destruct (fault w (OsWriteFile path)) as [e|];
    injection H as <- <-; easy.
Qed.

Lemma saveToFile_ok (creds : Credentials) (w w' : World) :
  keyring.saveToFile creds w = (None, w') ->
  exists path data,
    credentialsAt w path /\ yaml_Marshal creds = (data, None)
    /\ contents <$> files w' !! path = Some data.
Proof.
  unfold keyring.saveToFile, bind, os.MkdirAll, os.WriteFile, ret,
    credentialsAt. intros H.
  pose proof (credentialsFilePath_world w) as Hw.
  destruct (keyring.credentialsFilePath w) as [[path [e|]] w0];
    simpl in Hw; subst w0; [discriminate |].
  destruct (fault w (OsMkdirAll _)) as [e|]; [discriminate |].
  exists path.
  destruct (dirs w !! _); destruct (yaml_Marshal creds) as [data [e|]];
    simpl in H; try discriminate;
    destruct (fault w (OsWriteFile path)) as [e|]; try discriminate;
    injection H as <-; exists data; simpl;
    rewrite lookup_insert_eq; easy.
Qed.

Lemma saveToFile_works (creds : Credentials) (w : World) (path data : string) :
  credentialsAt w path ->
  fault w (OsMkdirAll (filepath_Dir path)) = None ->
  fault w (OsWriteFile path) = None ->
  yaml_Marshal creds = (data, None) ->
  exists w', keyring.saveToFile creds w = (None, w').
Proof.
  intros Hp F1 F2 Hm. apply credentialsAt_run in Hp.
  unfold keyring.saveToFile, bind, os.MkdirAll, os.WriteFile, ret.
  rewrite Hp, F1.
  destruct (dirs w !! _); rewrite Hm; simpl; rewrite F2;
    eexists; reflexivity.
Qed.

(** What [loadFromFile] returns when the path resolves and the read is
    not refused. *)
Lemma loadFromFile_answer (w : World) (path : string) :
  credentialsAt w path -> fault w (OsReadFile path) = None ->
  keyring.loadFromFile w =
  (match files w !! path with
   | None => (noCredentials, Some (Sentinel ErrCredentialsNotFound))
   | Some f =>
       match yaml_Unmarshal (contents f) with
       | (_, Some err) =>
           (noCredentials, Some (Errorf_w "parse credentials file" err))
       | (creds, None) =>
           if String.eqb (strings.TrimSpace (Username creds)) ""
              || String.eqb (Password creds) ""
           then (noCredentials, Some missingFields)
           else (creds, None)
       end
   end, w).
Proof.
  intros Hp F. apply credentialsAt_run in Hp.
  unfold keyring.loadFromFile, bind, os.ReadFile, ret. rewrite Hp, F.
  destruct (files w !! path) as [f|]; simpl; [| reflexivity].
  destruct (yaml_Unmarshal (contents f)) as [creds [e|]]; [reflexivity |].
  destruct (_ || _); reflexivity.
Qed.

(** C6.  With the store resolved to Auto and credentials that pass the
    check, Save writes to the keyring first and returns nil if that
    succeeds, the file backend being left alone; when the keyring fails
    it writes the file and returns nil if that succeeds; it returns an
    error exactly when both fail, and the text of that error names both
    underlying errors. *)
Theorem SaveCredentials_auto (w : World) (creds : Credentials) (pref : string)
    (Huser : Username creds <> "") (Hpass : Password creds <> "")
    (Hauto : resolves w pref keyring.StoreAuto) :
  let s := keyring.SaveCredentialsWithStore creds pref w in
  (forall w1,
     keyring.saveToKeyring creds w = (None, w1) ->
     s = (None, w1) /\ files w1 = files w /\ dirs w1 = dirs w)
  /\ (forall e1 w1 w2,
       keyring.saveToKeyring creds w = (Some e1, w1) ->
       keyring.saveToFile creds w1 = (None, w2) ->
       s = (None, w2))
  /\ (forall e1 w1 e2 w2,
       keyring.saveToKeyring creds w = (Some e1, w1) ->
       keyring.saveToFile creds w1 = (Some e2, w2) ->
       s = (Some (keyring.bothFailed "save" e1 e2), w2)
       /\ mentions (Error (keyring.bothFailed "save" e1 e2)) (Error e1)
       /\ mentions (Error (keyring.bothFailed "save" e1 e2)) (Error e2))
  /\ (forall e w',
       s = (Some e, w') ->
       exists e1 w1 e2,
         keyring.saveToKeyring creds w = (Some e1, w1)
         /\ keyring.saveToFile creds w1 = (Some e2, w')
         /\ e = keyring.bothFailed "save" e1 e2).
Proof.
  intros s. subst s. rewrite (Save_auto _ _ _ Huser Hpass Hauto).
  destruct (keyring.saveToKeyring creds w) as [[ek|] wk] eqn:Ek.
  - destruct (keyring.saveToFile creds wk) as [[ef|] wf] eqn:Ef.
    + split; [| split; [| split]].
      * intros w1 H. discriminate.
      * intros e1 w1 w2 H1 H2. injection H1 as <- <-.
        rewrite Ef in H2. discriminate.
      * intros e1 w1 e2 w2 H1 H2. injection H1 as <- <-.
        rewrite Ef in H2. injection H2 as <- <-.
        split; [reflexivity |]. split; apply bothFailed_mentions.
      * intros e w' H. injection H as <- <-. now exists ek, wk, ef.
    + split; [| split; [| split]].
      * intros w1 H. discriminate.
      * intros e1 w1 w2 H1 H2. injection H1 as <- <-.
        rewrite Ef in H2. now injection H2 as <-.
      * intros e1 w1 e2 w2 H1 H2. injection H1 as <- <-.
        rewrite Ef in H2. discriminate.
      * intros e w' H. discriminate.
  - split; [| split; [| split]]; try (intros; discriminate).
    intros w1 H. injection H as <-. split; [reflexivity |].
    apply saveToKeyring_frame in Ek. easy.
Qed.

(** C7.  Delete never fails for absence alone.  In keyring mode and in
    file mode an error comes only from a backend call that failed for a
    reason other than absence (or from a credentials path that cannot be
    resolved), and deleting when nothing is stored returns nil and
    changes nothing.  In Auto mode both backends are always attempted,
    the file after the keyring whatever the keyring's outcome; the result
    is an error exactly when both failed, each for such a reason, and
    that error names both. *)
Theorem DeleteCredentials_absence_is_no_error (w : World) (pref : string) :
  let d := keyring.DeleteCredentialsWithStore pref w in
  (resolves w pref keyring.StoreKeyring ->
     (forall e w', d = (Some e, w') ->
        exists key e0,
          fault w (KeyringDelete keyring.serviceName key) = Some e0
          /\ errors.Is e0 zk.ErrNotFound = false)
     /\ (keyringWorks w -> userEntry w = None -> passEntry w = None ->
         d = (None, w)))
  /\ (resolves w pref keyring.StoreFile ->
      (forall e w', d = (Some e, w') ->
         (exists e0, fst (keyring.credentialsFilePath w) = ("", Some e0))
         \/ (exists path e0, credentialsAt w path
                             /\ fault w (OsRemove path) = Some e0
                             /\ errors.Is e0 os.ErrNotExist = false))
      /\ (forall path, credentialsAt w path -> diskWorks w ->
                       files w !! path = None -> d = (None, w)))
  /\ (resolves w pref keyring.StoreAuto ->
      forall rk w1 rf w2,
        keyring.deleteFromKeyring w = (rk, w1) ->
        keyring.deleteFromFile w1 = (rf, w2) ->
        d = (match rk, rf with
             | Some ek, Some ef => Some (keyring.bothFailed "delete" ek ef)
             | _, _ => None
             end, w2)
        /\ (forall ek, rk = Some ek ->
              exists key e0,
                fault w (KeyringDelete keyring.serviceName key) = Some e0
                /\ errors.Is e0 zk.ErrNotFound = false)
        /\ (forall ef, rf = Some ef ->
              (exists e0, fst (keyring.credentialsFilePath w) = ("", Some e0))
              \/ (exists path e0, credentialsAt w path
                                  /\ fault w (OsRemove path) = Some e0
                                  /\ errors.Is e0 os.ErrNotExist = false))
        /\ (forall ek ef, rk = Some ek -> rf = Some ef ->
              mentions (Error (keyring.bothFailed "delete" ek ef)) (Error ek)
              /\ mentions (Error (keyring.bothFailed "delete" ek ef)) (Error ef))
        /\ (keyringWorks w -> userEntry w2 = None /\ passEntry w2 = None)
        /\ (forall path, credentialsAt w path -> diskWorks w ->
                         files w2 !! path = None)).
Proof.
  intros d. subst d. split; [| split].
  - intros Hr. rewrite (Delete_keyring _ _ Hr). split.
    + intros e w' H. eapply deleteFromKeyring_error; exact H.
    + intros Hk Hu Hp.
      destruct (deleteFromKeyring_works w) as (w' & Hd & _ & _ & Hsame).
      * apply (Hk (KeyringDelete _ _)).
      * apply (Hk (KeyringDelete _ _)).
      * rewrite Hd. now rewrite (Hsame Hu Hp).
  - intros Hr. rewrite (Delete_file _ _ Hr). split.
    + intros e w' H. eapply deleteFromFile_error; exact H.
    + intros path Hp Hd Habs.
      destruct (deleteFromFile_works w path Hp (Hd (OsRemove path)))
        as (w' & Hdel & _ & Hsame).
      rewrite Hdel. now rewrite (Hsame Habs).
  - intros Hr rk w1 rf w2 Hk Hf. rewrite (Delete_auto _ _ Hr), Hk, Hf.
    pose proof (deleteFromKeyring_frame _ _ _ Hk) as (Henv & Hfiles & _ & Hfault).
    pose proof (deleteFromFile_frame _ _ _ Hf) as (_ & Hsecrets & _ & _).
    split; [destruct rk, rf; reflexivity |].
    split; [intros ek ->; eapply deleteFromKeyring_error; exact Hk |].
    split.
    { intros ef ->. apply deleteFromFile_error in Hf.
      unfold credentialsAt in *.
      rewrite (credentialsFilePath_environ _ _ Henv), Hfault in Hf.
      exact Hf. }
    split; [intros ek ef _ _; split; apply bothFailed_mentions |].
    split.
    + intros Hworks.
      destruct (deleteFromKeyring_works w) as (w' & Hd & Hu & Hp & _).
      * apply (Hworks (KeyringDelete _ _)).
      * apply (Hworks (KeyringDelete _ _)).
      * rewrite Hk in Hd. injection Hd as -> ->.
        unfold userEntry, passEntry in *. now rewrite Hsecrets.
    + intros path Hp Hworks.
      assert (Hp1 : credentialsAt w1 path)
        by (eapply credentialsAt_environ; eassumption).
      destruct (deleteFromFile_works w1 path Hp1) as (w' & Hd & Hgone & _).
      * rewrite Hfault. apply (Hworks (OsRemove path)).
      * rewrite Hf in Hd. now injection Hd as -> ->.
Qed.

(** C2.  With the store resolved to Auto, Load returns what the keyring
    gave when that succeeded, without reading the file; otherwise what
    the file gave when that succeeded; when both failed: the single
    not-found error if both report not-found, the other error if exactly
    one reports not-found, and otherwise one error whose text names both
    and which wraps the file error. *)
Theorem LoadCredentials_auto (w : World) (pref : string)
    (Hauto : resolves w pref keyring.StoreAuto) :
  let l := keyring.LoadCredentialsWithStore pref w in
  let notFound e := errors.Is e ErrCredentialsNotFound in
  (forall creds,
     fst (keyring.loadFromKeyring w) = (creds, None) ->
     l = ((creds, None), w))
  /\ (forall c1 e1 creds,
       fst (keyring.loadFromKeyring w) = (c1, Some e1) ->
       fst (keyring.loadFromFile w) = (creds, None) ->
       l = ((creds, None), w))
  /\ (forall c1 e1 c2 e2,
       fst (keyring.loadFromKeyring w) = (c1, Some e1) ->
       fst (keyring.loadFromFile w) = (c2, Some e2) ->
       (notFound e1 = true -> notFound e2 = true ->
        l = ((noCredentials, Some (Sentinel ErrCredentialsNotFound)), w))
       /\ (notFound e1 = true -> notFound e2 = false ->
           l = ((noCredentials, Some e2), w))
       /\ (notFound e1 = false -> notFound e2 = true ->
           l = ((noCredentials, Some e1), w))
       /\ (notFound e1 = false -> notFound e2 = false ->
           l = ((noCredentials, Some (keyring.bothFailed "load" e1 e2)), w)
           /\ mentions (Error (keyring.bothFailed "load" e1 e2)) (Error e1)
           /\ mentions (Error (keyring.bothFailed "load" e1 e2)) (Error e2))).
Proof.
  intros l notFound. subst l.
  rewrite (Load_auto _ _ Hauto).
  pose proof (loadFromKeyring_world w) as Hk.
  pose proof (loadFromFile_world w) as Hf.
  destruct (keyring.loadFromKeyring w) as [[ck ek] wk].
  simpl in Hk. subst wk.
  destruct (keyring.loadFromFile w) as [[cf ef] wf].
  simpl in Hf. subst wf. simpl fst.
  split; [| split].
  - intros creds H. now injection H as -> ->.
  - intros c1 e1 creds H1 H2. injection H1 as -> ->. now injection H2 as -> ->.
  - intros c1 e1 c2 e2 H1 H2. injection H1 as -> ->. injection H2 as -> ->.
    subst notFound. cbv beta.
    split; [| split; [| split]]; intros -> ->; try reflexivity.
    split; [reflexivity |].
    split; apply bothFailed_mentions.
Qed.

(** *** Save, then Load *)

Lemma resolves_environ (w w' : World) (pref kind : string) :
  environ w' = environ w -> resolves w pref kind -> resolves w' pref kind.
Proof.
  unfold resolves. rewrite !resolveStore_eq. unfold effective, override.
  now intros ->.
Qed.

Lemma keyring_save_then_load (w w1 : World) (creds : Credentials) :
  (forall key, fault w (KeyringGet keyring.serviceName key) = None) ->
  keyring.saveToKeyring creds w = (None, w1) ->
  keyring.loadFromKeyring w1 = ((creds, None), w1).
Proof.
  intros Hr Hs.
  pose proof (saveToKeyring_frame _ _ _ _ Hs) as (_ & _ & _ & Hf).
  pose proof (saveToKeyring_ok _ _ _ Hs) as [Hu Hp].
  rewrite loadFromKeyring_answer, Hu, Hp.
  - now destruct creds.
  - rewrite Hf. apply Hr.
  - rewrite Hf. apply Hr.
Qed.

(** After a successful save to the file, the load finds the file and
    decodes the credentials; it then applies its own check. *)
Lemma file_save_then_load (w w1 : World) (creds : Credentials) :
  decodesBack creds -> (forall path, fault w (OsReadFile path) = None) ->
  keyring.saveToFile creds w = (None, w1) ->
  keyring.loadFromFile w1 =
  (if String.eqb (strings.TrimSpace (Username creds)) ""
      || String.eqb (Password creds) ""
   then (noCredentials, Some missingFields)
   else (creds, None), w1).
Proof.
  intros Hc Hr Hs.
  pose proof (saveToFile_frame _ _ _ _ Hs) as (Henv & _ & Hf).
  destruct (saveToFile_ok _ _ _ Hs) as (path & data & Hp & Hm & Hfile).
  destruct Hc as (data' & Hm' & Hu).
  rewrite Hm in Hm'. injection Hm' as <-.
  rewrite (loadFromFile_answer w1 path).
  - destruct (files w1 !! path) as [f|]; [| discriminate].
    simpl in Hfile. injection Hfile as ->. now rewrite Hu.
  - eapply credentialsAt_environ; eassumption.
  - rewrite Hf. apply Hr.
Qed.

(** C1, as the code has it.  For credentials with a non-empty username
    and a non-empty password, a store resolved to one of the two single
    backends, and, on the file backend, a username that is not made of
    white space only and a YAML document that decodes back to these
    credentials: after a successful Save, a Load whose reads of the
    backend are not refused returns the same credentials.  Nothing is
    said of credentials that the codec does not read back as it wrote
    them. *)
Theorem save_load_roundtrip (w w1 : World) (creds : Credentials)
    (pref kind : string)
    (Hcodec : kind = keyring.StoreFile -> decodesBack creds)
    (Hreads : readsWork w)
    (Hkind : kind = keyring.StoreKeyring \/ kind = keyring.StoreFile)
    (Hres : resolves w pref kind)
    (Huser : Username creds <> "") (Hpass : Password creds <> "")
    (Hblank : kind = keyring.StoreFile ->
              whitespaceOnly (Username creds) = false)
    (Hsave : keyring.SaveCredentialsWithStore creds pref w = (None, w1)) :
  keyring.LoadCredentialsWithStore pref w1 = ((creds, None), w1).
Proof.
  destruct Hkind as [-> | ->].
  - rewrite (Save_keyring _ _ _ Huser Hpass Hres) in Hsave.
    pose proof (saveToKeyring_frame _ _ _ _ Hsave) as (Henv & _).
    rewrite (Load_keyring w1 pref) by (eapply resolves_environ; eassumption).
    apply (keyring_save_then_load w); [| exact Hsave].
    intros key. apply (Hreads (KeyringGet _ _)).
  - rewrite (Save_file _ _ _ Huser Hpass Hres) in Hsave.
    pose proof (saveToFile_frame _ _ _ _ Hsave) as (Henv & _).
    rewrite (Load_file w1 pref) by (eapply resolves_environ; eassumption).
    rewrite (file_save_then_load w w1 creds (Hcodec eq_refl)
               (fun path => Hreads (OsReadFile path)) Hsave).
    specialize (Hblank eq_refl).
    assert (Htrim : strings.TrimSpace (Username creds) <> "")
      by (intros H; apply TrimSpace_inv in H; congruence).
    apply eqb_false in Htrim, Hpass. now rewrite Htrim, Hpass.
Qed.

(** C4, as the code has it.  With reads that are not refused.  File
    backend: Load returns [ErrCredentialsNotFound] exactly when the
    credentials file is absent, and the missing-required-fields error,
    which is not the not-found condition, when the file decodes to a
    username that is empty or white space only, or to an empty password.  Keyring backend: Load returns
    [ErrCredentialsNotFound] exactly when the username entry or the
    password entry is absent, so also when only the password entry is;
    when both entries exist they are returned as they are, there is no
    incomplete-data condition. *)
Theorem load_not_found_or_incomplete (w : World) (pref : string)
    (Hreads : readsWork w) :
  let l := keyring.LoadCredentialsWithStore pref w in
  let notFound := ((noCredentials, Some (Sentinel ErrCredentialsNotFound)), w) in
  (resolves w pref keyring.StoreFile ->
     forall path, credentialsAt w path ->
       (l = notFound <-> files w !! path = None)
       /\ (forall f creds,
             files w !! path = Some f ->
             yaml_Unmarshal (contents f) = (creds, None) ->
             whitespaceOnly (Username creds) = true \/ Password creds = "" ->
             l = ((noCredentials, Some missingFields), w)
             /\ errors.Is missingFields ErrCredentialsNotFound = false))
  /\ (resolves w pref keyring.StoreKeyring ->
      (l = notFound <-> userEntry w = None \/ passEntry w = None)
      /\ (forall u p, userEntry w = Some u -> passEntry w = Some p ->
                      l = ((mkCredentials u p, None), w))).
Proof.
  intros l notFound. subst l notFound. split.
  - intros Hr path Hp. rewrite (Load_file _ _ Hr).
    rewrite (loadFromFile_answer w path Hp (Hreads (OsReadFile path))).
    split.
    + destruct (files w !! path) as [f|]; [| easy].
      split; [| discriminate].
      destruct (yaml_Unmarshal (contents f)) as [creds [e|]];
        [discriminate |].
      destruct (_ || _); discriminate.
    + intros f creds -> -> Hmiss. split; [| reflexivity].
      destruct Hmiss as [Hu | ->].
      * now rewrite (TrimSpace_blank _ Hu).
      * now rewrite orb_true_r.
  - intros Hr. rewrite (Load_keyring _ _ Hr).
    rewrite (loadFromKeyring_answer w (Hreads (KeyringGet _ _))
               (Hreads (KeyringGet _ _))).
    split.
    + destruct (userEntry w) as [u|], (passEntry w) as [p|];
        split; intros H; try reflexivity; try discriminate;
        try (now left); try (now right).
      destruct H; discriminate.
    + intros u p -> ->. reflexivity.
Qed.

(** C10, as the code has it.  On the file backend, with a disk that
    works: credentials whose username is not empty but consists of white
    space only, and whose password is not empty, are saved successfully,
    and when the document written decodes back to them the Load that
    follows fails with the missing-required-fields error instead of
    returning them.  The password is not checked that way: credentials
    with a username that is not white space only and a password of white
    space only are returned by the Load unchanged, when the document
    written for them decodes back to them.  Nothing is said of a password
    that the codec does not read back as it wrote it. *)
Theorem whitespace_username_does_not_load (w : World) (creds : Credentials)
    (pref path : string)
    (Hdisk : diskWorks w)
    (Hres : resolves w pref keyring.StoreFile)
    (Hpath : credentialsAt w path)
    (Hnonempty : Username creds <> "")
    (Hspaces : whitespaceOnly (Username creds) = true)
    (Hpass : Password creds <> "")
    (Hcodec : decodesBack creds) :
  (exists w1,
     keyring.SaveCredentialsWithStore creds pref w = (None, w1)
     /\ keyring.LoadCredentialsWithStore pref w1
        = ((noCredentials, Some missingFields), w1))
  /\ (forall password,
        password <> "" -> whitespaceOnly password = true ->
        forall user, whitespaceOnly user = false ->
        decodesBack (mkCredentials user password) ->
        exists w1,
          keyring.SaveCredentialsWithStore (mkCredentials user password) pref w
          = (None, w1)
          /\ keyring.LoadCredentialsWithStore pref w1
             = ((mkCredentials user password, None), w1)).
Proof.
  assert (Hreads : forall path, fault w (OsReadFile path) = None)
    by (intros p; apply (Hdisk (OsReadFile p))).
  assert (Hsaves : forall c, Username c <> "" -> Password c <> "" ->
            decodesBack c ->
            exists w1, keyring.SaveCredentialsWithStore c pref w = (None, w1)
                       /\ keyring.saveToFile c w = (None, w1)
                       /\ resolves w1 pref keyring.StoreFile).
  { intros c Hu Hp (data & Hm & _).
    destruct (saveToFile_works c w path data Hpath
                (Hdisk (OsMkdirAll _)) (Hdisk (OsWriteFile _)) Hm)
      as (w1 & Hs).
    exists w1. rewrite (Save_file _ _ _ Hu Hp Hres). split; [exact Hs |].
    split; [exact Hs |].
    pose proof (saveToFile_frame _ _ _ _ Hs) as (Henv & _).
    eapply resolves_environ; eassumption. }
  split.
  - destruct (Hsaves creds Hnonempty Hpass Hcodec)
      as (w1 & Hsave & Hfile & Hres1).
    exists w1. split; [exact Hsave |].
    rewrite (Load_file _ _ Hres1).
    rewrite (file_save_then_load w w1 creds Hcodec Hreads Hfile).
    now rewrite (TrimSpace_blank _ Hspaces).
  - intros password Hne _ user Hws Hback.
    assert (Huser : strings.TrimSpace user <> "")
      by (intros H; apply TrimSpace_inv in H; congruence).
    assert (Hu : user <> "") by (intros ->; now apply Huser).
    destruct (Hsaves (mkCredentials user password) Hu Hne Hback)
      as (w1 & Hsave & Hfile & Hres1).
    exists w1. split; [exact Hsave |].
    rewrite (Load_file _ _ Hres1).
    rewrite (file_save_then_load w w1 _ Hback Hreads Hfile). simpl.
    apply eqb_false in Huser, Hne. now rewrite Huser, Hne.
Qed.

End store_properties.

(** ** The authenticator *)

Section auth_properties.

Lemma hex_byte (c : ascii) :
  auth.unhex (auth.hexDigit (byte_val c / 16)) = Some (byte_val c / 16)
  /\ auth.unhex (auth.hexDigit (byte_val c mod 16)) = Some (byte_val c mod 16)
  /\ byte_chr (16 * (byte_val c / 16) + byte_val c mod 16) = c.
Proof.
  destruct c as [[] [] [] [] [] [] [] []]; vm_compute; repeat split.
Qed.

Lemma unreserved_not_percent (c : ascii) :
  auth.unreserved c = true -> Ascii.eqb c "%"%char = false.
Proof.
  destruct (Ascii.eqb c "%"%char) eqn:E; [| reflexivity].
  apply Ascii.eqb_eq in E. subst c. vm_compute. discriminate.
Qed.

Lemma urlDecode_cons (c : ascii) (s r : string) :
  Ascii.eqb c "%"%char = false -> auth.urlDecode s = Some r ->
  auth.urlDecode (String c s) = Some (String c r).
Proof. intros Hc Hs. simpl. now rewrite Hc, Hs. Qed.

(** Decoding undoes encoding, whatever follows. *)
Lemma urlDecode_urlEncode (token rest r : string) :
  auth.urlDecode rest = Some r ->
  auth.urlDecode (auth.urlEncode token +:+ rest) = Some (token +:+ r).
Proof.
  intros Hrest. induction token as [|c t IH]; [exact Hrest |].
  simpl auth.urlEncode. destruct (auth.unreserved c) eqn:U.
  - rewrite !append_cons. apply urlDecode_cons; [| exact IH].
    now apply unreserved_not_percent.
  - rewrite !append_cons.
    destruct (hex_byte c) as (Hhi & Hlo & Hc).
    change (auth.urlDecode
              (String "%" (String (auth.hexDigit (byte_val c / 16))
                 (String (auth.hexDigit (byte_val c mod 16))
                    (auth.urlEncode t +:+ rest)))))
      with (match auth.unhex (auth.hexDigit (byte_val c / 16)),
                  auth.unhex (auth.hexDigit (byte_val c mod 16)),
                  auth.urlDecode (auth.urlEncode t +:+ rest) with
            | Some hi, Some lo, Some rest' =>
                Some (String (byte_chr (16 * hi + lo)) rest')
            | _, _, _ => None
            end).
    now rewrite Hhi, Hlo, IH, Hc.
Qed.

Lemma unsnoc_snoc (s : string) (c : ascii) :
  auth.unsnoc (s +:+ String c "") = Some (s, c).
Proof.
  induction s as [|x s IH]; [reflexivity |].
  rewrite append_cons. simpl. now rewrite IH.
Qed.

Lemma stripQuotes_quoted (s : string) :
  auth.stripQuotes (String auth.dquote (s +:+ String auth.dquote "")) = s.
Proof.
  unfold auth.stripQuotes. rewrite Ascii.eqb_refl, unsnoc_snoc.
  now rewrite Ascii.eqb_refl.
Qed.

(** C9.  [ExtractXSRFToken] URL-decodes the value of the selected
    [X-XSRF-TOKEN] cookie and strips one layer of surrounding quotes:
    from a value that is a quoted, percent-encoded token it returns the
    token.  The stored value ["tok%2Ben%2F1"], quotes included, is how
    [tok+en/1] is stored, and from a jar holding it under the path
    [/wand] the extraction yields [tok+en/1] for every mount path below
    [/wand]. *)
Theorem ExtractXSRFToken_decodes (jar : list auth.Cookie)
    (mount token : string) (c : auth.Cookie)
    (Hsel : auth.selectCookie auth.xsrfCookieName mount jar = Some c)
    (Hval : auth.Value c = auth.storedToken token) :
  auth.ExtractXSRFToken jar mount = (token, None)
  /\ auth.storedToken "tok+en/1" = auth.quotedExample
  /\ (strings.HasPrefix mount "/wand" = true ->
      auth.ExtractXSRFToken
        [auth.mkCookie "X-XSRF-TOKEN" auth.quotedExample "/wand"] mount
      = ("tok+en/1", None)).
Proof.
  assert (Hdec : forall t,
            auth.urlDecode (auth.storedToken t)
            = Some (String auth.dquote (t +:+ String auth.dquote ""))).
  { intros t. unfold auth.storedToken.
    apply urlDecode_cons; [reflexivity |].
    now apply urlDecode_urlEncode. }
  split; [| split].
  - unfold auth.ExtractXSRFToken. rewrite Hsel, Hval, Hdec.
    now rewrite stripQuotes_quoted.
  - reflexivity.
  - intros Hpre. unfold auth.ExtractXSRFToken, auth.selectCookie.
    simpl List.filter. unfold auth.inScope at 1. simpl auth.Name.
    simpl auth.Path. rewrite Hpre.
    change (String.eqb "X-XSRF-TOKEN" auth.xsrfCookieName) with true.
    simpl. reflexivity.
Qed.

(** C3.  In a login attempt whose login page carries the
    invalid-credentials marker, [Login] returns [InvalidCredentials]; in
    one whose page carries the login-form marker and not the other, it
    returns [InteractiveAuthRequired].  In both, the only request sent
    is the login submission: the "current user" endpoint is not called. *)
Theorem Login_short_circuits (p : auth.Portal) (username password : string)
    (c : auth.Client) (page : auth.Response)
    (Hpage : auth.serve p
               (auth.mkRequest auth.LoginEndpoint
                  [("username", username); ("password", password)]
                  (auth.jar c)) = Some page)
    (Hmarker : auth.invalidCredentialsMarker p (auth.body page) = true
               \/ auth.loginFormMarker p (auth.body page) = true) :
  let '(outcome, c') := auth.Login p username password c in
  outcome = (if auth.invalidCredentialsMarker p (auth.body page)
             then auth.InvalidCredentials
             else auth.InteractiveAuthRequired)
  /\ auth.requests c' = auth.LoginEndpoint :: auth.requests c
  /\ auth.currentUserCalls c c' = 0%nat.
Proof.
  unfold auth.Login, auth.roundTrip. rewrite Hpage.
  assert (Hcount : forall l, (count_occ auth.Endpoint_eq_dec
                                (auth.LoginEndpoint :: l) auth.CurrentUser
                              - count_occ auth.Endpoint_eq_dec l
                                  auth.CurrentUser)%nat = 0%nat).
  { intros l. simpl. lia. }
  destruct (auth.invalidCredentialsMarker p (auth.body page)) eqn:Ei.
  - repeat split. apply Hcount.
  - destruct Hmarker as [H | H]; [discriminate |]. rewrite H.
    repeat split. apply Hcount.
Qed.

End auth_properties.

(** ** The concrete platform at work *)

Lemma stripPrefix_app (p s : string) : fake.stripPrefix p (p +:+ s) = Some s.
Proof.
  induction p as [|c p IH]; [now destruct s |].
  rewrite append_cons. simpl. now rewrite Ascii.eqb_refl.
Qed.

Lemma readQuoted_escape (v rest : string) :
  fake.readQuoted (fake.escape v +:+ String fake.dquote rest) = Some (v, rest).
Proof.
  induction v as [|c v IH]; [reflexivity |].
  simpl fake.escape.
  destruct (Ascii.eqb c fake.dquote) eqn:Eq.
  { apply Ascii.eqb_eq in Eq. subst c. rewrite !append_cons.
    simpl. now rewrite IH. }
  destruct (Ascii.eqb c fake.backslash) eqn:Eb.
  { apply Ascii.eqb_eq in Eb. subst c. rewrite !append_cons.
    simpl. now rewrite IH. }
  destruct (Ascii.eqb c fake.newline) eqn:En.
  { apply Ascii.eqb_eq in En. subst c. rewrite !append_cons.
    simpl. now rewrite IH. }
  rewrite append_cons. simpl. now rewrite Eq, Eb, IH.
Qed.

Lemma parseField_field (key value rest : string) :
  fake.parseField key (fake.field key value rest) = Some (value, rest).
Proof.
  unfold fake.parseField, fake.field.
  rewrite stripPrefix_app, readQuoted_escape. reflexivity.
Qed.

Lemma fake_decodesBack (c : Credentials) : @decodesBack fake.platform c.
Proof.
  destruct c as [u p]. eexists. split; [reflexivity |].
  simpl. unfold fake.Unmarshal. rewrite parseField_field.
  now rewrite parseField_field.
Qed.

Lemma fake_readsWork : readsWork fake.freshWorld.
Proof. intros []; exact I || reflexivity. Qed.

Lemma fake_diskWorks : diskWorks fake.freshWorld.
Proof. intros []; exact I || reflexivity. Qed.

Lemma fake_keyringWorks : keyringWorks fake.freshWorld.
Proof. intros []; exact I || reflexivity. Qed.

(** The round trip of the test [TestFileStoreRoundTrip], the same over
    the keyring, and the same over a codec that does not read back every
    string: it reads back these credentials. *)
Lemma save_load_roundtrip_witness :
  let P := fake.platform in
  let w := fake.freshWorld in
  keyring.LoadCredentialsWithStore "file"
    (snd (keyring.SaveCredentialsWithStore fake.alice "file" w))
  = ((fake.alice, None),
     snd (keyring.SaveCredentialsWithStore fake.alice "file" w))
  /\ keyring.LoadCredentialsWithStore "keyring"
       (snd (keyring.SaveCredentialsWithStore fake.alice "keyring" w))
     = ((fake.alice, None),
        snd (keyring.SaveCredentialsWithStore fake.alice "keyring" w))
  /\ @keyring.LoadCredentialsWithStore fake.lossy "file"
       (snd (@keyring.SaveCredentialsWithStore fake.lossy fake.alice "file" w))
     = ((fake.alice, None),
        snd (@keyring.SaveCredentialsWithStore fake.lossy fake.alice "file" w)).
Proof.
  intros P w. split; [| split].
  - apply (@save_load_roundtrip P w _ fake.alice "file" "file"
             (fun _ => fake_decodesBack fake.alice) fake_readsWork).
    + right; reflexivity.
    + vm_compute; reflexivity.
    + discriminate.
    + discriminate.
    + intros _. vm_compute. reflexivity.
    + vm_compute; reflexivity.
  - apply (@save_load_roundtrip P w _ fake.alice "keyring" "keyring"
             (fun _ => fake_decodesBack fake.alice) fake_readsWork).
    + left; reflexivity.
    + vm_compute; reflexivity.
    + discriminate.
    + discriminate.
    + intros H. discriminate H.
    + vm_compute; reflexivity.
  - apply (@save_load_roundtrip fake.lossy w _ fake.alice "file" "file").
    + intros _. eexists. split; vm_compute; reflexivity.
    + exact fake_readsWork.
    + right; reflexivity.
    + vm_compute; reflexivity.
    + discriminate.
    + discriminate.
    + intros _. vm_compute. reflexivity.
    + vm_compute; reflexivity.
Defined.

(** C1 fails as stated: a username of one space is not empty, the save to
    the file succeeds, and the load returns the missing-fields error. *)
Lemma roundtrip_fails_on_blank_username :
  let P := fake.platform in
  let w := fake.freshWorld in
  let c := fake.blankUser in
  Username c <> "" /\ Password c <> ""
  /\ resolves w keyring.StoreFile keyring.StoreFile
  /\ fst (keyring.SaveCredentialsWithStore c keyring.StoreFile w) = None
  /\ fst (keyring.LoadCredentialsWithStore keyring.StoreFile
            (snd (keyring.SaveCredentialsWithStore c keyring.StoreFile w)))
     = (noCredentials, Some missingFields)
  /\ fst (keyring.LoadCredentialsWithStore keyring.StoreFile
            (snd (keyring.SaveCredentialsWithStore c keyring.StoreFile w)))
     <> (c, None).
Proof.
  intros P w c.
  split; [discriminate |]. split; [discriminate |].
  split; [vm_compute; reflexivity |].
  split; [vm_compute; reflexivity |].
  split; [vm_compute; reflexivity |].
  vm_compute. discriminate.
Qed.

(** C4 fails as stated for the keyring: with the username entry present
    and the password entry absent, Load returns the not-found condition,
    not a condition of its own. *)
Lemma keyring_without_password_is_not_found :
  let P := fake.platform in
  let w := fake.halfStored "user@example.com" fake.freshWorld in
  resolves w keyring.StoreKeyring keyring.StoreKeyring
  /\ userEntry w = Some "user@example.com"
  /\ passEntry w = None
  /\ fst (keyring.LoadCredentialsWithStore keyring.StoreKeyring w)
     = (noCredentials, Some (Sentinel ErrCredentialsNotFound)).
Proof.
  intros P w. repeat split; vm_compute; reflexivity.
Qed.

(** The round trip depends on the codec.  With a codec that loses a line
    feed at the head of a value, a username of a line feed and [a] is
    saved to the file and loaded as [a]. *)
Example roundtrip_fails_on_leading_line_feed :
  let P := fake.lossy in
  let w := fake.freshWorld in
  let c := fake.lineFeedUser in
  whitespaceOnly (Username c) = false
  /\ resolves w keyring.StoreFile keyring.StoreFile
  /\ fst (keyring.SaveCredentialsWithStore c keyring.StoreFile w) = None
  /\ fst (keyring.LoadCredentialsWithStore keyring.StoreFile
            (snd (keyring.SaveCredentialsWithStore c keyring.StoreFile w)))
     = (mkCredentials "a" "secret", None).
Proof.
  intros P w c. repeat split; vm_compute; reflexivity.
Qed.

(** C10 fails as stated, in its second half: a password of one line feed
    is white space only and not empty, the username is not white space,
    the save to the file succeeds, and with a codec that loses a line feed
    at the head of a value the load returns the missing-required-fields
    error, not the credentials. *)
Lemma line_feed_password_does_not_round_trip :
  let P := fake.lossy in
  let w := fake.freshWorld in
  let c := fake.lineFeedPassword in
  (Password c <> "" /\ whitespaceOnly (Password c) = true)
  /\ whitespaceOnly (Username c) = false
  /\ resolves w keyring.StoreFile keyring.StoreFile
  /\ fst (keyring.SaveCredentialsWithStore c keyring.StoreFile w) = None
  /\ fst (keyring.LoadCredentialsWithStore keyring.StoreFile
            (snd (keyring.SaveCredentialsWithStore c keyring.StoreFile w)))
     = (noCredentials, Some missingFields)
  /\ fst (keyring.LoadCredentialsWithStore keyring.StoreFile
            (snd (keyring.SaveCredentialsWithStore c keyring.StoreFile w)))
     <> (c, None).
Proof.
  intros P w c.
  split; [split; [discriminate | vm_compute; reflexivity] |].
  split; [vm_compute; reflexivity |].
  split; [vm_compute; reflexivity |].
  split; [vm_compute; reflexivity |].
  split; [vm_compute; reflexivity |].
  vm_compute. discriminate.
Qed.

(** Not found on an empty disk and an empty keyring; the missing-fields
    error for a file without a password; not found for a keyring without
    a password entry; a keyring with both entries is read as it is. *)
Lemma load_not_found_or_incomplete_witness :
  let P := fake.platform in
  let w := fake.freshWorld in
  let onlyUser :=
    with_files w {[ fake.credentialsPath
                    := mkFile (fake.field "username" "user@example.com" "")
                              keyring.filePerm ]} in
  let half := fake.halfStored "user@example.com" w in
  let full := fake.storedInKeyring fake.alice w in
  keyring.LoadCredentialsWithStore "file" w
  = ((noCredentials, Some (Sentinel ErrCredentialsNotFound)), w)
  /\ keyring.LoadCredentialsWithStore "file" onlyUser
     = ((noCredentials, Some missingFields), onlyUser)
  /\ keyring.LoadCredentialsWithStore "keyring" half
     = ((noCredentials, Some (Sentinel ErrCredentialsNotFound)), half)
  /\ keyring.LoadCredentialsWithStore "keyring" full = ((fake.alice, None), full).
Proof.
  intros P w onlyUser half full.
  split; [| split; [| split]].
  - apply (proj1 (@load_not_found_or_incomplete P w "file" fake_readsWork)
             ltac:(vm_compute; reflexivity) fake.credentialsPath
             ltac:(vm_compute; reflexivity)).
    vm_compute; reflexivity.
  - eapply (proj1 (@load_not_found_or_incomplete P onlyUser "file"
                     ltac:(intros []; exact I || reflexivity))
              ltac:(vm_compute; reflexivity) fake.credentialsPath
              ltac:(vm_compute; reflexivity)).
    + vm_compute; reflexivity.
    + vm_compute; reflexivity.
    + right. reflexivity.
  - apply (proj2 (@load_not_found_or_incomplete P half "keyring"
                    ltac:(intros []; exact I || reflexivity))
             ltac:(vm_compute; reflexivity)).
    right. vm_compute; reflexivity.
  - apply (proj2 (@load_not_found_or_incomplete P full "keyring"
                    ltac:(intros []; exact I || reflexivity))
             ltac:(vm_compute; reflexivity));
      vm_compute; reflexivity.
Defined.

(** Discharging a side condition by evaluation. *)
Ltac evaluated := vm_compute; first [reflexivity | discriminate].

(** Auto mode in five worlds: credentials in the keyring; keyring out of
    order and credentials in the file; nothing anywhere; keyring empty and
    disk refusing; both out of order. *)
Lemma LoadCredentials_auto_witness :
  let P := fake.platform in
  let w := fake.freshWorld in
  let inKeyring := fake.storedInKeyring fake.alice w in
  let inFile := fake.keyringDown (fake.storedInFile fake.bob w) in
  let noDisk := fake.diskDown w in
  let nothing := fake.keyringDown (fake.diskDown w) in
  let keyringErr :=
    Errorf_w "read username from keyring" (Fresh "dbus: no secret service") in
  let fileErr := Errorf_w "read credentials file" (Fresh "permission denied") in
  keyring.LoadCredentialsWithStore "" inKeyring = ((fake.alice, None), inKeyring)
  /\ keyring.LoadCredentialsWithStore "" inFile = ((fake.bob, None), inFile)
  /\ keyring.LoadCredentialsWithStore "" w
     = ((noCredentials, Some (Sentinel ErrCredentialsNotFound)), w)
  /\ keyring.LoadCredentialsWithStore "" noDisk
     = ((noCredentials, Some fileErr), noDisk)
  /\ keyring.LoadCredentialsWithStore "" nothing
     = ((noCredentials, Some (keyring.bothFailed "load" keyringErr fileErr)),
        nothing).
Proof.
  intros P w inKeyring inFile noDisk nothing keyringErr fileErr.
  split; [| split; [| split; [| split]]].
  - apply (proj1 (@LoadCredentials_auto P inKeyring "" ltac:(evaluated))).
    evaluated.
  - apply (proj1 (proj2 (@LoadCredentials_auto P inFile "" ltac:(evaluated)))
             noCredentials keyringErr); evaluated.
  - apply (proj1 (proj2 (proj2 (@LoadCredentials_auto P w "" ltac:(evaluated)))
                    noCredentials (Sentinel ErrCredentialsNotFound)
                    noCredentials (Sentinel ErrCredentialsNotFound)
                    ltac:(evaluated) ltac:(evaluated)));
      evaluated.
  - apply (proj1 (proj2 (proj2 (proj2 (@LoadCredentials_auto P noDisk ""
                                         ltac:(evaluated)))
                           noCredentials (Sentinel ErrCredentialsNotFound)
                           noCredentials fileErr
                           ltac:(evaluated) ltac:(evaluated))));
      evaluated.
  - apply (proj2 (proj2 (proj2 (proj2 (proj2 (@LoadCredentials_auto P nothing ""
                                                ltac:(evaluated)))
                                  noCredentials keyringErr noCredentials fileErr
                                  ltac:(evaluated) ltac:(evaluated)))));
      evaluated.
Defined.

(** Auto mode saving: to the keyring when it works, to the file when it
    does not, and an error naming both when neither does. *)
Lemma SaveCredentials_auto_witness :
  let P := fake.platform in
  let w := fake.freshWorld in
  let noKeyring := fake.keyringDown w in
  let nothing := fake.keyringDown (fake.diskDown w) in
  let keyringErr :=
    Errorf_w "save username to keyring" (Fresh "dbus: no secret service") in
  let fileErr := Errorf_w "create credentials dir" (Fresh "permission denied") in
  (keyring.SaveCredentialsWithStore fake.alice "" w
   = (None, snd (keyring.saveToKeyring fake.alice w))
   /\ files (snd (keyring.saveToKeyring fake.alice w)) = files w)
  /\ keyring.SaveCredentialsWithStore fake.alice "" noKeyring
     = (None, snd (keyring.saveToFile fake.alice noKeyring))
  /\ keyring.SaveCredentialsWithStore fake.alice "" nothing
     = (Some (keyring.bothFailed "save" keyringErr fileErr), nothing).
Proof.
  intros P w noKeyring nothing keyringErr fileErr.
  split; [| split].
  - pose proof (proj1 (@SaveCredentials_auto P w fake.alice ""
                         ltac:(discriminate) ltac:(discriminate)
                         ltac:(evaluated))
                  (snd (keyring.saveToKeyring fake.alice w))
                  ltac:(evaluated)) as H.
    split; apply H.
  - apply (proj1 (proj2 (@SaveCredentials_auto P noKeyring fake.alice ""
                           ltac:(discriminate) ltac:(discriminate)
                           ltac:(evaluated)))
             keyringErr noKeyring); evaluated.
  - apply (proj1 (proj2 (proj2 (@SaveCredentials_auto P nothing fake.alice ""
                                  ltac:(discriminate) ltac:(discriminate)
                                  ltac:(evaluated))))
             keyringErr nothing fileErr nothing); evaluated.
Defined.

(** The override [" File "] beats the preference ["keyring"] (as in the
    test [TestEnvOverrideForcesStore]); nothing set gives Auto; an invalid
    preference stops Load before any backend. *)
Lemma resolveStore_precedence_witness :
  let P := fake.platform in
  let w := fake.freshWorld in
  let pinned := fake.withOverride " File " w in
  keyring.resolveStore "keyring" pinned = (("file", None), pinned)
  /\ keyring.LoadCredentialsWithStore "keyring" pinned
     = keyring.LoadCredentialsWithStore "auto" pinned
  /\ keyring.resolveStore "" w = (("auto", None), w)
  /\ keyring.LoadCredentialsWithStore "invalid-store" w
     = ((noCredentials, Some (keyring.invalidStoreError "invalid-store")), w).
Proof.
  intros P w pinned.
  pose proof (@resolveStore_precedence P pinned fake.alice "keyring") as Hp.
  pose proof (@resolveStore_precedence P w fake.alice "") as Hd.
  pose proof (@resolveStore_precedence P w fake.alice "invalid-store") as Hi.
  cbv zeta in Hp, Hd, Hi.
  destruct Hp as (Hp & _). destruct Hd as (_ & Hd & _).
  destruct Hi as (_ & _ & _ & Hi).
  specialize (Hp ltac:(evaluated)). destruct Hp as (Hp1 & Hp2).
  split; [| split; [| split]].
  - apply Hp1. evaluated.
  - apply (Hp2 "auto").
  - apply Hd; evaluated.
  - apply (Hi "" (keyring.invalidStoreError "invalid-store")). evaluated.
Defined.

(** Deleting when nothing is stored (the test [TestDeleteFromFileNotFound]
    and its keyring and Auto counterparts), and Auto removing the file
    although the keyring is out of order. *)
Lemma DeleteCredentials_absence_is_no_error_witness :
  let P := fake.platform in
  let w := fake.freshWorld in
  let stale := fake.keyringDown (fake.storedInFile fake.alice w) in
  keyring.DeleteCredentialsWithStore "keyring" w = (None, w)
  /\ keyring.DeleteCredentialsWithStore "file" w = (None, w)
  /\ keyring.DeleteCredentialsWithStore "" w = (None, w)
  /\ (fst (keyring.DeleteCredentialsWithStore "" stale) = None
      /\ files (snd (keyring.DeleteCredentialsWithStore "" stale))
           !! fake.credentialsPath = None).
Proof.
  intros P w stale.
  pose proof (@DeleteCredentials_absence_is_no_error P w "keyring") as Hk.
  pose proof (@DeleteCredentials_absence_is_no_error P w "file") as Hf.
  pose proof (@DeleteCredentials_absence_is_no_error P w "") as Ha.
  pose proof (@DeleteCredentials_absence_is_no_error P stale "") as Hs.
  cbv zeta in Hk, Hf, Ha, Hs.
  destruct Hk as (Hk & _). destruct Hf as (_ & Hf & _).
  destruct Ha as (_ & _ & Ha). destruct Hs as (_ & _ & Hs).
  split; [| split; [| split]].
  - apply (proj2 (Hk ltac:(evaluated))); [apply fake_keyringWorks | |];
      evaluated.
  - apply (proj2 (Hf ltac:(evaluated)) fake.credentialsPath);
      [evaluated | apply fake_diskWorks | evaluated].
  - apply (proj1 (Ha ltac:(evaluated) None w None w
                    ltac:(evaluated) ltac:(evaluated))).
  - destruct (Hs ltac:(evaluated)
                (Some (Errorf_w "delete username from keyring"
                         (Fresh "dbus: no secret service")))
                stale None
                (snd (keyring.deleteFromFile stale))
                ltac:(evaluated) ltac:(evaluated))
      as (Hres & _ & _ & _ & _ & Hgone).
    rewrite Hres. split; [reflexivity |].
    apply (Hgone fake.credentialsPath); [evaluated |].
    intros []; exact I || reflexivity.
Defined.

(** A username of one space on the file backend; and a password of two
    spaces, which comes back. *)
Lemma whitespace_username_does_not_load_witness :
  let P := fake.platform in
  let w := fake.freshWorld in
  (exists w1,
     keyring.SaveCredentialsWithStore fake.blankUser "file" w = (None, w1)
     /\ keyring.LoadCredentialsWithStore "file" w1
        = ((noCredentials, Some missingFields), w1))
  /\ (exists w1,
        keyring.SaveCredentialsWithStore
          (mkCredentials "user@example.com" fake.blankPassword) "file" w
        = (None, w1)
        /\ keyring.LoadCredentialsWithStore "file" w1
           = ((mkCredentials "user@example.com" fake.blankPassword, None), w1)).
Proof.
  intros P w.
  pose proof (@whitespace_username_does_not_load P w fake.blankUser "file"
                fake.credentialsPath fake_diskWorks
                ltac:(evaluated) ltac:(evaluated) ltac:(discriminate)
                ltac:(evaluated) ltac:(discriminate)
                (fake_decodesBack fake.blankUser)) as [H1 H2].
  split; [exact H1 |].
  apply (H2 fake.blankPassword);
    [discriminate | evaluated | evaluated | apply fake_decodesBack].
Defined.

(** The jar of the test [TestExtractXSRFTokenFindsAndDecodesPathScopedCookie]. *)
Lemma ExtractXSRFToken_decodes_witness :
  auth.ExtractXSRFToken fake.xsrfJar "/wand/app/worker/index.html"
  = ("tok+en/1", None).
Proof.
  exact (proj1 (@ExtractXSRFToken_decodes fake.xsrfJar
                  "/wand/app/worker/index.html" "tok+en/1"
                  (auth.mkCookie "X-XSRF-TOKEN" auth.quotedExample "/wand")
                  ltac:(evaluated) ltac:(evaluated))).
Defined.

(** The two servers of the login tests. *)
Lemma Login_short_circuits_witness :
  (fst (auth.Login (fake.portal fake.invalidPage)
          "user@example.com" "bad-password" fake.freshClient)
   = auth.InvalidCredentials
   /\ auth.currentUserCalls fake.freshClient
        (snd (auth.Login (fake.portal fake.invalidPage)
                "user@example.com" "bad-password" fake.freshClient)) = 0%nat)
  /\ (fst (auth.Login (fake.portal fake.loginFormPage)
             "user@example.com" "password" fake.freshClient)
      = auth.InteractiveAuthRequired
      /\ auth.currentUserCalls fake.freshClient
           (snd (auth.Login (fake.portal fake.loginFormPage)
                   "user@example.com" "password" fake.freshClient)) = 0%nat).
Proof.
  split.
  - pose proof (@Login_short_circuits (fake.portal fake.invalidPage)
                  "user@example.com" "bad-password" fake.freshClient
                  (auth.mkResponse 200 fake.invalidPage [])
                  ltac:(reflexivity)
                  ltac:(left; evaluated)) as H.
    destruct (auth.Login _ _ _ _) as [o c']. simpl.
    destruct H as (-> & _ & ->). split; [evaluated | reflexivity].
  - pose proof (@Login_short_circuits (fake.portal fake.loginFormPage)
                  "user@example.com" "password" fake.freshClient
                  (auth.mkResponse 200 fake.loginFormPage [])
                  ltac:(reflexivity)
                  ltac:(right; evaluated)) as H.
    destruct (auth.Login _ _ _ _) as [o c']. simpl.
    destruct H as (-> & _ & ->). split; [evaluated | reflexivity].
Defined.

(** ** The tests of the store, evaluated *)

(** [TestFileStoreRoundTrip]: the credentials come back and the file has
    mode [0600]. *)
Example TestFileStoreRoundTrip :
  let P := fake.platform in
  let w := fake.withOverride "" fake.freshWorld in
  let '(err, w1) := keyring.SaveCredentialsWithStore fake.alice keyring.StoreFile w in
  err = None
  /\ fst (keyring.LoadCredentialsWithStore keyring.StoreFile w1)
     = (fake.alice, None)
  /\ mode <$> files w1 !! fake.credentialsPath = Some keyring.filePerm.
Proof. vm_compute. repeat split. Qed.

(** [TestEnvOverrideForcesStore]: with the override set to [file], Save
    and Load without a preference use the file. *)
Example TestEnvOverrideForcesStore :
  let P := fake.platform in
  let w := fake.withOverride keyring.StoreFile fake.freshWorld in
  let '(err, w1) := keyring.SaveCredentials fake.bob w in
  err = None
  /\ fst (keyring.LoadCredentials w1) = (fake.bob, None)
  /\ contents <$> files w1 !! fake.credentialsPath
     = Some (fst (fake.Marshal fake.bob))
  /\ secrets w1 = ∅.
Proof. vm_compute. repeat split. Qed.

(** White space beyond ASCII: a no-break space and an ideographic space. *)
Example whitespaceOnly_unicode :
  let s := String (byte_chr 0xC2) (String (byte_chr 0xA0)
             (String (byte_chr 0xE3) (String (byte_chr 0x80)
                (String (byte_chr 0x80) " ")))) in
  whitespaceOnly s = true /\ strings.TrimSpace s = "".
Proof. vm_compute. split; reflexivity. Qed.

(** * Further properties of the store *)

Section store_frames.
Context {P : Platform}.

Lemma Save_invalid_or_valid (w : World) (creds : Credentials) (pref : string) :
  (exists e, keyring.SaveCredentialsWithStore creds pref w = (Some e, w))
  \/ (Username creds <> "" /\ Password creds <> "").
Proof.
  unfold keyring.SaveCredentialsWithStore.
  destruct (String.eqb (Username creds) "") eqn:Eu;
    [left; eexists; reflexivity |].
  destruct (String.eqb (Password creds) "") eqn:Ep;
    [left; eexists; reflexivity |].
  right. now rewrite <- !eqb_false.
Qed.

(** What [resolveStore] returns, as a case distinction. *)
Lemma resolveStore_cases (w : World) (pref : string) :
  (exists kind, resolves w pref kind)
  \/ (exists e, keyring.resolveStore pref w = (("", Some e), w)).
Proof.
  unfold resolves. rewrite resolveStore_eq.
  destruct (keyring.ValidateCredentialStore _) as [e|];
    [right; now exists e | left; eexists; reflexivity].
Qed.

Lemma kind_cases (kind : string) :
  kind = keyring.StoreKeyring \/ kind = keyring.StoreFile
  \/ kind = keyring.StoreAuto
  \/ (String.eqb kind keyring.StoreKeyring = false
      /\ String.eqb kind keyring.StoreFile = false
      /\ String.eqb kind keyring.StoreAuto = false).
Proof.
  destruct (String.eqb kind keyring.StoreKeyring) eqn:E1;
    [left; now apply eqb_true |].
  destruct (String.eqb kind keyring.StoreFile) eqn:E2;
    [right; left; now apply eqb_true |].
  destruct (String.eqb kind keyring.StoreAuto) eqn:E3;
    [right; right; left; now apply eqb_true |].
  now right; right; right.
Qed.

(** X1.  Load only reads: whatever the preference, the override and the
    state of the backends, and whether it succeeds or fails, it returns
    the world it was given. *)
Theorem Load_changes_nothing (w : World) (pref : string) :
  snd (keyring.LoadCredentialsWithStore pref w) = w
  /\ snd (keyring.LoadCredentials w) = w.
Proof.
  assert (H : forall p, snd (keyring.LoadCredentialsWithStore p w) = w).
  { intros p. destruct (resolveStore_cases w p) as [[kind Hr] | [e He]].
    - destruct (kind_cases kind) as [-> | [-> | [-> | (E1 & E2 & E3)]]].
      + rewrite (Load_keyring _ _ Hr). apply loadFromKeyring_world.
      + rewrite (Load_file _ _ Hr). apply loadFromFile_world.
      + rewrite (Load_auto _ _ Hr).
        pose proof (loadFromKeyring_world w) as Hk.
        destruct (keyring.loadFromKeyring w) as [[c1 [e1|]] w1];
          simpl in Hk; subst w1; [| reflexivity].
        pose proof (loadFromFile_world w) as Hf.
        destruct (keyring.loadFromFile w) as [[c2 [e2|]] w2];
          simpl in Hf; subst w2; reflexivity.
      + rewrite (Load_dispatch _ _ _ Hr), E1, E2, E3. reflexivity.
    - unfold keyring.LoadCredentialsWithStore, bind. now rewrite He. }
  split; [apply H | apply (H "")].
Qed.

(** Every operation leaves the environment and the faults as they are. *)
Lemma Save_environ (w : World) (creds : Credentials) (pref : string) :
  environ (snd (keyring.SaveCredentialsWithStore creds pref w)) = environ w
  /\ fault (snd (keyring.SaveCredentialsWithStore creds pref w)) = fault w.
Proof.
  destruct (Save_invalid_or_valid w creds pref) as [[e He] | [Hu Hp]];
    [now rewrite He |].
  destruct (resolveStore_cases w pref) as [[kind Hr] | [e He]].
  - destruct (kind_cases kind) as [-> | [-> | [-> | (E1 & E2 & E3)]]].
    + rewrite (Save_keyring _ _ _ Hu Hp Hr).
      destruct (keyring.saveToKeyring creds w) as [r w1] eqn:E.
      apply saveToKeyring_frame in E. simpl. easy.
    + rewrite (Save_file _ _ _ Hu Hp Hr).
      destruct (keyring.saveToFile creds w) as [r w1] eqn:E.
      apply saveToFile_frame in E. simpl. easy.
    + rewrite (Save_auto _ _ _ Hu Hp Hr).
      destruct (keyring.saveToKeyring creds w) as [[e1|] w1] eqn:E1;
        pose proof (saveToKeyring_frame _ _ _ _ E1) as (H1 & _ & _ & H2);
        [| simpl; easy].
      destruct (keyring.saveToFile creds w1) as [[e2|] w2] eqn:E2;
        pose proof (saveToFile_frame _ _ _ _ E2) as (H3 & _ & H4);
        simpl; split; congruence.
    + rewrite (Save_dispatch _ _ _ _ Hu Hp Hr), E1, E2, E3. easy.
  - apply eqb_false in Hu, Hp.
    unfold keyring.SaveCredentialsWithStore, bind. now rewrite Hu, Hp, He.
Qed.

Lemma Delete_environ (w : World) (pref : string) :
  environ (snd (keyring.DeleteCredentialsWithStore pref w)) = environ w
  /\ fault (snd (keyring.DeleteCredentialsWithStore pref w)) = fault w.
Proof.
  destruct (resolveStore_cases w pref) as [[kind Hr] | [e He]].
  - destruct (kind_cases kind) as [-> | [-> | [-> | (E1 & E2 & E3)]]].
    + rewrite (Delete_keyring _ _ Hr).
      destruct (keyring.deleteFromKeyring w) as [r w1] eqn:E.
      apply deleteFromKeyring_frame in E. simpl. easy.
    + rewrite (Delete_file _ _ Hr).
      destruct (keyring.deleteFromFile w) as [r w1] eqn:E.
      apply deleteFromFile_frame in E. simpl. easy.
    + rewrite (Delete_auto _ _ Hr).
      destruct (keyring.deleteFromKeyring w) as [r1 w1] eqn:E1.
      pose proof (deleteFromKeyring_frame _ _ _ E1) as (H1 & _ & _ & H2).
      destruct (keyring.deleteFromFile w1) as [r2 w2] eqn:E2.
      pose proof (deleteFromFile_frame _ _ _ E2) as (H3 & _ & _ & H4).
      destruct r1, r2; simpl; split; congruence.
    + rewrite (Delete_dispatch _ _ _ Hr), E1, E2, E3. easy.
  - unfold keyring.DeleteCredentialsWithStore, bind. now rewrite He.
Qed.

(** X2.  No operation writes the environment.  Save and Delete on the
    keyring backend leave every file and directory as it is; Save and
    Delete on the file backend leave the secret service as it is.  This
    holds whether the operation succeeds or fails. *)
Theorem backends_are_kept_apart (w : World) (creds : Credentials)
    (pref : string) :
  let saved := snd (keyring.SaveCredentialsWithStore creds pref w) in
  let deleted := snd (keyring.DeleteCredentialsWithStore pref w) in
  environ saved = environ w /\ environ deleted = environ w
  /\ (resolves w pref keyring.StoreKeyring ->
      files saved = files w /\ dirs saved = dirs w
      /\ files deleted = files w /\ dirs deleted = dirs w)
  /\ (resolves w pref keyring.StoreFile ->
      secrets saved = secrets w /\ secrets deleted = secrets w).
Proof.
  intros saved deleted. subst saved deleted.
  split; [apply Save_environ |]. split; [apply Delete_environ |].
  split; intros Hr.
  - rewrite (Delete_keyring _ _ Hr).
    destruct (keyring.deleteFromKeyring w) as [rd wd] eqn:Ed.
    apply deleteFromKeyring_frame in Ed as (_ & Hf & Hd & _).
    destruct (Save_invalid_or_valid w creds pref) as [[e He] | [Hu Hp]];
      [rewrite He; easy |].
    rewrite (Save_keyring _ _ _ Hu Hp Hr).
    destruct (keyring.saveToKeyring creds w) as [rs ws] eqn:Es.
    apply saveToKeyring_frame in Es as (_ & Hf' & Hd' & _). easy.
  - rewrite (Delete_file _ _ Hr).
    destruct (keyring.deleteFromFile w) as [rd wd] eqn:Ed.
    apply deleteFromFile_frame in Ed as (_ & Hs & _ & _).
    destruct (Save_invalid_or_valid w creds pref) as [[e He] | [Hu Hp]];
      [rewrite He; easy |].
    rewrite (Save_file _ _ _ Hu Hp Hr).
    destruct (keyring.saveToFile creds w) as [rs ws] eqn:Es.
    apply saveToFile_frame in Es as (_ & Hs' & _). easy.
Qed.

End store_frames.

Section store_footprint.
Context {P : Platform}.

Lemma not_ownKey (k : string * string) :
  ~ ownKey k ->
  (keyring.serviceName, keyring.userKey) <> k
  /\ (keyring.serviceName, keyring.passKey) <> k.
Proof. unfold ownKey. intros H. split; intros <-; apply H; auto. Qed.

Lemma saveToKeyring_others (creds : Credentials) (w w' : World) r :
  keyring.saveToKeyring creds w = (r, w') ->
  forall k, ~ ownKey k -> secrets w' !! k = secrets w !! k.
Proof.
  unfold keyring.saveToKeyring, bind, zk.Set_, ret. intros H k Hk.
  apply not_ownKey in Hk as [Hu Hp].
  destruct (fault w (KeyringSet _ keyring.userKey _)); simpl in H;
    [now injection H as <- <- |].
  destruct (fault w (KeyringSet _ keyring.passKey _)); simpl in H;
    injection H as <- <-; simpl.
  - now rewrite lookup_insert_ne.
  - now rewrite !lookup_insert_ne.
Qed.

Lemma deleteFromKeyring_others (w w' : World) r :
  keyring.deleteFromKeyring w = (r, w') ->
  forall k, ~ ownKey k -> secrets w' !! k = secrets w !! k.
Proof.
  unfold keyring.deleteFromKeyring, bind, zk.Delete, ret. intros H k Hk.
  apply not_ownKey in Hk as [Hu Hp].
  destruct (fault w (KeyringDelete _ keyring.userKey)) as [e1|];
    [| destruct (secrets w !! (_, keyring.userKey))]; simpl in H;
    (destruct (fault w (KeyringDelete _ keyring.passKey)) as [e2|];
     [| destruct (_ !! (_, keyring.passKey))]); simpl in H;
    repeat match type of H with
           | context [if ?b then _ else _] => destruct b
           end; injection H as <- <-; simpl;
    rewrite ?lookup_delete_ne by assumption; reflexivity.
Qed.

Lemma credentialsAt_unique (w : World) (p q : string) :
  credentialsAt w p -> credentialsAt w q -> p = q.
Proof. unfold credentialsAt. intros -> H. now injection H. Qed.

Lemma saveToFile_others (creds : Credentials) (w w' : World) r :
  keyring.saveToFile creds w = (r, w') ->
  forall other, ~ credentialsAt w other -> files w' !! other = files w !! other.
Proof.
  unfold keyring.saveToFile, bind, os.MkdirAll, os.WriteFile, ret.
  intros H other Ho.
  pose proof (credentialsFilePath_world w) as Hw.
  destruct (keyring.credentialsFilePath w) as [[path [e|]] w0] eqn:Ep;
    simpl in Hw; subst w0; [now injection H as <- <- |].
  assert (Hne : path <> other).
  { intros <-. apply Ho. unfold credentialsAt. now rewrite Ep. }
  destruct (fault w (OsMkdirAll _)) as [e|]; [now injection H as <- <- |].
  destruct (dirs w !! _); destruct (yaml_Marshal creds) as [data [e|]];
    simpl in H; try (now injection H as <- <-);
    destruct (fault w (OsWriteFile path)) as [e|];
    injection H as <- <-; simpl; try reflexivity;
    now rewrite lookup_insert_ne.
Qed.

Lemma deleteFromFile_others (w w' : World) r :
  keyring.deleteFromFile w = (r, w') ->
  forall other, ~ credentialsAt w other -> files w' !! other = files w !! other.
Proof.
  unfold keyring.deleteFromFile, bind, os.Remove, ret. intros H other Ho.
  pose proof (credentialsFilePath_world w) as Hw.
  destruct (keyring.credentialsFilePath w) as [[path [e|]] w0] eqn:Ep;
    simpl in Hw; subst w0; [now injection H as <- <- |].
  assert (Hne : path <> other).
  { intros <-. apply Ho. unfold credentialsAt. now rewrite Ep. }
  destruct (fault w (OsRemove path)) as [e|].
  - destruct (errors.Is e os.ErrNotExist); now injection H as <- <-.
  - destruct (files w !! path); simpl in H; injection H as <- <-;
      simpl; [now rewrite lookup_delete_ne | reflexivity].
Qed.

Lemma not_credentialsAt_environ (w w' : World) (other : string) :
  environ w' = environ w -> ~ credentialsAt w other -> ~ credentialsAt w' other.
Proof.
  intros He Ho H. apply Ho. eapply credentialsAt_environ; [| exact H].
  now symmetry.
Qed.

(** X3.  In every mode, whatever the outcome, Save and Delete touch
    nothing but the store's own objects: an entry of the secret service
    other than the two the store owns, and a file other than the
    credentials file, is after the operation what it was before. *)
Theorem operations_touch_only_their_own (w : World) (creds : Credentials)
    (pref : string) (k : string * string) (other : string)
    (Hk : ~ ownKey k) (Hother : ~ credentialsAt w other) :
  let saved := snd (keyring.SaveCredentialsWithStore creds pref w) in
  let deleted := snd (keyring.DeleteCredentialsWithStore pref w) in
  secrets saved !! k = secrets w !! k
  /\ files saved !! other = files w !! other
  /\ secrets deleted !! k = secrets w !! k
  /\ files deleted !! other = files w !! other.
Proof.
  intros saved deleted. subst saved deleted.
  assert (HS : secrets (snd (keyring.SaveCredentialsWithStore creds pref w)) !! k
               = secrets w !! k
               /\ files (snd (keyring.SaveCredentialsWithStore creds pref w))
                    !! other = files w !! other).
  { destruct (Save_invalid_or_valid w creds pref) as [[e He] | [Hu Hp]];
      [now rewrite He |].
    destruct (resolveStore_cases w pref) as [[kind Hr] | [e He]].
    - destruct (kind_cases kind) as [-> | [-> | [-> | (E1 & E2 & E3)]]].
      + rewrite (Save_keyring _ _ _ Hu Hp Hr).
        destruct (keyring.saveToKeyring creds w) as [r w1] eqn:E. simpl.
        pose proof (saveToKeyring_frame _ _ _ _ E) as (_ & Hf & _).
        rewrite Hf. split; [| reflexivity].
        eapply saveToKeyring_others; eassumption.
      + rewrite (Save_file _ _ _ Hu Hp Hr).
        destruct (keyring.saveToFile creds w) as [r w1] eqn:E. simpl.
        pose proof (saveToFile_frame _ _ _ _ E) as (_ & Hs & _).
        rewrite Hs. split; [reflexivity |].
        eapply saveToFile_others; eassumption.
      + rewrite (Save_auto _ _ _ Hu Hp Hr).
        destruct (keyring.saveToKeyring creds w) as [r1 w1] eqn:E1.
        pose proof (saveToKeyring_frame _ _ _ _ E1) as (He1 & Hf1 & _).
        pose proof (saveToKeyring_others _ _ _ _ E1 k Hk) as Hk1.
        destruct r1 as [e1|]; [| simpl; now rewrite Hf1].
        destruct (keyring.saveToFile creds w1) as [r2 w2] eqn:E2.
        pose proof (saveToFile_frame _ _ _ _ E2) as (_ & Hs2 & _).
        pose proof (saveToFile_others _ _ _ _ E2 other
                      (not_credentialsAt_environ _ _ _ He1 Hother)) as Ho2.
        destruct r2; simpl; rewrite Hs2, Ho2, Hf1; now split.
      + rewrite (Save_dispatch _ _ _ _ Hu Hp Hr), E1, E2, E3. easy.
    - apply eqb_false in Hu, Hp.
      unfold keyring.SaveCredentialsWithStore, bind. now rewrite Hu, Hp, He. }
  destruct HS as [HS1 HS2]. split; [exact HS1 |]. split; [exact HS2 |].
  destruct (resolveStore_cases w pref) as [[kind Hr] | [e He]].
  - destruct (kind_cases kind) as [-> | [-> | [-> | (E1 & E2 & E3)]]].
    + rewrite (Delete_keyring _ _ Hr).
      destruct (keyring.deleteFromKeyring w) as [r w1] eqn:E. simpl.
      pose proof (deleteFromKeyring_frame _ _ _ E) as (_ & Hf & _).
      rewrite Hf. split; [| reflexivity].
      eapply deleteFromKeyring_others; eassumption.
    + rewrite (Delete_file _ _ Hr).
      destruct (keyring.deleteFromFile w) as [r w1] eqn:E. simpl.
      pose proof (deleteFromFile_frame _ _ _ E) as (_ & Hs & _).
      rewrite Hs. split; [reflexivity |].
      eapply deleteFromFile_others; eassumption.
    + rewrite (Delete_auto _ _ Hr).
      destruct (keyring.deleteFromKeyring w) as [r1 w1] eqn:E1.
      pose proof (deleteFromKeyring_frame _ _ _ E1) as (He1 & Hf1 & _).
      pose proof (deleteFromKeyring_others _ _ _ E1 k Hk) as Hk1.
      destruct (keyring.deleteFromFile w1) as [r2 w2] eqn:E2.
      pose proof (deleteFromFile_frame _ _ _ E2) as (_ & Hs2 & _).
      pose proof (deleteFromFile_others _ _ _ E2 other
                    (not_credentialsAt_environ _ _ _ He1 Hother)) as Ho2.
      destruct r1, r2; simpl; rewrite Hs2, Ho2, Hf1; now split.
    + rewrite (Delete_dispatch _ _ _ Hr), E1, E2, E3. easy.
  - unfold keyring.DeleteCredentialsWithStore, bind. now rewrite He.
Qed.

Lemma saveToFile_exact (creds : Credentials) (w w' : World) :
  keyring.saveToFile creds w = (None, w') ->
  exists path data,
    credentialsAt w path /\ yaml_Marshal creds = (data, None)
    /\ files w' !! path
       = Some (mkFile data (match files w !! path with
                            | Some f => mode f
                            | None => keyring.filePerm
                            end))
    /\ is_Some (dirs w' !! filepath_Dir path).
Proof.
  unfold keyring.saveToFile, bind, os.MkdirAll, os.WriteFile, ret,
    credentialsAt. intros H.
  pose proof (credentialsFilePath_world w) as Hw.
  destruct (keyring.credentialsFilePath w) as [[path [e|]] w0];
    simpl in Hw; subst w0; [discriminate |].
  destruct (fault w (OsMkdirAll _)) as [e|]; [discriminate |].
  exists path.
  destruct (dirs w !! filepath_Dir path) eqn:Ed;
    destruct (yaml_Marshal creds) as [data [e|]];
    simpl in H; try discriminate;
    destruct (fault w (OsWriteFile path)) as [e|]; try discriminate;
    injection H as <-; exists data; simpl;
    rewrite lookup_insert_eq; repeat split; try reflexivity.
  - rewrite Ed. eauto.
  - rewrite lookup_insert_eq. eauto.
Qed.

(** X4.  A successful Save on the file backend leaves at the credentials
    path exactly the document the codec produced for the credentials.  A
    file it creates has mode [0600]; a file that was already there keeps
    the mode it had.  The directory of the file exists afterwards. *)
Theorem Save_file_writes_document (w w1 : World) (creds : Credentials)
    (pref : string)
    (Hres : resolves w pref keyring.StoreFile)
    (Hsave : keyring.SaveCredentialsWithStore creds pref w = (None, w1)) :
  exists path data,
    credentialsAt w path /\ yaml_Marshal creds = (data, None)
    /\ contents <$> files w1 !! path = Some data
    /\ (files w !! path = None ->
        mode <$> files w1 !! path = Some keyring.filePerm)
    /\ (forall f, files w !! path = Some f ->
                  mode <$> files w1 !! path = Some (mode f))
    /\ is_Some (dirs w1 !! filepath_Dir path).
Proof.
  destruct (Save_invalid_or_valid w creds pref) as [[e He] | [Hu Hp]];
    [rewrite He in Hsave; discriminate |].
  rewrite (Save_file _ _ _ Hu Hp Hres) in Hsave.
  destruct (saveToFile_exact _ _ _ Hsave) as (path & data & Hp' & Hm & Hf & Hd).
  exists path, data. rewrite Hf. simpl.
  repeat split; try assumption.
  - now intros ->.
  - now intros f ->.
Qed.

End store_footprint.

Section store_compositions.
Context {P : Platform}.

Lemma saveToKeyring_works (creds : Credentials) (w : World) :
  fault w (KeyringSet keyring.serviceName keyring.userKey (Username creds)) = None ->
  fault w (KeyringSet keyring.serviceName keyring.passKey (Password creds)) = None ->
  exists w1, keyring.saveToKeyring creds w = (None, w1).
Proof.
  intros F1 F2. unfold keyring.saveToKeyring, bind, zk.Set_, ret.
  rewrite F1. simpl. rewrite F2. eexists; reflexivity.
Qed.

Lemma loadFromKeyring_absent (w : World) :
  (forall key, fault w (KeyringGet keyring.serviceName key) = None) ->
  userEntry w = None \/ passEntry w = None ->
  keyring.loadFromKeyring w
  = ((noCredentials, Some (Sentinel ErrCredentialsNotFound)), w).
Proof.
  intros Hg H. rewrite loadFromKeyring_answer by apply Hg.
  destruct (userEntry w), (passEntry w), H; try discriminate; reflexivity.
Qed.

Lemma loadFromFile_absent (w : World) (path : string) :
  credentialsAt w path -> fault w (OsReadFile path) = None ->
  files w !! path = None ->
  keyring.loadFromFile w
  = ((noCredentials, Some (Sentinel ErrCredentialsNotFound)), w).
Proof.
  intros Hp Hr Hf. now rewrite (loadFromFile_answer w path Hp Hr), Hf.
Qed.

(** X5.  With backends that work, Delete succeeds, the Load that follows
    reports the not-found condition, and a second Delete succeeds again
    and changes nothing: in keyring mode, in file mode and in Auto mode,
    whatever was stored before. *)
Theorem Delete_then_Load_is_not_found (w : World) (pref kind path : string)
    (Hkind : kind = keyring.StoreKeyring \/ kind = keyring.StoreFile
             \/ kind = keyring.StoreAuto)
    (Hres : resolves w pref kind)
    (Hkeyring : kind <> keyring.StoreFile -> keyringWorks w)
    (Hdisk : kind <> keyring.StoreKeyring ->
             diskWorks w /\ credentialsAt w path) :
  exists w',
    keyring.DeleteCredentialsWithStore pref w = (None, w')
    /\ keyring.LoadCredentialsWithStore pref w'
       = ((noCredentials, Some (Sentinel ErrCredentialsNotFound)), w')
    /\ keyring.DeleteCredentialsWithStore pref w' = (None, w').
Proof.
  assert (KD : forall v, fault v = fault w -> keyringWorks w ->
            exists v', keyring.deleteFromKeyring v = (None, v')
                       /\ userEntry v' = None /\ passEntry v' = None
                       /\ (userEntry v = None -> passEntry v = None -> v' = v)).
  { intros v Hf Hk. apply deleteFromKeyring_works; rewrite Hf;
      apply (Hk (KeyringDelete _ _)). }
  destruct Hkind as [-> | [-> | ->]].
  - specialize (Hkeyring ltac:(discriminate)).
    destruct (KD w eq_refl Hkeyring) as (w' & Hd & Hu & Hp & _).
    pose proof (deleteFromKeyring_frame _ _ _ Hd) as (Henv & _ & _ & Hf).
    assert (Hres' : resolves w' pref keyring.StoreKeyring)
      by (eapply resolves_environ; eassumption).
    exists w'. rewrite (Delete_keyring _ _ Hres). split; [exact Hd |].
    rewrite (Load_keyring _ _ Hres'), (Delete_keyring _ _ Hres'). split.
    + apply loadFromKeyring_absent; [| now left].
      intros key. rewrite Hf. apply (Hkeyring (KeyringGet _ _)).
    + destruct (KD w' Hf Hkeyring) as (w'' & Hd' & _ & _ & Hsame).
      now rewrite Hd', (Hsame Hu Hp).
  - destruct (Hdisk ltac:(discriminate)) as [Hd Hpath].
    destruct (deleteFromFile_works w path Hpath (Hd (OsRemove path)))
      as (w' & Hdel & Hgone & _).
    pose proof (deleteFromFile_frame _ _ _ Hdel) as (Henv & _ & _ & Hf).
    assert (Hres' : resolves w' pref keyring.StoreFile)
      by (eapply resolves_environ; eassumption).
    assert (Hpath' : credentialsAt w' path)
      by (eapply credentialsAt_environ; eassumption).
    exists w'. rewrite (Delete_file _ _ Hres). split; [exact Hdel |].
    rewrite (Load_file _ _ Hres'), (Delete_file _ _ Hres'). split.
    + apply (loadFromFile_absent w' path); [assumption | | assumption].
      rewrite Hf. apply (Hd (OsReadFile path)).
    + destruct (deleteFromFile_works w' path Hpath') as (w'' & Hdel' & _ & Hsame).
      * rewrite Hf. apply (Hd (OsRemove path)).
      * now rewrite Hdel', (Hsame Hgone).
  - specialize (Hkeyring ltac:(discriminate)).
    destruct (Hdisk ltac:(discriminate)) as [Hd Hpath].
    destruct (KD w eq_refl Hkeyring) as (w1 & Hd1 & Hu & Hp & _).
    pose proof (deleteFromKeyring_frame _ _ _ Hd1) as (Henv1 & _ & _ & Hf1).
    assert (Hpath1 : credentialsAt w1 path)
      by (eapply credentialsAt_environ; eassumption).
    destruct (deleteFromFile_works w1 path Hpath1) as (w2 & Hd2 & Hgone & _);
      [rewrite Hf1; apply (Hd (OsRemove path)) |].
    pose proof (deleteFromFile_frame _ _ _ Hd2) as (Henv2 & Hs2 & _ & Hf2).
    assert (Henv : environ w2 = environ w) by congruence.
    assert (Hf : fault w2 = fault w) by congruence.
    assert (Hres' : resolves w2 pref keyring.StoreAuto)
      by (eapply resolves_environ; eassumption).
    assert (Hpath2 : credentialsAt w2 path)
      by (eapply credentialsAt_environ; eassumption).
    assert (Hu2 : userEntry w2 = None) by (unfold userEntry in *; now rewrite Hs2).
    assert (Hp2 : passEntry w2 = None) by (unfold passEntry in *; now rewrite Hs2).
    exists w2. rewrite (Delete_auto _ _ Hres), Hd1, Hd2. split; [reflexivity |].
    rewrite (Load_auto _ _ Hres'), (Delete_auto _ _ Hres'). split.
    + rewrite loadFromKeyring_absent; [| | now left].
      * rewrite (loadFromFile_absent w2 path); [reflexivity | assumption | |
                                                 assumption].
        rewrite Hf. apply (Hd (OsReadFile path)).
      * intros key. rewrite Hf. apply (Hkeyring (KeyringGet _ _)).
    + destruct (KD w2 Hf Hkeyring) as (w3 & Hd3 & _ & _ & Hsame3).
      rewrite Hd3, (Hsame3 Hu2 Hp2).
      destruct (deleteFromFile_works w2 path Hpath2) as (w4 & Hd4 & _ & Hsame4);
        [rewrite Hf; apply (Hd (OsRemove path)) |].
      now rewrite Hd4, (Hsame4 Hgone).
Qed.

(** X6.  In Auto mode with a secret service that works, Save stores the
    credentials in the keyring alone, no file or directory is written,
    and the Load that follows returns them unchanged.  No condition on
    white space applies: a username of white space only comes back too. *)
Theorem Auto_roundtrip_through_keyring (w : World) (creds : Credentials)
    (pref : string)
    (Huser : Username creds <> "") (Hpass : Password creds <> "")
    (Hres : resolves w pref keyring.StoreAuto)
    (Hkeyring : keyringWorks w) :
  exists w1,
    keyring.SaveCredentialsWithStore creds pref w = (None, w1)
    /\ files w1 = files w /\ dirs w1 = dirs w
    /\ keyring.LoadCredentialsWithStore pref w1 = ((creds, None), w1).
Proof.
  destruct (saveToKeyring_works creds w) as (w1 & Hs);
    try apply (Hkeyring (KeyringSet _ _ _)).
  pose proof (saveToKeyring_frame _ _ _ _ Hs) as (Henv & Hf & Hd & Hfault).
  exists w1. rewrite (Save_auto _ _ _ Huser Hpass Hres), Hs.
  split; [reflexivity |]. split; [exact Hf |]. split; [exact Hd |].
  rewrite (Load_auto w1 pref) by (eapply resolves_environ; eassumption).
  rewrite (keyring_save_then_load w w1 creds); [reflexivity | | exact Hs].
  intros key. apply (Hkeyring (KeyringGet _ _)).
Qed.

Lemma keyringUnavailable_load (w : World) :
  keyringUnavailable w ->
  exists c e, fst (keyring.loadFromKeyring w) = (c, Some e).
Proof.
  intros Hk. unfold keyring.loadFromKeyring, bind, zk.Get, ret.
  pose proof (Hk (KeyringGet keyring.serviceName keyring.userKey)) as H.
  simpl in H. destruct (fault w (KeyringGet _ keyring.userKey)) as [e|];
    [| contradiction]. simpl.
  destruct (errors.Is e zk.ErrNotFound); eexists _, _; reflexivity.
Qed.

(** X7.  In Auto mode with a secret service that refuses every call and a
    disk that works, Save falls back to the file and succeeds, the secret
    service is left as it was, and the Load that follows returns the
    credentials from the file, provided the username is not white space
    only and the document written for these credentials decodes back to
    them. *)
Theorem Auto_roundtrip_through_file (w : World) (creds : Credentials)
    (pref path : string)
    (Hcodec : decodesBack creds)
    (Huser : whitespaceOnly (Username creds) = false)
    (Hpass : Password creds <> "")
    (Hres : resolves w pref keyring.StoreAuto)
    (Hkeyring : keyringUnavailable w)
    (Hdisk : diskWorks w) (Hpath : credentialsAt w path) :
  exists w2,
    keyring.SaveCredentialsWithStore creds pref w = (None, w2)
    /\ secrets w2 = secrets w
    /\ keyring.LoadCredentialsWithStore pref w2 = ((creds, None), w2).
Proof.
  assert (Hu : Username creds <> "").
  { intros H. rewrite H in Huser. discriminate. }
  assert (Htrim : strings.TrimSpace (Username creds) <> "")
    by (intros H; apply TrimSpace_inv in H; congruence).
  assert (Hk1 : exists e, keyring.saveToKeyring creds w = (Some e, w)).
  { unfold keyring.saveToKeyring, bind, zk.Set_, ret.
    pose proof (Hkeyring (KeyringSet keyring.serviceName keyring.userKey
                            (Username creds))) as H. simpl in H.
    destruct (fault w (KeyringSet _ keyring.userKey _)) as [e|];
      [| contradiction]. eexists; reflexivity. }
  destruct Hk1 as (e1 & Hk1).
  pose proof Hcodec as (data & Hm & _).
  destruct (saveToFile_works creds w path data Hpath
              (Hdisk (OsMkdirAll _)) (Hdisk (OsWriteFile _)) Hm) as (w2 & Hs).
  pose proof (saveToFile_frame _ _ _ _ Hs) as (Henv & Hsec & Hfault).
  exists w2. rewrite (Save_auto _ _ _ Hu Hpass Hres), Hk1, Hs.
  split; [reflexivity |]. split; [exact Hsec |].
  rewrite (Load_auto w2 pref) by (eapply resolves_environ; eassumption).
  assert (Hk2 : keyringUnavailable w2).
  { intros c. specialize (Hkeyring c). destruct c; now rewrite ?Hfault. }
  pose proof (loadFromKeyring_world w2) as Hw.
  destruct (keyringUnavailable_load w2 Hk2) as (c & e & Hl).
  destruct (keyring.loadFromKeyring w2) as [[c' e'] w'].
  simpl in Hw, Hl. subst w'. injection Hl as -> ->.
  rewrite (file_save_then_load w w2 creds Hcodec
             (fun p => Hdisk (OsReadFile p)) Hs).
  apply eqb_false in Htrim, Hpass. now rewrite Htrim, Hpass.
Qed.

End store_compositions.

Section store_edges.
Context {P : Platform}.

Lemma Errorf_w_mentions (prefix : string) (e : error) :
  mentions (Error (Errorf_w prefix e)) (Error e).
Proof.
  exists (prefix +:+ ": "), "". unfold Errorf_w, Error at 1.
  now rewrite append_assoc, append_nil_r.
Qed.

(** X8.  The save to the keyring is not undone when it fails half way.
    In Auto mode, when the secret service takes the username but refuses
    the password, and the codec encodes the credentials, Save falls back
    to the file and reports success; the keyring now holds the new
    username beside the password it held before, and since Load asks the
    keyring first, it returns that pair and not the credentials that were
    saved.  Nothing is asked of what the codec reads back. *)
Theorem Auto_save_can_leave_a_mixed_keyring (w : World) (creds : Credentials)
    (pref path old data : string) (refused : error)
    (Hwrite : yaml_Marshal creds = (data, None))
    (Huser : Username creds <> "") (Hpass : Password creds <> "")
    (Hres : resolves w pref keyring.StoreAuto)
    (Hset1 : fault w (KeyringSet keyring.serviceName keyring.userKey
                        (Username creds)) = None)
    (Hset2 : fault w (KeyringSet keyring.serviceName keyring.passKey
                        (Password creds)) = Some refused)
    (Hold : passEntry w = Some old)
    (Hget : forall key, fault w (KeyringGet keyring.serviceName key) = None)
    (Hdisk : diskWorks w) (Hpath : credentialsAt w path) :
  exists w2,
    keyring.SaveCredentialsWithStore creds pref w = (None, w2)
    /\ userEntry w2 = Some (Username creds) /\ passEntry w2 = Some old
    /\ keyring.LoadCredentialsWithStore pref w2
       = ((mkCredentials (Username creds) old, None), w2).
Proof.
  set (w1 := with_secrets w
               (<[(keyring.serviceName, keyring.userKey) := Username creds]>
                  (secrets w))).
  assert (Hk : keyring.saveToKeyring creds w
               = (Some (Errorf_w "save password to keyring" refused), w1)).
  { unfold keyring.saveToKeyring, bind, zk.Set_, ret. rewrite Hset1. simpl.
    now rewrite Hset2. }
  pose proof Hwrite as Hm.
  assert (Hpath1 : credentialsAt w1 path)
    by (eapply credentialsAt_environ; [| exact Hpath]; reflexivity).
  destruct (saveToFile_works creds w1 path data Hpath1
              (Hdisk (OsMkdirAll _)) (Hdisk (OsWriteFile _)) Hm) as (w2 & Hs).
  pose proof (saveToFile_frame _ _ _ _ Hs) as (Henv & Hsec & Hfault).
  assert (Hu2 : userEntry w2 = Some (Username creds)).
  { unfold userEntry. rewrite Hsec. apply lookup_insert_eq. }
  assert (Hp2 : passEntry w2 = Some old).
  { unfold passEntry in *. rewrite Hsec. simpl.
    rewrite lookup_insert_ne by apply keys_differ. exact Hold. }
  exists w2. rewrite (Save_auto _ _ _ Huser Hpass Hres), Hk, Hs.
  split; [reflexivity |]. split; [exact Hu2 |]. split; [exact Hp2 |].
  rewrite (Load_auto w2 pref)
    by (eapply resolves_environ; [| exact Hres]; now rewrite Henv).
  rewrite loadFromKeyring_answer, Hu2, Hp2; [reflexivity | |];
    rewrite Hfault; apply Hget.
Qed.

(** X9.  [deleteFromKeyring] always tries both entries.  When the removal
    of the username entry is refused and that of the password entry is
    not, Delete on the keyring backend returns the error of the username,
    wrapped, and yet the password entry is gone while the username entry
    stays.  When both removals are refused the error returned is still
    that of the username alone. *)
Theorem Delete_keyring_is_not_all_or_nothing (w : World) (pref : string)
    (refused : error)
    (Hres : resolves w pref keyring.StoreKeyring)
    (Huser : fault w (KeyringDelete keyring.serviceName keyring.userKey)
             = Some refused)
    (Hother : errors.Is refused zk.ErrNotFound = false) :
  let failure := Errorf_w "delete username from keyring" refused in
  (fault w (KeyringDelete keyring.serviceName keyring.passKey) = None ->
   exists w',
     keyring.DeleteCredentialsWithStore pref w = (Some failure, w')
     /\ passEntry w' = None /\ userEntry w' = userEntry w)
  /\ (forall refused',
        fault w (KeyringDelete keyring.serviceName keyring.passKey)
        = Some refused' ->
        keyring.DeleteCredentialsWithStore pref w = (Some failure, w))
  /\ errors.Is failure zk.ErrNotFound = false
  /\ mentions (Error failure) (Error refused).
Proof.
  intros failure. rewrite (Delete_keyring _ _ Hres).
  unfold keyring.deleteFromKeyring, bind, zk.Delete, ret. rewrite Huser.
  split; [| split; [| split]].
  - intros Hp. rewrite Hp.
    destruct (secrets w !! (keyring.serviceName, keyring.passKey)) eqn:E;
      simpl; rewrite Hother; simpl; eexists; (split; [reflexivity |]).
    + unfold passEntry, userEntry. simpl.
      rewrite lookup_delete_eq.
      now rewrite lookup_delete_ne by (symmetry; apply keys_differ).
    + now split.
  - intros refused' Hp. rewrite Hp. simpl. now rewrite Hother.
  - exact Hother.
  - apply Errorf_w_mentions.
Qed.

(** X10.  In Auto mode one backend that deletes is enough for Delete to
    report success.  When the secret service refuses to remove either
    entry while the disk works, Delete returns nil, the credentials are
    still in the keyring, and the Load that follows returns them. *)
Theorem Auto_delete_can_report_success_and_leave_credentials (w : World)
    (pref path username password : string) (refused1 refused2 : error)
    (Hres : resolves w pref keyring.StoreAuto)
    (Hu : userEntry w = Some username) (Hp : passEntry w = Some password)
    (Hdel1 : fault w (KeyringDelete keyring.serviceName keyring.userKey)
             = Some refused1)
    (Hdel2 : fault w (KeyringDelete keyring.serviceName keyring.passKey)
             = Some refused2)
    (Hother : errors.Is refused1 zk.ErrNotFound = false)
    (Hget : forall key, fault w (KeyringGet keyring.serviceName key) = None)
    (Hdisk : diskWorks w) (Hpath : credentialsAt w path) :
  exists w',
    keyring.DeleteCredentialsWithStore pref w = (None, w')
    /\ files w' !! path = None
    /\ keyring.LoadCredentialsWithStore pref w'
       = ((mkCredentials username password, None), w').
Proof.
  assert (Hk : keyring.deleteFromKeyring w
               = (Some (Errorf_w "delete username from keyring" refused1), w)).
  { unfold keyring.deleteFromKeyring, bind, zk.Delete, ret.
    rewrite Hdel1, Hdel2. simpl. now rewrite Hother. }
  destruct (deleteFromFile_works w path Hpath (Hdisk (OsRemove path)))
    as (w' & Hd & Hgone & _).
  pose proof (deleteFromFile_frame _ _ _ Hd) as (Henv & Hsec & _ & Hfault).
  exists w'. rewrite (Delete_auto _ _ Hres), Hk, Hd.
  split; [reflexivity |]. split; [exact Hgone |].
  rewrite (Load_auto w' pref) by (eapply resolves_environ; eassumption).
  rewrite loadFromKeyring_answer; unfold userEntry, passEntry in *;
    rewrite ?Hsec, ?Hu, ?Hp, ?Hfault; [reflexivity | apply Hget | apply Hget].
Qed.

(** X11.  In Auto mode a failed Load is a not-found error, in the sense of
    [errors.Is], exactly when both backends reported not-found; and the
    error that aggregates two other failures unwraps to the file error
    only, the keyring error being kept as text. *)
Theorem Auto_load_not_found_classification (w : World) (pref : string)
    (c1 c2 : Credentials) (e1 e2 : error)
    (Hres : resolves w pref keyring.StoreAuto)
    (Hk : fst (keyring.loadFromKeyring w) = (c1, Some e1))
    (Hf : fst (keyring.loadFromFile w) = (c2, Some e2)) :
  exists e,
    keyring.LoadCredentialsWithStore pref w = ((noCredentials, Some e), w)
    /\ errors.Is e ErrCredentialsNotFound
       = errors.Is e1 ErrCredentialsNotFound
         && errors.Is e2 ErrCredentialsNotFound
    /\ (errors.Is e1 ErrCredentialsNotFound = false ->
        errors.Is e2 ErrCredentialsNotFound = false ->
        forall target, errors.Is e target = errors.Is e2 target).
Proof.
  rewrite (Load_auto _ _ Hres).
  pose proof (loadFromKeyring_world w) as Hwk.
  pose proof (loadFromFile_world w) as Hwf.
  destruct (keyring.loadFromKeyring w) as [[ck ek] wk].
  simpl in Hwk, Hk. subst wk. injection Hk as -> ->.
  destruct (keyring.loadFromFile w) as [[cf ef] wf].
  simpl in Hwf, Hf. subst wf. injection Hf as -> ->.
  destruct (errors.Is e1 ErrCredentialsNotFound) eqn:I1,
           (errors.Is e2 ErrCredentialsNotFound) eqn:I2; simpl;
    eexists; (split; [reflexivity |]); (split; [| intros; try discriminate]);
    try assumption; reflexivity.
Qed.

(** X12.  With the credentials file present and decoded by the codec,
    Load on the file backend succeeds exactly when the decoded username
    is not white space only and the decoded password is not empty, and
    then returns the decoded credentials as they are, the username
    untrimmed; otherwise it returns the missing-required-fields error.  A
    file the codec cannot decode gives the codec's error, wrapped. *)
Theorem Load_file_outcomes (w : World) (pref path : string) (f : File)
    (Hres : resolves w pref keyring.StoreFile)
    (Hpath : credentialsAt w path)
    (Hread : fault w (OsReadFile path) = None)
    (Hfile : files w !! path = Some f) :
  let l := keyring.LoadCredentialsWithStore pref w in
  (forall creds,
     yaml_Unmarshal (contents f) = (creds, None) ->
     (l = ((creds, None), w) <->
      whitespaceOnly (Username creds) = false /\ Password creds <> "")
     /\ (l = ((noCredentials, Some missingFields), w) <->
         whitespaceOnly (Username creds) = true \/ Password creds = ""))
  /\ (forall partial err,
        yaml_Unmarshal (contents f) = (partial, Some err) ->
        l = ((noCredentials, Some (Errorf_w "parse credentials file" err)), w)).
Proof.
  intros l. subst l. rewrite (Load_file _ _ Hres).
  rewrite (loadFromFile_answer w path Hpath Hread), Hfile.
  split.
  - intros creds ->.
    destruct (whitespaceOnly (Username creds)) eqn:Ews.
    + rewrite (TrimSpace_blank _ Ews). simpl. split.
      * split; [discriminate | intros [H _]; discriminate].
      * split; [now left | reflexivity].
    + assert (Htrim : strings.TrimSpace (Username creds) <> "")
        by (intros H; apply TrimSpace_inv in H; congruence).
      apply eqb_false in Htrim. rewrite Htrim. simpl.
      destruct (String.eqb (Password creds) "") eqn:Ep.
      * apply eqb_true in Ep. split.
        -- split; [discriminate | intros [_ H]; contradiction].
        -- split; [now right | reflexivity].
      * apply eqb_false in Ep. split.
        -- split; [now split | reflexivity].
        -- split; [discriminate | intros [H | H]; [discriminate | contradiction]].
  - intros partial err ->. reflexivity.
Qed.

End store_edges.

(** ** Store names in ASCII *)

Lemma lowerByte_facts (c : ascii) :
  strings.asciiSpace (byte_val (strings.lowerByte c))
  = strings.asciiSpace (byte_val c)
  /\ (byte_val (strings.lowerByte c) <? utf8.RuneSelf)
     = (byte_val c <? utf8.RuneSelf)
  /\ strings.lowerByte (strings.lowerByte c) = strings.lowerByte c.
Proof.
  destruct c as [[] [] [] [] [] [] [] []]; vm_compute; repeat split.
Qed.

Lemma isASCII_asciiBytes (s : string) :
  strings.isASCII s = asciiBytes (list_ascii_of_string s).
Proof.
  induction s as [|c t IH]; [reflexivity |]. simpl. now rewrite IH.
Qed.

Lemma list_of_mapBytes (f : ascii -> ascii) (s : string) :
  list_ascii_of_string (strings.mapBytes f s)
  = List.map f (list_ascii_of_string s).
Proof.
  induction s as [|c t IH]; [reflexivity |]. simpl. now rewrite IH.
Qed.

Lemma mapBytes_of_list (f : ascii -> ascii) (l : list ascii) :
  strings.mapBytes f (string_of_list_ascii l)
  = string_of_list_ascii (List.map f l).
Proof.
  induction l as [|c t IH]; [reflexivity |]. simpl. now rewrite IH.
Qed.

Lemma list_of_append (a b : string) :
  list_ascii_of_string (a +:+ b)
  = (list_ascii_of_string a ++ list_ascii_of_string b)%list.
Proof.
  induction a as [|c t IH]; [reflexivity |].
  rewrite append_cons. simpl. now rewrite IH.
Qed.

Lemma asciiBytes_app (a b : list ascii) :
  asciiBytes (a ++ b) = asciiBytes a && asciiBytes b.
Proof. apply forallb_app. Qed.

Lemma asciiBytes_rev (l : list ascii) : asciiBytes (rev l) = asciiBytes l.
Proof.
  induction l as [|c t IH]; [reflexivity |].
  simpl rev. rewrite asciiBytes_app, IH. simpl.
  rewrite andb_true_r. apply andb_comm.
Qed.

Lemma asciiBytes_dropSpaces (l : list ascii) :
  asciiBytes l = true -> asciiBytes (dropSpaces l) = true.
Proof.
  induction l as [|c t IH]; [reflexivity |]. intros H. simpl.
  destruct (strings.asciiSpace (byte_val c)); [| exact H].
  apply IH. simpl in H. now apply andb_true_iff in H.
Qed.

Lemma asciiBytes_asciiTrim (l : list ascii) :
  asciiBytes l = true -> asciiBytes (asciiTrim l) = true.
Proof.
  intros H. unfold asciiTrim. rewrite asciiBytes_rev.
  apply asciiBytes_dropSpaces. rewrite asciiBytes_rev.
  now apply asciiBytes_dropSpaces.
Qed.

Lemma dropSpaces_snoc (a : list ascii) (c : ascii) :
  strings.asciiSpace (byte_val c) = false ->
  dropSpaces (a ++ [c]) = (dropSpaces a ++ [c])%list.
Proof.
  intros Hc. induction a as [|x a IH]; simpl; [now rewrite Hc |].
  destruct (strings.asciiSpace (byte_val x)); [exact IH | reflexivity].
Qed.

Lemma dropSpaces_idem (a : list ascii) :
  dropSpaces (dropSpaces a) = dropSpaces a.
Proof.
  induction a as [|x a IH]; [reflexivity |]. simpl.
  destruct (strings.asciiSpace (byte_val x)) eqn:E; [exact IH |].
  simpl. now rewrite E.
Qed.

Lemma dropSpaces_blank_app (ws x : list ascii) :
  forallb (fun c => strings.asciiSpace (byte_val c)) ws = true ->
  dropSpaces (ws ++ x) = dropSpaces x.
Proof.
  induction ws as [|c ws IH]; [reflexivity |]. simpl. intros H.
  apply andb_true_iff in H as [Hc Hws]. rewrite Hc. now apply IH.
Qed.

Lemma dropSpaces_app_blank (l ws : list ascii) :
  forallb (fun c => strings.asciiSpace (byte_val c)) ws = true ->
  dropSpaces (rev (dropSpaces (l ++ ws))) = dropSpaces (rev (dropSpaces l)).
Proof.
  intros Hws. induction l as [|x l IH]; simpl.
  - rewrite <- (app_nil_r ws), dropSpaces_blank_app by exact Hws. reflexivity.
  - destruct (strings.asciiSpace (byte_val x)); [exact IH |].
    change (x :: l ++ ws)%list with ((x :: l) ++ ws)%list.
    rewrite rev_app_distr. apply dropSpaces_blank_app.
    clear -Hws. induction ws as [|c ws IH]; [reflexivity |].
    simpl in *. apply andb_true_iff in Hws as [Hc Hws].
    rewrite forallb_app, (IH Hws). simpl. now rewrite Hc.
Qed.

Lemma dropSpaces_map (f : ascii -> ascii) (l : list ascii) :
  (forall c, strings.asciiSpace (byte_val (f c))
             = strings.asciiSpace (byte_val c)) ->
  dropSpaces (List.map f l) = List.map f (dropSpaces l).
Proof.
  intros Hf. induction l as [|c l IH]; [reflexivity |]. simpl.
  rewrite Hf. destruct (strings.asciiSpace (byte_val c)); [exact IH | reflexivity].
Qed.

Lemma asciiTrim_map (f : ascii -> ascii) (l : list ascii) :
  (forall c, strings.asciiSpace (byte_val (f c))
             = strings.asciiSpace (byte_val c)) ->
  asciiTrim (List.map f l) = List.map f (asciiTrim l).
Proof.
  intros Hf. unfold asciiTrim.
  now rewrite (dropSpaces_map f _ Hf), <- map_rev, (dropSpaces_map f _ Hf),
    <- map_rev.
Qed.

Lemma asciiTrim_idem (l : list ascii) : asciiTrim (asciiTrim l) = asciiTrim l.
Proof.
  unfold asciiTrim.
  destruct (dropSpaces l) as [|c m] eqn:E; [reflexivity |].
  assert (Hc : strings.asciiSpace (byte_val c) = false).
  { pose proof (dropSpaces_idem l) as H. rewrite E in H. simpl in H.
    destruct (strings.asciiSpace (byte_val c)); [| reflexivity].
    exfalso. clear -H.
    assert (Hl : (List.length (dropSpaces m) <= List.length m)%nat).
    { clear. induction m as [|x m IH]; simpl; [lia |].
      destruct (strings.asciiSpace (byte_val x)); simpl; lia. }
    rewrite H in Hl. simpl in Hl. lia. }
  simpl rev. rewrite (dropSpaces_snoc _ _ Hc), rev_app_distr. simpl.
  rewrite Hc. simpl rev. rewrite rev_involutive.
  rewrite (dropSpaces_snoc _ _ Hc), dropSpaces_idem, rev_app_distr.
  reflexivity.
Qed.

Lemma asciiTrim_padding (ws1 l ws2 : list ascii) :
  forallb (fun c => strings.asciiSpace (byte_val c)) ws1 = true ->
  forallb (fun c => strings.asciiSpace (byte_val c)) ws2 = true ->
  asciiTrim (ws1 ++ l ++ ws2) = asciiTrim l.
Proof.
  intros H1 H2. unfold asciiTrim.
  rewrite (dropSpaces_blank_app ws1 _ H1).
  now rewrite (dropSpaces_app_blank l ws2 H2).
Qed.

Lemma trimSpaceRight_ascii (rs : list ascii) :
  asciiBytes rs = true ->
  strings.trimSpaceRight rs = string_of_list_ascii (rev (dropSpaces rs)).
Proof.
  induction rs as [|c rs IH]; [reflexivity |]. intros H.
  simpl in H. apply andb_true_iff in H as [Hc Hrs].
  assert (Hle : (utf8.RuneSelf <=? byte_val c) = false)
    by (apply Z.leb_gt; now apply Z.ltb_lt).
  cbn [strings.trimSpaceRight dropSpaces]. rewrite Hle.
  destruct (strings.asciiSpace (byte_val c)); [now apply IH | reflexivity].
Qed.

(** On an ASCII string [TrimSpace] drops the ASCII white space at both
    ends and nothing else. *)
Lemma TrimSpace_asciiTrim (s : string) :
  strings.isASCII s = true ->
  strings.TrimSpace s
  = string_of_list_ascii (asciiTrim (list_ascii_of_string s)).
Proof.
  induction s as [|c t IH]; [reflexivity |]. intros H.
  simpl in H. apply andb_true_iff in H as [Hc Ht].
  assert (Hle : (utf8.RuneSelf <=? byte_val c) = false)
    by (apply Z.leb_gt; now apply Z.ltb_lt).
  cbn [strings.TrimSpace]. rewrite Hle. unfold asciiTrim.
  cbn [list_ascii_of_string dropSpaces].
  destruct (strings.asciiSpace (byte_val c)); [now apply IH |].
  apply trimSpaceRight_ascii. rewrite asciiBytes_rev. simpl.
  now rewrite Hc, <- isASCII_asciiBytes.
Qed.

Section store_names.
Context {P : Platform}.

(** The normal form of an ASCII store name, on its bytes. *)
Lemma normalizeStore_ascii (x : string) :
  strings.isASCII x = true ->
  let v := string_of_list_ascii
             (List.map strings.lowerByte (asciiTrim (list_ascii_of_string x))) in
  keyring.normalizeStore x
  = (if String.eqb v "" then keyring.StoreAuto else v)
  /\ strings.isASCII v = true.
Proof.
  intros Hx v.
  assert (Ht : asciiBytes (asciiTrim (list_ascii_of_string x)) = true)
    by (apply asciiBytes_asciiTrim; now rewrite <- isASCII_asciiBytes).
  assert (Hv : strings.isASCII v = true).
  { unfold v. rewrite isASCII_asciiBytes, list_ascii_of_string_of_list_ascii.
    clear -Ht. induction (asciiTrim _) as [|c l IH]; [reflexivity |].
    simpl in *. apply andb_true_iff in Ht as [Hc Hl].
    destruct (lowerByte_facts c) as (_ & -> & _). now rewrite Hc, IH. }
  split; [| exact Hv].
  unfold keyring.normalizeStore, strings.ToLower.
  rewrite (TrimSpace_asciiTrim x Hx).
  rewrite isASCII_asciiBytes, list_ascii_of_string_of_list_ascii, Ht.
  now rewrite mapBytes_of_list.
Qed.

Lemma normalizeStore_idem (x : string) :
  strings.isASCII x = true ->
  keyring.normalizeStore (keyring.normalizeStore x) = keyring.normalizeStore x.
Proof.
  intros Hx. destruct (normalizeStore_ascii x Hx) as [Hn Hv]. cbv zeta in *.
  set (v := string_of_list_ascii _) in *. rewrite Hn.
  destruct (String.eqb v "") eqn:E; [reflexivity |].
  destruct (normalizeStore_ascii v Hv) as [Hn' _]. cbv zeta in Hn'.
  rewrite Hn'.
  assert (Hfix : string_of_list_ascii
                   (List.map strings.lowerByte
                      (asciiTrim (list_ascii_of_string v))) = v).
  { unfold v at 1. rewrite list_ascii_of_string_of_list_ascii.
    rewrite asciiTrim_map by (intros c; apply lowerByte_facts).
    rewrite asciiTrim_idem, map_map. unfold v. f_equal.
    apply map_ext. intros c. apply lowerByte_facts. }
  now rewrite Hfix, E.
Qed.

(** X13.  For a store name in ASCII, normalising is idempotent and does
    not change whether the name validates.  So when the override, or
    without one the preference, is ASCII, a store that [resolveStore]
    returns is one of [auto], [keyring] and [file]: the branches of Save,
    Load and Delete for an unsupported store cannot be reached. *)
Theorem ascii_store_names_resolve_to_a_kind :
  (forall x, strings.isASCII x = true ->
     keyring.NormalizeCredentialStore (keyring.NormalizeCredentialStore x)
     = keyring.NormalizeCredentialStore x
     /\ (keyring.ValidateCredentialStore (keyring.NormalizeCredentialStore x)
         = None <-> keyring.ValidateCredentialStore x = None))
  /\ (forall w pref kind,
        strings.isASCII (effective w pref) = true ->
        resolves w pref kind ->
        kind = keyring.StoreAuto \/ kind = keyring.StoreKeyring
        \/ kind = keyring.StoreFile).
Proof.
  split.
  - intros x Hx. unfold keyring.NormalizeCredentialStore.
    split; [now apply normalizeStore_idem |].
    rewrite !Validate_None_iff. now rewrite (normalizeStore_idem x Hx).
  - intros w pref kind Hx Hr. unfold resolves in Hr.
    destruct (keyring.resolveStore pref w) as [r w'] eqn:E.
    apply resolveStore_inv in E as [_ [(s & -> & Hs & Hv) | [-> _]]];
      simpl in Hr; [| discriminate].
    injection Hr as <-. apply Validate_None_iff in Hv.
    subst s. now rewrite (normalizeStore_idem _ Hx) in Hv.
Qed.

(** X14.  Store names are read without regard to ASCII case or to ASCII
    white space around them: for ASCII names, padding a name with white
    space, or replacing it by a name that differs only in the case of its
    letters, changes neither its normal form nor whether it validates. *)
Theorem store_names_ignore_case_and_padding (x y ws1 ws2 : string)
    (Hx : strings.isASCII x = true) (Hy : strings.isASCII y = true)
    (Hcase : strings.mapBytes strings.lowerByte y
             = strings.mapBytes strings.lowerByte x)
    (Hws1 : asciiBlank ws1 = true) (Hws2 : asciiBlank ws2 = true) :
  keyring.NormalizeCredentialStore (ws1 +:+ y +:+ ws2)
  = keyring.NormalizeCredentialStore x
  /\ (keyring.ValidateCredentialStore (ws1 +:+ y +:+ ws2) = None
      <-> keyring.ValidateCredentialStore x = None).
Proof.
  assert (Hb : forall ws, asciiBlank ws = true -> strings.isASCII ws = true).
  { intros ws H. rewrite isASCII_asciiBytes. unfold asciiBlank, asciiBytes in *.
    induction (list_ascii_of_string ws) as [|c l IH]; [reflexivity |].
    simpl in *. apply andb_true_iff in H as [Hc Hl]. rewrite (IH Hl).
    rewrite andb_true_r. unfold strings.asciiSpace, utf8.RuneSelf in *.
    apply Z.ltb_lt. repeat (apply orb_true_iff in Hc as [Hc | Hc]);
      apply Z.eqb_eq in Hc; lia. }
  assert (Hpad : strings.isASCII (ws1 +:+ y +:+ ws2) = true).
  { rewrite isASCII_asciiBytes, !list_of_append, !asciiBytes_app.
    rewrite <- !isASCII_asciiBytes. now rewrite (Hb _ Hws1), Hy, (Hb _ Hws2). }
  assert (Hn : keyring.normalizeStore (ws1 +:+ y +:+ ws2)
               = keyring.normalizeStore x).
  { destruct (normalizeStore_ascii _ Hpad) as [-> _].
    destruct (normalizeStore_ascii _ Hx) as [-> _]. cbv zeta.
    rewrite !list_of_append, (asciiTrim_padding _ _ _ Hws1 Hws2).
    rewrite <- !asciiTrim_map by (intros c; apply lowerByte_facts).
    now rewrite <- !list_of_mapBytes, Hcase. }
  unfold keyring.NormalizeCredentialStore. split; [exact Hn |].
  now rewrite !Validate_None_iff, Hn.
Qed.

End store_names.

Section store_more.
Context {P : Platform}.

Lemma with_secrets_same (v : World) : with_secrets v (secrets v) = v.
Proof. now destruct v. Qed.

(** A save to the keyring, repeated in a world with the same faults and
    the entries the first one left, gives the same result and changes
    nothing. *)
Lemma saveToKeyring_again (creds : Credentials) (w w1 v : World) r :
  keyring.saveToKeyring creds w = (r, w1) ->
  fault v = fault w -> secrets v = secrets w1 ->
  keyring.saveToKeyring creds v = (r, v).
Proof.
  unfold keyring.saveToKeyring, bind, zk.Set_, ret. intros H Hf Hs.
  rewrite Hf.
  destruct (fault w (KeyringSet _ keyring.userKey _)) as [e1|] eqn:F1;
    simpl in H; [now injection H as <- <- |].
  destruct (fault w (KeyringSet _ keyring.passKey _)) as [e2|] eqn:F2;
    simpl in H; injection H as <- <-; simpl in *; rewrite ?Hf, ?F2, Hs.
  - rewrite insert_insert_eq, <- Hs. now rewrite with_secrets_same.
  - f_equal. rewrite <- (with_secrets_same v) at 2. rewrite Hs. f_equal.
    rewrite (insert_id (<[_ := Password creds]> _) (_, keyring.userKey)
               (Username creds)).
    + now rewrite insert_insert_eq.
    + rewrite lookup_insert_ne by (symmetry; apply keys_differ).
      apply lookup_insert_eq.
Qed.

Lemma saveToFile_again (creds : Credentials) (w w1 : World) r :
  keyring.saveToFile creds w = (r, w1) ->
  keyring.saveToFile creds w1 = (r, w1).
Proof.
  unfold keyring.saveToFile, bind, os.MkdirAll, os.WriteFile, ret. intros H.
  pose proof (credentialsFilePath_world w) as Hw.
  destruct (keyring.credentialsFilePath w) as [[path err] w0] eqn:Ep.
  simpl in Hw. subst w0.
  assert (Hcf : forall v, environ v = environ w ->
            keyring.credentialsFilePath v = ((path, err), v)).
  { intros v Hv. revert Ep. unfold keyring.credentialsFilePath. rewrite Hv.
    destruct (config_ConfigPath (environ w)) as [cfg [e|]];
      intros Ep; now injection Ep as <- <-. }
  destruct err as [e|]; [injection H as <- <-; now rewrite Ep |].
  destruct (fault w (OsMkdirAll (filepath_Dir path))) as [e|] eqn:F1;
    [injection H as <- <-; now rewrite Ep, F1 |].
  destruct (dirs w !! filepath_Dir path) as [d|] eqn:Ed;
    destruct (yaml_Marshal creds) as [data [e|]] eqn:Em; simpl in H.
  - injection H as <- <-. now rewrite Ep, F1, Ed.
  - destruct (fault w (OsWriteFile path)) as [e|] eqn:F2;
      injection H as <- <-.
    + now rewrite Ep, F1, Ed, F2.
    + rewrite Hcf by reflexivity. simpl. rewrite F1, Ed. simpl.
      rewrite F2, lookup_insert_eq. unfold with_files. simpl.
      now rewrite insert_insert_eq.
  - injection H as <- <-. rewrite Hcf by reflexivity. simpl.
    now rewrite F1, lookup_insert_eq.
  - destruct (fault w (OsWriteFile path)) as [e|] eqn:F2;
      injection H as <- <-; rewrite Hcf by reflexivity; simpl;
      rewrite F1, lookup_insert_eq; simpl; rewrite F2;
      [reflexivity |].
    rewrite lookup_insert_eq. unfold with_files. simpl.
    now rewrite insert_insert_eq.
Qed.

(** X15.  Saving again what has just been saved changes nothing: when a
    Save succeeds, the same Save in the world it left succeeds too and
    leaves that world as it is, in every mode. *)
Theorem Save_twice_is_Save_once (w w1 : World) (creds : Credentials)
    (pref : string)
    (Hsave : keyring.SaveCredentialsWithStore creds pref w = (None, w1)) :
  keyring.SaveCredentialsWithStore creds pref w1 = (None, w1).
Proof.
  destruct (Save_invalid_or_valid w creds pref) as [[e He] | [Hu Hp]];
    [rewrite He in Hsave; discriminate |].
  pose proof (Save_environ w creds pref) as [Henv _].
  rewrite Hsave in Henv. simpl in Henv.
  destruct (resolveStore_cases w pref) as [[kind Hr] | [e He]].
  - assert (Hr1 : resolves w1 pref kind)
      by (eapply resolves_environ; eassumption).
    destruct (kind_cases kind) as [-> | [-> | [-> | (E1 & E2 & E3)]]].
    + rewrite (Save_keyring _ _ _ Hu Hp Hr) in Hsave.
      rewrite (Save_keyring _ _ _ Hu Hp Hr1).
      pose proof (saveToKeyring_frame _ _ _ _ Hsave) as (_ & _ & _ & Hf).
      exact (saveToKeyring_again _ _ _ _ _ Hsave Hf eq_refl).
    + rewrite (Save_file _ _ _ Hu Hp Hr) in Hsave.
      rewrite (Save_file _ _ _ Hu Hp Hr1).
      now apply saveToFile_again in Hsave.
    + rewrite (Save_auto _ _ _ Hu Hp Hr) in Hsave.
      rewrite (Save_auto _ _ _ Hu Hp Hr1).
      destruct (keyring.saveToKeyring creds w) as [[e1|] wk] eqn:Ek.
      * destruct (keyring.saveToFile creds wk) as [[e2|] wf] eqn:Ef;
          [discriminate |]. injection Hsave as <-.
        pose proof (saveToFile_frame _ _ _ _ Ef) as (Hfe & Hfs & Hff).
        pose proof (saveToFile_again _ _ _ _ Ef) as Ef'.
        pose proof (saveToKeyring_frame _ _ _ _ Ek) as (_ & _ & _ & Hkf).
        assert (Ek2 : keyring.saveToKeyring creds wf = (Some e1, wf))
          by (apply (saveToKeyring_again _ _ _ _ _ Ek); congruence).
        now rewrite Ek2, Ef'.
      * injection Hsave as <-.
        pose proof (saveToKeyring_frame _ _ _ _ Ek) as (_ & _ & _ & Hkf).
        now rewrite (saveToKeyring_again _ _ _ _ _ Ek Hkf eq_refl).
    + rewrite (Save_dispatch _ _ _ _ Hu Hp Hr), E1, E2, E3 in Hsave.
      discriminate.
  - apply eqb_false in Hu, Hp. revert Hsave.
    unfold keyring.SaveCredentialsWithStore, bind. rewrite Hu, Hp, He.
    discriminate.
Qed.

End store_more.

Section store_entry.
Context {P : Platform}.

Lemma Validate_kinds :
  keyring.ValidateCredentialStore keyring.StoreFile = None
  /\ keyring.ValidateCredentialStore keyring.StoreKeyring = None
  /\ keyring.ValidateCredentialStore keyring.StoreAuto = None.
Proof. repeat split; reflexivity. Qed.

Lemma override_resolves (w : World) (pref kind : string) :
  strings.TrimSpace (override w) <> "" ->
  keyring.normalizeStore (strings.TrimSpace (override w)) = kind ->
  keyring.ValidateCredentialStore kind = None ->
  resolves w pref kind.
Proof.
  intros Hne Hn Hv. unfold resolves. rewrite resolveStore_eq.
  unfold effective. apply eqb_false in Hne. rewrite Hne, Hn, Hv. reflexivity.
Qed.

(** X16.  An override pins the backend.  When the override variable, once
    trimmed, is not empty and normalises to [file], then whatever the
    caller prefers Load is the load from the file, and Save and Delete
    leave the secret service untouched; when it normalises to [keyring],
    Load is the load from the keyring and Save and Delete leave every file
    untouched. *)
Theorem override_pins_the_backend (w : World) (creds : Credentials)
    (pref : string)
    (Hset : strings.TrimSpace (override w) <> "") :
  let kind := keyring.normalizeStore (strings.TrimSpace (override w)) in
  let saved := snd (keyring.SaveCredentialsWithStore creds pref w) in
  let deleted := snd (keyring.DeleteCredentialsWithStore pref w) in
  (kind = keyring.StoreFile ->
   keyring.LoadCredentialsWithStore pref w = keyring.loadFromFile w
   /\ secrets saved = secrets w /\ secrets deleted = secrets w)
  /\ (kind = keyring.StoreKeyring ->
      keyring.LoadCredentialsWithStore pref w = keyring.loadFromKeyring w
      /\ files saved = files w /\ files deleted = files w).
Proof.
  intros kind saved deleted. subst kind saved deleted.
  split; intros Hk.
  - assert (Hr : resolves w pref keyring.StoreFile)
      by (apply override_resolves; [assumption | assumption | apply Validate_kinds]).
    split; [apply (Load_file _ _ Hr) |].
    rewrite (Delete_file _ _ Hr).
    destruct (keyring.deleteFromFile w) as [rd wd] eqn:Ed.
    apply deleteFromFile_frame in Ed as (_ & Hs & _ & _).
    destruct (Save_invalid_or_valid w creds pref) as [[e He] | [Hu Hp]];
      [rewrite He; easy |].
    rewrite (Save_file _ _ _ Hu Hp Hr).
    destruct (keyring.saveToFile creds w) as [rs ws] eqn:Es.
    apply saveToFile_frame in Es as (_ & Hs' & _). easy.
  - assert (Hr : resolves w pref keyring.StoreKeyring)
      by (apply override_resolves; [assumption | assumption | apply Validate_kinds]).
    split; [apply (Load_keyring _ _ Hr) |].
    rewrite (Delete_keyring _ _ Hr).
    destruct (keyring.deleteFromKeyring w) as [rd wd] eqn:Ed.
    apply deleteFromKeyring_frame in Ed as (_ & Hf & _ & _).
    destruct (Save_invalid_or_valid w creds pref) as [[e He] | [Hu Hp]];
      [rewrite He; easy |].
    rewrite (Save_keyring _ _ _ Hu Hp Hr).
    destruct (keyring.saveToKeyring creds w) as [rs ws] eqn:Es.
    apply saveToKeyring_frame in Es as (_ & Hf' & _ & _). easy.
Qed.

Lemma saveToKeyring_error_wraps (creds : Credentials) (w w' : World) (e : error) :
  keyring.saveToKeyring creds w = (Some e, w') ->
  exists text cause, e = Wrapping text cause.
Proof.
  unfold keyring.saveToKeyring, bind, zk.Set_, ret. intros H.
  destruct (fault w (KeyringSet _ keyring.userKey _)); simpl in H;
    [injection H as <- _; eexists _, _; reflexivity |].
  destruct (fault w (KeyringSet _ keyring.passKey _)); simpl in H;
    [injection H as <- _; eexists _, _; reflexivity | discriminate].
Qed.

Lemma saveToFile_error_wraps (creds : Credentials) (w w' : World) (e : error) :
  keyring.saveToFile creds w = (Some e, w') ->
  exists text cause, e = Wrapping text cause.
Proof.
  unfold keyring.saveToFile, bind, os.MkdirAll, os.WriteFile, ret. intros H.
  destruct (keyring.credentialsFilePath w) as [[path [e0|]] w0];
    [injection H as <- _; eexists _, _; reflexivity |].
  destruct (fault w0 (OsMkdirAll _)) as [e0|];
    [injection H as <- _; eexists _, _; reflexivity |].
  destruct (dirs w0 !! _); destruct (yaml_Marshal creds) as [data [e0|]];
    simpl in H; try (injection H as <- _; eexists _, _; reflexivity);
    match type of H with
    | context [fault ?v (OsWriteFile path)] =>
        destruct (fault v (OsWriteFile path))
    end;
    first [discriminate | injection H as <- _; eexists _, _; reflexivity].
Qed.

(** X17.  Save checks the credentials before anything else.  It returns
    the error "username is required" exactly when the username is empty,
    and "password is required" exactly when the username is not empty and
    the password is; in both cases it returns before the store is
    resolved, so that neither the override nor a backend plays a part and
    the world is left as it is. *)
Theorem Save_requires_both_fields (w : World) (creds : Credentials)
    (pref : string) :
  let s := keyring.SaveCredentialsWithStore creds pref w in
  (fst s = Some (errors.New "username is required") <-> Username creds = "")
  /\ (fst s = Some (errors.New "password is required") <->
      Username creds <> "" /\ Password creds = "")
  /\ (Username creds = "" \/ Password creds = "" -> snd s = w).
Proof.
  intros s. subst s.
  assert (Hvalid : Username creds <> "" -> Password creds <> "" ->
            fst (keyring.SaveCredentialsWithStore creds pref w)
            <> Some (errors.New "username is required")
            /\ fst (keyring.SaveCredentialsWithStore creds pref w)
               <> Some (errors.New "password is required")).
  { intros Hu Hp.
    assert (Hw : forall r v, (exists text cause, r = Wrapping text cause) ->
              fst (Some r, v) <> Some (errors.New "username is required")
              /\ fst (Some r, v : World)
                 <> Some (errors.New "password is required")).
    { intros r v (text & cause & ->). split; discriminate. }
    destruct (resolveStore_cases w pref) as [[kind Hr] | [e He]].
    - destruct (kind_cases kind) as [-> | [-> | [-> | (E1 & E2 & E3)]]].
      + rewrite (Save_keyring _ _ _ Hu Hp Hr).
        destruct (keyring.saveToKeyring creds w) as [[e|] w1] eqn:E;
          [| split; discriminate].
        apply Hw. eapply saveToKeyring_error_wraps; exact E.
      + rewrite (Save_file _ _ _ Hu Hp Hr).
        destruct (keyring.saveToFile creds w) as [[e|] w1] eqn:E;
          [| split; discriminate].
        apply Hw. eapply saveToFile_error_wraps; exact E.
      + rewrite (Save_auto _ _ _ Hu Hp Hr).
        destruct (keyring.saveToKeyring creds w) as [[e1|] w1];
          [| split; discriminate].
        destruct (keyring.saveToFile creds w1) as [[e2|] w2];
          split; discriminate.
      + rewrite (Save_dispatch _ _ _ _ Hu Hp Hr), E1, E2, E3.
        split; discriminate.
    - pose proof He as He'.
      apply resolveStore_inv in He' as [_ [(s & Hs & _) | [Hs _]]];
        [discriminate |].
      apply eqb_false in Hu, Hp.
      unfold keyring.SaveCredentialsWithStore, bind. rewrite Hu, Hp, He.
      injection Hs as ->. split; discriminate. }
  unfold keyring.SaveCredentialsWithStore in *.
  destruct (String.eqb (Username creds) "") eqn:Eu.
  - apply eqb_true in Eu. simpl. split; [| split].
    + split; [now intros _ | reflexivity].
    + split; [discriminate | intros [H _]; contradiction].
    + reflexivity.
  - apply eqb_false in Eu.
    destruct (String.eqb (Password creds) "") eqn:Ep.
    + apply eqb_true in Ep. simpl. split; [| split].
      * split; [discriminate | contradiction].
      * split; [now intros _ | reflexivity].
      * reflexivity.
    + apply eqb_false in Ep. destruct (Hvalid Eu Ep) as [H1 H2].
      split; [| split].
      * split; [contradiction | contradiction].
      * split; [contradiction | intros [_ H]; contradiction].
      * intros [H | H]; contradiction.
Qed.

End store_entry.

Section store_unknown.
Context {P : Platform}.

(** X18.  A store name that is none of the three stops every operation
    before a backend is reached.  For an ASCII name (the override, or
    without one the preference) whose normal form is not [auto], [keyring]
    or [file], Save with valid credentials, Load and Delete all return the
    same error and leave the world as it is; the error is built from the
    normal form of the name, lower-cased and trimmed, not from the text
    that was given. *)
Theorem unknown_store_stops_every_operation (w : World) (creds : Credentials)
    (pref : string)
    (Huser : Username creds <> "") (Hpass : Password creds <> "")
    (Hascii : strings.isASCII (effective w pref) = true)
    (Hauto : keyring.normalizeStore (effective w pref) <> keyring.StoreAuto)
    (Hkeyring : keyring.normalizeStore (effective w pref)
                <> keyring.StoreKeyring)
    (Hfile : keyring.normalizeStore (effective w pref) <> keyring.StoreFile) :
  let failure :=
    keyring.invalidStoreError (keyring.normalizeStore (effective w pref)) in
  keyring.SaveCredentialsWithStore creds pref w = (Some failure, w)
  /\ keyring.LoadCredentialsWithStore pref w
     = ((noCredentials, Some failure), w)
  /\ keyring.DeleteCredentialsWithStore pref w = (Some failure, w).
Proof.
  intros failure.
  assert (He : keyring.resolveStore pref w = (("", Some failure), w)).
  { rewrite resolveStore_eq. unfold keyring.ValidateCredentialStore.
    rewrite (normalizeStore_idem _ Hascii).
    apply eqb_false in Hauto, Hkeyring, Hfile.
    now rewrite Hauto, Hkeyring, Hfile. }
  apply eqb_false in Huser, Hpass.
  split; [| split].
  - unfold keyring.SaveCredentialsWithStore, bind.
    now rewrite Huser, Hpass, He.
  - unfold keyring.LoadCredentialsWithStore, bind. now rewrite He.
  - unfold keyring.DeleteCredentialsWithStore, bind. now rewrite He.
Qed.

End store_unknown.

(** ** The further properties at work *)

(** A world with credentials in both backends, a secret of another
    application and a file of the user's: after Save and after Delete in
    Auto mode the foreign secret and the foreign file are what they were. *)
Lemma operations_touch_only_their_own_witness :
  let P := fake.platform in
  let w := fake.crowded
             (fake.storedInKeyring fake.alice
                (fake.storedInFile fake.alice fake.freshWorld)) in
  let saved := snd (keyring.SaveCredentialsWithStore fake.bob "auto" w) in
  let deleted := snd (keyring.DeleteCredentialsWithStore "auto" w) in
  secrets saved !! fake.foreignKey = secrets w !! fake.foreignKey
  /\ files saved !! fake.foreignFile = files w !! fake.foreignFile
  /\ secrets deleted !! fake.foreignKey = secrets w !! fake.foreignKey
  /\ files deleted !! fake.foreignFile = files w !! fake.foreignFile.
Proof.
  intros P w saved deleted.
  apply (@operations_touch_only_their_own P w fake.bob "auto"
           fake.foreignKey fake.foreignFile).
  - intros [H | H]; discriminate H.
  - intros H. vm_compute in H. discriminate H.
Defined.

(** The save of the test [TestFileStoreRoundTrip]: a new file of mode
    [0600]. *)
Lemma Save_file_writes_document_witness :
  let P := fake.platform in
  let w := fake.freshWorld in
  let w1 := snd (keyring.SaveCredentialsWithStore fake.alice "file" w) in
  exists path data,
    credentialsAt w path /\ yaml_Marshal fake.alice = (data, None)
    /\ contents <$> files w1 !! path = Some data
    /\ (files w !! path = None ->
        mode <$> files w1 !! path = Some keyring.filePerm)
    /\ (forall f, files w !! path = Some f ->
                  mode <$> files w1 !! path = Some (mode f))
    /\ is_Some (dirs w1 !! filepath_Dir path).
Proof.
  intros P w w1.
  apply (@Save_file_writes_document P w w1 fake.alice "file"); evaluated.
Defined.

(** Credentials in both backends, deleted in Auto mode. *)
Lemma Delete_then_Load_is_not_found_witness :
  let P := fake.platform in
  let w := fake.storedInKeyring fake.alice
             (fake.storedInFile fake.alice fake.freshWorld) in
  exists w',
    keyring.DeleteCredentialsWithStore "auto" w = (None, w')
    /\ keyring.LoadCredentialsWithStore "auto" w'
       = ((noCredentials, Some (Sentinel ErrCredentialsNotFound)), w')
    /\ keyring.DeleteCredentialsWithStore "auto" w' = (None, w').
Proof.
  intros P w.
  apply (@Delete_then_Load_is_not_found P w "auto" "auto" fake.credentialsPath).
  - right; right; reflexivity.
  - evaluated.
  - intros _. intros []; exact I || reflexivity.
  - intros _. split; [intros []; exact I || reflexivity | evaluated].
Defined.

(** A username of one space goes through the keyring and comes back. *)
Lemma Auto_roundtrip_through_keyring_witness :
  let P := fake.platform in
  let w := fake.freshWorld in
  exists w1,
    keyring.SaveCredentialsWithStore fake.blankUser "" w = (None, w1)
    /\ files w1 = files w /\ dirs w1 = dirs w
    /\ keyring.LoadCredentialsWithStore "" w1 = ((fake.blankUser, None), w1).
Proof.
  intros P w.
  apply (@Auto_roundtrip_through_keyring P w fake.blankUser "").
  - discriminate.
  - discriminate.
  - evaluated.
  - exact fake_keyringWorks.
Defined.

(** The secret service out of order, the disk at work. *)
Lemma Auto_roundtrip_through_file_witness :
  let P := fake.platform in
  let w := fake.keyringDown fake.freshWorld in
  exists w2,
    keyring.SaveCredentialsWithStore fake.alice "auto" w = (None, w2)
    /\ secrets w2 = secrets w
    /\ keyring.LoadCredentialsWithStore "auto" w2 = ((fake.alice, None), w2).
Proof.
  intros P w.
  apply (@Auto_roundtrip_through_file P w fake.alice "auto"
           fake.credentialsPath (fake_decodesBack fake.alice)).
  - evaluated.
  - discriminate.
  - evaluated.
  - intros []; try exact I; discriminate.
  - intros []; exact I || reflexivity.
  - evaluated.
Defined.

(** The keyring holds the first pair of credentials and refuses a new
    password: after the save of the second pair, Load returns the second
    username with the first password. *)
Lemma Auto_save_can_leave_a_mixed_keyring_witness :
  let P := fake.platform in
  let w := fake.refusing (fake.setsKey keyring.passKey)
             (fake.storedInKeyring fake.alice fake.freshWorld) in
  exists w2,
    keyring.SaveCredentialsWithStore fake.bob "auto" w = (None, w2)
    /\ userEntry w2 = Some (Username fake.bob)
    /\ passEntry w2 = Some (Password fake.alice)
    /\ keyring.LoadCredentialsWithStore "auto" w2
       = ((mkCredentials (Username fake.bob) (Password fake.alice), None), w2).
Proof.
  intros P w.
  apply (@Auto_save_can_leave_a_mixed_keyring P w fake.bob "auto"
           fake.credentialsPath (Password fake.alice)
           (fst (fake.Marshal fake.bob)) (Fresh "access denied")).
  - reflexivity.
  - discriminate.
  - discriminate.
  - evaluated.
  - reflexivity.
  - reflexivity.
  - reflexivity.
  - intros key. reflexivity.
  - intros []; exact I || reflexivity.
  - evaluated.
Defined.

(** The removal of the username entry is refused, that of the password
    entry is not. *)
Lemma Delete_keyring_is_not_all_or_nothing_witness :
  let P := fake.platform in
  let w := fake.refusing (fake.deletesKey keyring.userKey)
             (fake.storedInKeyring fake.alice fake.freshWorld) in
  let failure :=
    Errorf_w "delete username from keyring" (Fresh "access denied") in
  exists w',
    keyring.DeleteCredentialsWithStore "keyring" w = (Some failure, w')
    /\ passEntry w' = None /\ userEntry w' = userEntry w.
Proof.
  intros P w failure.
  apply (proj1 (@Delete_keyring_is_not_all_or_nothing P w "keyring"
                  (Fresh "access denied")
                  ltac:(evaluated) ltac:(reflexivity) ltac:(reflexivity))).
  reflexivity.
Defined.

(** The secret service refuses both removals; the file is removed, Delete
    reports success, and Load still returns the credentials. *)
Lemma Auto_delete_can_report_success_and_leave_credentials_witness :
  let P := fake.platform in
  let w := fake.refusing fake.deletesAnyKey
             (fake.storedInKeyring fake.alice
                (fake.storedInFile fake.bob fake.freshWorld)) in
  exists w',
    keyring.DeleteCredentialsWithStore "auto" w = (None, w')
    /\ files w' !! fake.credentialsPath = None
    /\ keyring.LoadCredentialsWithStore "auto" w'
       = ((mkCredentials (Username fake.alice) (Password fake.alice), None), w').
Proof.
  intros P w.
  apply (@Auto_delete_can_report_success_and_leave_credentials P w "auto"
           fake.credentialsPath (Username fake.alice) (Password fake.alice)
           (Fresh "access denied") (Fresh "access denied")).
  - evaluated.
  - reflexivity.
  - reflexivity.
  - reflexivity.
  - reflexivity.
  - reflexivity.
  - intros key. reflexivity.
  - intros []; exact I || reflexivity.
  - evaluated.
Defined.

(** Nothing stored anywhere: both backends report not-found, and so does
    Load.  Both backends out of order: Load does not, and its error
    unwraps to the error of the file. *)
Lemma Auto_load_not_found_classification_witness :
  let P := fake.platform in
  let empty := fake.freshWorld in
  let down := fake.keyringDown (fake.diskDown fake.freshWorld) in
  (exists e,
     keyring.LoadCredentialsWithStore "auto" empty
     = ((noCredentials, Some e), empty)
     /\ errors.Is e ErrCredentialsNotFound = true)
  /\ (exists e,
        keyring.LoadCredentialsWithStore "auto" down
        = ((noCredentials, Some e), down)
        /\ errors.Is e ErrCredentialsNotFound = false
        /\ forall target,
             errors.Is e target
             = errors.Is (Errorf_w "read credentials file"
                            (Fresh "permission denied")) target).
Proof.
  intros P empty down. split.
  - destruct (@Auto_load_not_found_classification P empty "auto"
                noCredentials noCredentials
                (Sentinel ErrCredentialsNotFound)
                (Sentinel ErrCredentialsNotFound)
                ltac:(evaluated) ltac:(evaluated) ltac:(evaluated))
      as (e & Hload & Hfound & _).
    exists e. split; [exact Hload | exact Hfound].
  - destruct (@Auto_load_not_found_classification P down "auto"
                noCredentials noCredentials
                (Errorf_w "read username from keyring"
                   (Fresh "dbus: no secret service"))
                (Errorf_w "read credentials file" (Fresh "permission denied"))
                ltac:(evaluated) ltac:(evaluated) ltac:(evaluated))
      as (e & Hload & Hfound & Hunwrap).
    exists e. split; [exact Hload |]. split; [exact Hfound |].
    exact (Hunwrap ltac:(reflexivity) ltac:(reflexivity)).
Defined.

(** The file of a successful save, read back. *)
Lemma Load_file_outcomes_witness :
  let P := fake.platform in
  let w := fake.storedInFile fake.alice fake.freshWorld in
  let f := mkFile (fst (fake.Marshal fake.alice)) keyring.filePerm in
  let l := keyring.LoadCredentialsWithStore "file" w in
  (forall creds,
     yaml_Unmarshal (contents f) = (creds, None) ->
     (l = ((creds, None), w) <->
      whitespaceOnly (Username creds) = false /\ Password creds <> "")
     /\ (l = ((noCredentials, Some missingFields), w) <->
         whitespaceOnly (Username creds) = true \/ Password creds = ""))
  /\ (forall partial err,
        yaml_Unmarshal (contents f) = (partial, Some err) ->
        l = ((noCredentials, Some (Errorf_w "parse credentials file" err)), w)).
Proof.
  intros P w f l.
  apply (@Load_file_outcomes P w "file" fake.credentialsPath f); evaluated.
Defined.

(** [" FiLe  "] is read as ["file"]. *)
Lemma store_names_ignore_case_and_padding_witness :
  let P := fake.platform in
  keyring.NormalizeCredentialStore (" " +:+ "FiLe" +:+ "  ")
  = keyring.NormalizeCredentialStore "file"
  /\ (keyring.ValidateCredentialStore (" " +:+ "FiLe" +:+ "  ") = None
      <-> keyring.ValidateCredentialStore "file" = None).
Proof.
  intros P.
  apply (@store_names_ignore_case_and_padding P "file" "FiLe" " " "  ");
    reflexivity.
Defined.

(** The same credentials saved twice in Auto mode. *)
Lemma Save_twice_is_Save_once_witness :
  let P := fake.platform in
  let w := fake.freshWorld in
  let w1 := snd (keyring.SaveCredentialsWithStore fake.alice "auto" w) in
  keyring.SaveCredentialsWithStore fake.alice "auto" w1 = (None, w1).
Proof.
  intros P w w1.
  apply (@Save_twice_is_Save_once P w w1 fake.alice "auto").
  evaluated.
Defined.

(** The override [" FILE "] against a caller that prefers the keyring. *)
Lemma override_pins_the_backend_witness :
  let P := fake.platform in
  let w := fake.withOverride " FILE " fake.freshWorld in
  let saved := snd (keyring.SaveCredentialsWithStore fake.alice "keyring" w) in
  let deleted := snd (keyring.DeleteCredentialsWithStore "keyring" w) in
  keyring.LoadCredentialsWithStore "keyring" w = keyring.loadFromFile w
  /\ secrets saved = secrets w /\ secrets deleted = secrets w.
Proof.
  intros P w saved deleted.
  apply (proj1 (@override_pins_the_backend P w fake.alice "keyring"
                  ltac:(evaluated))).
  reflexivity.
Defined.

(** The preference [" Vault "]: the error names ["vault"]. *)
Lemma unknown_store_stops_every_operation_witness :
  let P := fake.platform in
  let w := fake.freshWorld in
  let failure := keyring.invalidStoreError "vault" in
  keyring.SaveCredentialsWithStore fake.alice " Vault " w = (Some failure, w)
  /\ keyring.LoadCredentialsWithStore " Vault " w
     = ((noCredentials, Some failure), w)
  /\ keyring.DeleteCredentialsWithStore " Vault " w = (Some failure, w).
Proof.
  intros P w failure.
  apply (@unknown_store_stops_every_operation P w fake.alice " Vault ");
    evaluated.
Defined.
